(** * Tabular actor-critic trainer with eligibility traces

    A shallow embedding of the learning core of the repository
    ([rl/acm.py], [rl/core.py], [rl/actor.py], [rl/environment.py]) and the
    properties of it that are checked against the specification.

    Conventions of the embedding.

    - Numbers.  The tables hold Python numbers produced by [+], [-], [*] and
      [/] only.  They are embedded as exact rationals [Q], the "real-valued"
      reading of the specification: rounding, overflow, infinities and NaN of
      IEEE doubles are outside that model.  The one infinity the program
      writes down, [-math.inf] as the initial maximum of the greedy scan, is
      a value of its own ([NegInf]).  Where a property of the real-valued
      reading is lost to rounding, the methods concerned are embedded a
      second time over binary64 numbers ([binary64]).
    - Actions.  The legal actions of a state are values of one type, which
      [np.array(actions)] holds as they are, so that an element drawn from
      the array is an element of the list.
    - Dictionaries are [gmap]s.  A missing key raises [KeyError], as
      [d[k]] does; [k not in d.keys()] is a lookup that yields [None].
    - A method is a function from the state it runs in to a result and the
      state it leaves, also when it raises ([M]).  The state of a method is
      the object it is called on and numpy's process-wide generator
      ([proc]).
    - The body of [fit] is a sequence of statements ([prog]); running it
      visits one state of its frame after each statement ([trace]).
    - The Domain and numpy's generator are external: the first is a class of
      operations on an abstract domain state, the second a class of draws on
      an abstract generator state. *)

From Stdlib Require Import Floats.
From Stdlib Require Import QArith Qabs Qpower Lqa.
From stdpp Require Import gmap strings list.

(** ** Python results, exceptions, methods and statement sequences *)

Module Py.

Inductive exn : Type :=
  | KeyError | ValueError | IndexError | AttributeError | TypeError | NameError
  | ZeroDivisionError | ModuleNotFoundError.

Inductive result (A : Type) : Type :=
  | Ok (a : A)
  | Raise (e : exn).
Arguments Ok {A} a.
Arguments Raise {A} e.

Definition M (S A : Type) : Type := S → result A * S.

#[export] Instance M_ret {S} : MRet (M S) := λ A a s, (Ok a, s).

#[export] Instance M_bind {S} : MBind (M S) :=
  λ A B k m s,
    match m s with
    | (Ok a, s') => k a s'
    | (Raise e, s') => (Raise e, s')
    end.

Definition raise {S A} (e : exn) : M S A := λ s, (Raise e, s).

Definition gets {S A} (f : S → A) : M S A := λ s, (Ok (f s), s).

Definition modify {S} (f : S → S) : M S unit := λ s, (Ok tt, f s).

(** [d[k]] *)
Definition getitem `{Countable K} {S V} (d : gmap K V) (k : K) : M S V :=
  match d !! k with
  | Some v => mret v
  | None => raise KeyError
  end.

(** [k not in d.keys()] *)
Definition not_in `{Countable K} {V} (k : K) (d : gmap K V) : bool :=
  match d !! k with
  | Some _ => false
  | None => true
  end.

(** [x / n] for a number [x] and a length [n] *)
Definition truediv {S} (x : Q) (n : nat) : M S Q :=
  match n with
  | O => raise ZeroDivisionError
  | S _ => mret (x / inject_Z (Z.of_nat n))%Q
  end.

(** A number or [-math.inf], and [x > m] against it. *)
Inductive bound : Type :=
  | NegInf
  | Fin (q : Q).

Definition Qgt_bool (x y : Q) : bool := negb (Qle_bool x y).

Definition gt (x : Q) (m : bound) : bool :=
  match m with
  | NegInf => true
  | Fin y => Qgt_bool x y
  end.

(** A sequence of statements over a state: each statement is a method call
    or an assignment, run in one piece. *)
Inductive prog (S A : Type) : Type :=
  | Ret (a : A)
  | Do {B : Type} (stmt : M S B) (k : B → prog S A).
Arguments Ret {S A} a.
Arguments Do {S A B} stmt k.

Fixpoint prog_bind {S A B} (k : A → prog S B) (p : prog S A) : prog S B :=
  match p with
  | Ret a => k a
  | Do stmt k' => Do stmt (λ b, prog_bind k (k' b))
  end.

#[export] Instance prog_mret {S} : MRet (prog S) := λ A a, Ret a.

#[export] Instance prog_mbind {S} : MBind (prog S) := λ A B k p, prog_bind k p.

Definition stmt {S A} (m : M S A) : prog S A := Do m Ret.

(** The result of a run and the state it stops in. *)
Fixpoint run {S A} (p : prog S A) (s : S) : result A * S :=
  match p with
  | Ret a => (Ok a, s)
  | Do stmt k =>
      match stmt s with
      | (Ok b, s') => run (k b) s'
      | (Raise e, s') => (Raise e, s')
      end
  end.

(** The states a run visits: the one after each statement, in order. *)
Fixpoint trace {S A} (p : prog S A) (s : S) : list S :=
  match p with
  | Ret _ => []
  | Do stmt k =>
      match stmt s with
      | (Ok b, s') => s' :: trace (k b) s'
      | (Raise _, s') => [s']
      end
  end.

(** [if b: m] *)
Definition when `{MRet m} (b : bool) (body : m unit) : m unit :=
  if b then body else mret tt.

(** [for x in l: body(x)] *)
Fixpoint for_each `{MRet m, MBind m} {A} (l : list A) (body : A → m unit)
    : m unit :=
  match l with
  | [] => mret tt
  | x :: l' => body x ;; for_each l' body
  end.

(** [for x in l: body(x)], where the body assigns to local variables *)
Fixpoint for_fold `{MRet m, MBind m} {A L} (l : list A) (body : A → L → m L)
    (locals : L) : m L :=
  match l with
  | [] => mret locals
  | x :: l' => locals' ← body x locals; for_fold l' body locals'
  end.

(** The state a method runs in: the object itself and the global generator. *)
Record proc (G S : Type) : Type := Proc { rng : G; self : S }.
Arguments Proc {G S} rng self.
Arguments rng {G S} p.
Arguments self {G S} p.

Definition gets_self {G S A} (f : S → A) : M (proc G S) A :=
  gets (λ p, f (self p)).

Definition modify_self {G S} (f : S → S) : M (proc G S) unit :=
  modify (λ p, Proc (rng p) (f (self p))).

(** A draw from the global generator, made from inside a method. *)
Definition draw {G S A} (m : M G A) : M (proc G S) A :=
  λ p, match m (rng p) with
       | (r, g) => (r, Proc g (self p))
       end.

End Py.

Export Py.

(** ** numpy's random generator

    The three draws the program makes.  [choice01 p0 p1] is
    [np.random.choice(np.array([0, 1]), p=[p0, p1]) == 1];
    [choice_index n] is the index [np.random.choice] picks in a population of
    [n] elements; [uniform] is [np.random.uniform()]. *)

Class Rng (G : Type) : Type := {
  choice01 : Q → Q → M G bool;
  choice_index : nat → M G nat;
  uniform : M G Q
}.

(** What the properties below assume of numpy, each only where it is used:
    an outcome of probability zero is never drawn, an index lies inside the
    population, and [uniform] yields a number of the half-open unit
    interval. *)
Class RngLaws (G : Type) `{Rng G} : Prop := {
  choice01_never : ∀ (p0 p1 : Q) (g : G),
    (p0 == 1)%Q → (p1 == 0)%Q → ∃ g', choice01 p0 p1 g = (Ok false, g');
  choice_index_lt : ∀ (n i : nat) (g g' : G),
    choice_index n g = (Ok i, g') → i < n;
  uniform_unit : ∀ g : G,
    ∃ u g', uniform g = (Ok u, g') ∧ (0 <= u)%Q ∧ (u < 1)%Q
}.

(** ** The Domain ([rl/environment.py])

    The trainer talks to its Domain through four methods, called on one
    object that keeps the current state of the task to itself.  (The abstract
    class of [rl/environment.py] declares [produce_initial_state],
    [generate_child_state(state, action)] and [is_terminal_state(state)];
    the fields below are the calls [fit] makes.)  Every call may raise. *)

Module environment.

Class Domain (D State Action : Type) : Type := {
  produce_initial_state : M D (State * list Action);
  generate_child_state : option Action → M D (State * list Action * Q);
  is_current_state_terminal : M D bool;
  visualise : M D unit
}.

End environment.

(** ** [rl/acm.py] *)

(** ** The package [rl]

    The repository holds four modules of it.  An import statement
    [from rl.<name> import ...] runs when the module it stands in is
    imported, and raises [ModuleNotFoundError] when the package has no
    module of that name. *)

Module package.

Definition rl_modules : list string := ["acm"; "actor"; "core"; "environment"].

Definition import_from (name : string) : result unit :=
  if bool_decide (name ∈ rl_modules) then Ok tt
  else Raise ModuleNotFoundError.

End package.

Module acm.

(** [from rl.environment import Domain], the one import of [rl/acm.py] from
    the package. *)
Definition imports : result unit := package.import_from "environment".

(** *** class [TableBasedCritic] *)

Module TableBasedCritic.
Section critic.
Context `{Countable State} `{Rng G}.

Record t : Type := mk {
  state_values : gmap State Q;
  eligibilities : gmap State Q
}.

Definition init : t := mk ∅ ∅.

Definition set_value (state : State) (v : Q) (c : t) : t :=
  mk (<[state := v]> (state_values c)) (eligibilities c).

Definition set_eligibility (state : State) (e : Q) (c : t) : t :=
  mk (state_values c) (<[state := e]> (eligibilities c)).

Definition add_state (state : State) : M (proc G t) unit :=
  vals ← gets_self state_values;
  when (not_in state vals)
    (u ← draw uniform; modify_self (set_value state u)) ;;
  elig ← gets_self eligibilities;
  when (not_in state elig)
    (modify_self (set_eligibility state 0)).

Definition reset_eligibilities : M (proc G t) unit :=
  modify_self (λ c, mk (state_values c) ((λ _, 0%Q) <$> eligibilities c)).

Definition compute_td_error (current_state successor_state : State)
    (reinforcement discount_rate : Q) : M (proc G t) Q :=
  vals ← gets_self state_values;
  v_succ ← getitem vals successor_state;
  vals ← gets_self state_values;
  v_cur ← getitem vals current_state;
  mret (reinforcement + discount_rate * v_succ - v_cur)%Q.

Definition update_value_function (state : State) (learning_rate td_error : Q)
    : M (proc G t) unit :=
  vals ← gets_self state_values;
  v ← getitem vals state;
  elig ← gets_self eligibilities;
  e ← getitem elig state;
  modify_self (set_value state (v + learning_rate * td_error * e)%Q).

Definition update_eligibilities (state : State) (discount_rate decay_factor : Q)
    : M (proc G t) unit :=
  elig ← gets_self eligibilities;
  e ← getitem elig state;
  modify_self (set_eligibility state (e * (discount_rate * decay_factor))%Q).

Definition num_seen_states : M (proc G t) nat :=
  gets_self (λ c, size (state_values c)).

End critic.
Arguments t State {_ _}.
End TableBasedCritic.

(** *** class [TableBasedActor]

    A key of the two tables is a pair [(state, action)]; the action of a key
    is whatever the caller passes, a legal action or Python's [None]. *)

Module TableBasedActor.
Section actor.
Context `{Countable State} `{Countable Action} `{Rng G}.

Record t : Type := mk {
  policy : gmap (State * option Action) Q;
  eligibilities : gmap (State * option Action) Q;
  state_actions : gmap State (list Action)
}.

Definition init : t := mk ∅ ∅ ∅.

Definition set_policy (k : State * option Action) (v : Q) (a : t) : t :=
  mk (<[k := v]> (policy a)) (eligibilities a) (state_actions a).

Definition set_eligibility (k : State * option Action) (e : Q) (a : t) : t :=
  mk (policy a) (<[k := e]> (eligibilities a)) (state_actions a).

Definition set_actions (state : State) (actions : list Action) (a : t) : t :=
  mk (policy a) (eligibilities a) (<[state := actions]> (state_actions a)).

(** The body of [for action in actions:] in [add_state]. *)
Definition add_action (state : State) (action : Action) : M (proc G t) unit :=
  pol ← gets_self policy;
  when (not_in (state, Some action) pol)
    (modify_self (set_policy (state, Some action) 0)) ;;
  elig ← gets_self eligibilities;
  when (not_in (state, Some action) elig)
    (modify_self (set_eligibility (state, Some action) 0)).

Definition add_state (state : State) (actions : list Action)
    : M (proc G t) unit :=
  modify_self (set_actions state actions) ;;
  for_each actions (add_action state).

Definition reset_eligibilities : M (proc G t) unit :=
  modify_self (λ a,
    mk (policy a) ((λ _, 0%Q) <$> eligibilities a) (state_actions a)).

(** The body of the greedy scan: the locals are [(best_action, max_value)]. *)
Definition scan_body (state : State) (actions : list Action) (action : Action)
    (locals : option Action * bound) : M (proc G t) (option Action * bound) :=
  pol ← gets_self policy;
  p ← getitem pol (state, Some action);
  state_value ← truediv p (length actions);
  if gt state_value (snd locals)
  then mret (Some action, Fin state_value)
  else mret locals.

Definition propose_action (state : State) (epsilon : Q)
    : M (proc G t) (option Action) :=
  sa ← gets_self state_actions;
  actions ← getitem sa state;
  explore ← draw (choice01 (1 - epsilon) epsilon);
  if (explore : bool) then
    i ← draw (choice_index (length actions));
    match actions !! i with
    | Some action => mret (Some action)
    | None => raise IndexError
    end
  else
    locals ← for_fold actions (scan_body state actions) (None, NegInf);
    mret (fst locals).

Definition update_policy (state : State) (action : option Action)
    (learning_rate td_error : Q) : M (proc G t) unit :=
  pol ← gets_self policy;
  p ← getitem pol (state, action);
  elig ← gets_self eligibilities;
  e ← getitem elig (state, action);
  modify_self (set_policy (state, action) (p + learning_rate * td_error * e)%Q).

Definition update_eligibilities (state : State) (action : option Action)
    (discount_rate decay_factor : Q) : M (proc G t) unit :=
  elig ← gets_self eligibilities;
  e ← getitem elig (state, action);
  modify_self
    (set_eligibility (state, action) (e * (discount_rate * decay_factor))%Q).

End actor.
Arguments t State {_ _} Action {_ _}.
End TableBasedActor.

(** *** class [NNBasedCritic]: an empty class body, so every attribute access
    on an instance raises [AttributeError]. *)

Inductive critic_obj (State : Type) `{Countable State} : Type :=
  | TableCritic (c : TableBasedCritic.t State)
  | NNCritic.
Arguments TableCritic {State _ _} c.
Arguments NNCritic {State _ _}.

(** *** class [ACM] *)

Module ACM.
Section acm.
Context `{Countable State} `{Countable Action} {G : Type} {R : Rng G}.
Context {D : Type} {Dom : environment.Domain D State Action}.

(** The attributes [__init__] reads from the configuration. *)
Record t : Type := mk {
  max_episodes : nat;
  steps : nat;
  critic_type : string;
  critic_nn_dims : list nat;
  actor_lr : Q;
  critic_lr : Q;
  decay_factor : Q;
  discount_rate : Q;
  epsilon : Q;
  epsilon_decay : Q;
  visualise : bool;
  verbose : bool
}.

Definition set_epsilon (e : Q) (a : t) : t :=
  mk (max_episodes a) (steps a) (critic_type a) (critic_nn_dims a)
     (actor_lr a) (critic_lr a) (decay_factor a) (discount_rate a)
     e (epsilon_decay a) (visualise a) (verbose a).

(** What a call of [fit] works on: [self], the two learners it creates, the
    domain it is given, numpy's generator, and the list kept for the
    progress bar. *)
Record frame : Type := Frame {
  this : t;
  actor : TableBasedActor.t State Action;
  critic : critic_obj State;
  domain : D;
  gen : G;
  steps_per_episode : list nat
}.

(** A statement that calls a method of [actor]. *)
Definition call_actor {A} (m : M (proc G (TableBasedActor.t State Action)) A)
    : prog frame A :=
  stmt (λ f,
    match m (Proc (gen f) (actor f)) with
    | (r, p) =>
        (r, Frame (this f) (self p) (critic f) (domain f) (rng p)
                  (steps_per_episode f))
    end).

(** A statement that calls a method of [critic], or sets an entry of its
    [eligibilities]. *)
Definition call_critic {A} (m : M (proc G (TableBasedCritic.t State)) A)
    : prog frame A :=
  stmt (λ f,
    match critic f with
    | TableCritic c =>
        match m (Proc (gen f) c) with
        | (r, p) =>
            (r, Frame (this f) (actor f) (TableCritic (self p)) (domain f)
                      (rng p) (steps_per_episode f))
        end
    | NNCritic => (Raise AttributeError, f)
    end).

(** A statement that calls a method of [domain]. *)
Definition call_domain {A} (m : M D A) : prog frame A :=
  stmt (λ f,
    match m (domain f) with
    | (r, d) =>
        (r, Frame (this f) (actor f) (critic f) d (gen f)
                  (steps_per_episode f))
    end).

(** Reading an attribute of [self]. *)
Definition gets_this {A} (g : t → A) : prog frame A :=
  stmt (gets (λ f, g (this f))).

(** The statements of an episode before its [while] loop; the value is
    [(current_state, current_action)]. *)
Definition episode_init : prog frame (State * option Action) :=
  call_actor TableBasedActor.reset_eligibilities ;;
  call_critic TableBasedCritic.reset_eligibilities ;;
  initial ← call_domain environment.produce_initial_state;
  let current_state := fst initial in
  let actions := snd initial in
  call_actor (TableBasedActor.add_state current_state actions) ;;
  call_critic (TableBasedCritic.add_state current_state) ;;
  self_epsilon ← gets_this epsilon;
  current_action ←
    call_actor (TableBasedActor.propose_action current_state self_epsilon);
  mret (current_state, current_action).

(** The statements of a step from [domain.generate_child_state] to the
    proposal for the successor; the value is
    [(successor_state, successor_action, reinforcement)]. *)
Definition observe (current_action : option Action)
    : prog frame (State * option Action * Q) :=
  child ← call_domain (environment.generate_child_state current_action);
  let successor_state := fst (fst child) in
  let actions := snd (fst child) in
  let reinforcement := snd child in
  call_actor (TableBasedActor.add_state successor_state actions) ;;
  call_critic (TableBasedCritic.add_state successor_state) ;;
  self_epsilon ← gets_this epsilon;
  successor_action ←
    call_actor (TableBasedActor.propose_action successor_state self_epsilon);
  mret (successor_state, successor_action, reinforcement).

(** [actor.eligibilities[(current_state, current_action)] = 1] *)
Definition mark_actor (current_state : State) (current_action : option Action)
    : prog frame unit :=
  call_actor
    (modify_self
       (TableBasedActor.set_eligibility (current_state, current_action) 1)).

(** [td_error = critic.compute_td_error(...)] *)
Definition td (current_state successor_state : State) (reinforcement : Q)
    : prog frame Q :=
  self_discount_rate ← gets_this discount_rate;
  call_critic
    (TableBasedCritic.compute_td_error current_state successor_state
       reinforcement self_discount_rate).

(** [critic.eligibilities[current_state] = 1] *)
Definition mark_critic (current_state : State) : prog frame unit :=
  call_critic
    (modify_self (TableBasedCritic.set_eligibility current_state 1)).

(** The body of [for state, action in episode:]. *)
Definition credit (td_error : Q) (entry : State * option Action)
    : prog frame unit :=
  self_critic_lr ← gets_this critic_lr;
  call_critic
    (TableBasedCritic.update_value_function (fst entry) self_critic_lr
       td_error) ;;
  self_discount_rate ← gets_this discount_rate;
  self_decay_factor ← gets_this decay_factor;
  call_critic
    (TableBasedCritic.update_eligibilities (fst entry) self_discount_rate
       self_decay_factor) ;;
  self_actor_lr ← gets_this actor_lr;
  call_actor
    (TableBasedActor.update_policy (fst entry) (snd entry) self_actor_lr
       td_error) ;;
  self_discount_rate ← gets_this discount_rate;
  self_decay_factor ← gets_this decay_factor;
  call_actor
    (TableBasedActor.update_eligibilities (fst entry) (snd entry)
       self_discount_rate self_decay_factor).

(** The body of the [while] loop.  The locals it reads and assigns are
    [current_state], [current_action] and [episode]; the value is their new
    contents. *)
Definition step_body (current_state : State) (current_action : option Action)
    (episode : list (State * option Action))
    : prog frame (State * option Action * list (State * option Action)) :=
  let episode := episode ++ [(current_state, current_action)] in
  seen ← observe current_action;
  let successor_state := fst (fst seen) in
  let successor_action := snd (fst seen) in
  let reinforcement := snd seen in
  mark_actor current_state current_action ;;
  td_error ← td current_state successor_state reinforcement;
  mark_critic current_state ;;
  for_each episode (credit td_error) ;;
  mret (successor_state, successor_action, episode).

(** [while step < self.steps and not domain.is_current_state_terminal():]
    The recursion is on [budget], which is [self.steps - step]; the domain is
    not asked once the budget is used up.  The value is the final [step]. *)
Fixpoint while_loop (budget step : nat) (current_state : State)
    (current_action : option Action) (episode : list (State * option Action))
    : prog frame nat :=
  match budget with
  | O => mret step
  | S budget' =>
      terminal ← call_domain environment.is_current_state_terminal;
      if (terminal : bool) then mret step
      else
        next ← step_body current_state current_action episode;
        while_loop budget' (S step) (fst (fst next)) (snd (fst next))
          (snd next)
  end.

(** [self.epsilon *= self.epsilon_decay] *)
Definition decay_epsilon : prog frame unit :=
  stmt (modify (λ f,
    Frame (set_epsilon (epsilon (this f) * epsilon_decay (this f))%Q (this f))
      (actor f) (critic f) (domain f) (gen f) (steps_per_episode f))).

(** [steps_per_episode.append(step)] *)
Definition record_steps (step : nat) : prog frame unit :=
  stmt (modify (λ f,
    Frame (this f) (actor f) (critic f) (domain f) (gen f)
      (steps_per_episode f ++ [step]))).

(** The body of [for episode_count in progress:].  The progress bar only
    reads ([critic.num_seen_states()], the list of step counts). *)
Definition episode_body (episode_count : nat) : prog frame unit :=
  start ← episode_init;
  self_steps ← gets_this steps;
  step ← while_loop self_steps 0 (fst start) (snd start) [];
  decay_epsilon ;;
  self_max_episodes ← gets_this max_episodes;
  when ((episode_count =? self_max_episodes - 1)%nat
        || (episode_count =? 0)%nat)
    (call_domain environment.visualise) ;;
  record_steps step ;;
  call_critic TableBasedCritic.num_seen_states ;;
  mret tt.

(** The frame of [fit(self, domain)] once [actor], [critic] and
    [steps_per_episode] are assigned, with numpy's generator in state [g]. *)
Definition enter (self : t) (d : D) (g : G) : frame :=
  Frame self TableBasedActor.init
    (if String.eqb (critic_type self) "table"
     then TableCritic TableBasedCritic.init
     else NNCritic)
    d g [].

(** The loop of [fit]. *)
Definition episodes : prog frame unit :=
  self_max_episodes ← gets_this max_episodes;
  for_each (seq 0 self_max_episodes) episode_body.

(** [fit(self, domain)]: how the call ends and the frame it ends in, and the
    frames it goes through. *)
Definition fit (self : t) (d : D) (g : G) : result unit * frame :=
  run episodes (enter self d g).

Definition fit_trace (self : t) (d : D) (g : G) : list frame :=
  trace episodes (enter self d g).

End acm.
Arguments frame State {_ _} Action {_ _} G D.
End ACM.

End acm.

(** ** [rl/actor.py]: the actor with its learning rate and exploration rate
    as attributes, keyed by [hash(tuple(state))] *)

Module actor.
Module TableBasedActor.
Section actor.
Context {State : Type} (hash_tuple : State → Z).
Context `{Countable Action} `{Rng G}.

Record t : Type := mk {
  policy : gmap (Z * option Action) Q;
  eligibilities : gmap (Z * option Action) Q;
  state_actions : gmap Z (list Action);
  learning_rate : Q;
  epsilon : Q
}.

(** A call of the class with the positional arguments [args]:
    [__init__(self, learning_rate, epsilon)] takes exactly two. *)
Definition new (args : list Q) : result t :=
  match args with
  | [learning_rate; epsilon] => Ok (mk ∅ ∅ ∅ learning_rate epsilon)
  | _ => Raise TypeError
  end.

Definition set_policy (k : Z * option Action) (v : Q) (a : t) : t :=
  mk (<[k := v]> (policy a)) (eligibilities a) (state_actions a)
     (learning_rate a) (epsilon a).

Definition set_eligibility (k : Z * option Action) (e : Q) (a : t) : t :=
  mk (policy a) (<[k := e]> (eligibilities a)) (state_actions a)
     (learning_rate a) (epsilon a).

Definition set_actions (state_id : Z) (actions : list Action) (a : t) : t :=
  mk (policy a) (eligibilities a) (<[state_id := actions]> (state_actions a))
     (learning_rate a) (epsilon a).

Definition add_action (state_id : Z) (action : Action) : M (proc G t) unit :=
  pol ← gets_self policy;
  when (not_in (state_id, Some action) pol)
    (modify_self (set_policy (state_id, Some action) 0)) ;;
  elig ← gets_self eligibilities;
  when (not_in (state_id, Some action) elig)
    (modify_self (set_eligibility (state_id, Some action) 0)).

Definition add_state (state : State) (actions : list Action)
    : M (proc G t) unit :=
  let state_id := hash_tuple state in
  modify_self (set_actions state_id actions) ;;
  for_each actions (add_action state_id).

Definition reset_eligibilities : M (proc G t) unit :=
  modify_self (λ a,
    mk (policy a) ((λ _, 0%Q) <$> eligibilities a) (state_actions a)
       (learning_rate a) (epsilon a)).

Definition increase_eligibility (state : State) (action : option Action)
    : M (proc G t) unit :=
  let state_id := hash_tuple state in
  modify_self (set_eligibility (state_id, action) 1).

Definition scan_body (state_id : Z) (actions : list Action) (action : Action)
    (locals : option Action * bound) : M (proc G t) (option Action * bound) :=
  pol ← gets_self policy;
  p ← getitem pol (state_id, Some action);
  state_value ← truediv p (length actions);
  if gt state_value (snd locals)
  then mret (Some action, Fin state_value)
  else mret locals.

Definition propose_action (state : State) : M (proc G t) (option Action) :=
  let state_id := hash_tuple state in
  sa ← gets_self state_actions;
  actions ← getitem sa state_id;
  self_epsilon ← gets_self epsilon;
  explore ← draw (choice01 (1 - self_epsilon) self_epsilon);
  if (explore : bool) then
    i ← draw (choice_index (length actions));
    match actions !! i with
    | Some action => mret (Some action)
    | None => raise IndexError
    end
  else
    locals ← for_fold actions (scan_body state_id actions) (None, NegInf);
    mret (fst locals).

Definition update_policy (state : State) (action : option Action)
    (td_error : Q) : M (proc G t) unit :=
  let state_id := hash_tuple state in
  pol ← gets_self policy;
  p ← getitem pol (state_id, action);
  self_learning_rate ← gets_self learning_rate;
  elig ← gets_self eligibilities;
  e ← getitem elig (state_id, action);
  modify_self
    (set_policy (state_id, action) (p + self_learning_rate * td_error * e)%Q).

Definition update_eligibilities (state : State) (action : option Action)
    (discount_rate decay_factor : Q) : M (proc G t) unit :=
  let state_id := hash_tuple state in
  elig ← gets_self eligibilities;
  e ← getitem elig (state_id, action);
  modify_self
    (set_eligibility (state_id, action)
       (e * (discount_rate * decay_factor))%Q).

End actor.
Arguments t Action {_ _}.
End TableBasedActor.
End actor.

(** ** [rl/core.py]

    The module imports [TableBasedActor] from [rl/actor.py] and [Domain]
    from [rl.env], and binds neither [TableBasedCritic] nor
    [NNBasedCritic].  Its class [ACM] has the [__init__] of [rl/acm.py], so
    [acm.ACM.t] is its [self] as well. *)

Module core.

(** [from rl.actor import TableBasedActor] and [from rl.env import Domain],
    in this order: the statements that run, before [class ACM], when the
    module is imported. *)
Definition imports : result unit :=
  match package.import_from "actor" with
  | Ok _ => package.import_from "env"
  | Raise e => Raise e
  end.

Module ACM.
Section core.
Context `{Countable Action}.

(** The learners [fit] has created when it reaches its loop. *)
Record learners : Type := Learners {
  the_actor : actor.TableBasedActor.t Action
}.

(** [fit(self, domain)], as it would run were the module imported.  The
    first statement, [actor = TableBasedActor()], calls the two-argument
    constructor without arguments; the second, [critic = TableBasedCritic()]
    or [critic = NNBasedCritic()], looks up a name the module does not
    bind.  The loop that follows in the source is the text of [rl/acm.py];
    no run reaches it, and neither the domain nor the generator is touched
    before the first statement. *)
Definition fit (self : acm.ACM.t) : result learners :=
  match actor.TableBasedActor.new (Action := Action) [] with
  | Raise e => Raise e
  | Ok the_actor => Raise NameError
  end.

(** [from rl.core import ACM] and then [ACM(config).fit(domain)]: what a
    program that uses the orchestrator of [rl/core.py] runs. *)
Definition imported_fit (self : acm.ACM.t) : result learners :=
  match imports with
  | Ok _ => fit self
  | Raise e => Raise e
  end.

End core.
End ACM.
End core.

(** ** Concrete instances, used to run the definitions

    A generator that is a counter, and two small domains over states and
    actions named by strings. *)

Module demo.

Definition u_of (g : nat) : Q := Z.of_nat (g mod 4) # 4.

(** Inverse-CDF sampling from a counter: [choice01] rejects vectors that are
    not probabilities and otherwise answers whether the sample falls past
    [p0]. *)
#[global] Instance counter_rng : Rng nat := {|
  choice01 p0 p1 g :=
    if Qle_bool 0 p0 && Qle_bool 0 p1 && Qeq_bool (p0 + p1) 1
    then (Ok (Qle_bool p0 (u_of g)), S g)
    else (Raise ValueError, g);
  choice_index n g :=
    match n with
    | O => (Raise ValueError, g)
    | S _ => (Ok (g mod n), S g)
    end;
  uniform g := (Ok (u_of g), S g)
|}.

(** The two-state task of the specification's end-to-end scenario: from
    ["S0"], [left] pays 1 and [right] pays 0, and both end in ["T"].  The
    domain state records whether the task is at ["T"]. *)
Definition two_state : environment.Domain bool string string := {|
  environment.produce_initial_state _ :=
    (Ok ("S0", ["left"; "right"]), false);
  environment.generate_child_state action _ :=
    (Ok ("T", ["stay"],
         if bool_decide (action = Some "left") then 1%Q else 0%Q), true);
  environment.is_current_state_terminal d := (Ok d, d);
  environment.visualise d := (Ok tt, d)
|}.

(** A task that never ends and offers no action anywhere. *)
Definition bare : environment.Domain unit string string := {|
  environment.produce_initial_state _ := (Ok ("S0", []), tt);
  environment.generate_child_state action _ := (Ok ("S0", [], 0%Q), tt);
  environment.is_current_state_terminal _ := (Ok false, tt);
  environment.visualise _ := (Ok tt, tt)
|}.

(** A critic that knows two states, with the generator at 0. *)
Definition critic_ab : proc nat (acm.TableBasedCritic.t string) :=
  Proc 0%nat
    (acm.TableBasedCritic.mk {[ "a" := (1 # 2)%Q; "b" := (1 # 4)%Q ]}
       {[ "a" := 1%Q; "b" := 0%Q ]}).

Definition config (episodes steps : nat) (epsilon : Q) : acm.ACM.t :=
  acm.ACM.mk episodes steps "table" [] (1 # 2) (1 # 2) (9 # 10) (9 # 10)
    epsilon (99 # 100) false false.

(** A task that never ends: it goes back and forth between ["A"] and ["B"],
    with the one action [go], which pays 1.  The domain state records
    whether the task is at ["B"]. *)
Definition shuttle : environment.Domain bool string string := {|
  environment.produce_initial_state _ := (Ok ("A", ["go"]), false);
  environment.generate_child_state action d :=
    (Ok (if d then "A" else "B", ["go"], 1%Q), negb d);
  environment.is_current_state_terminal d := (Ok false, d);
  environment.visualise d := (Ok tt, d)
|}.

End demo.

(** ** The trace tables over IEEE doubles

    [update_eligibilities] of the two learners once more, with the traces
    and the two rates as binary64 numbers, which is what Python's [float]
    is: [*] rounds to nearest, ties to even, and underflows to subnormal
    numbers and to zero. *)

Module binary64.

Module TableBasedCritic.
Section critic.
Context `{Countable State} {G : Type}.

Record t : Type := mk {
  state_values : gmap State float;
  eligibilities : gmap State float
}.

Definition set_eligibility (state : State) (e : float) (c : t) : t :=
  mk (state_values c) (<[state := e]> (eligibilities c)).

Definition update_eligibilities (state : State)
    (discount_rate decay_factor : float) : M (proc G t) unit :=
  elig ← gets_self eligibilities;
  e ← getitem elig state;
  modify_self
    (set_eligibility state (e * (discount_rate * decay_factor))%float).

End critic.
Arguments t State {_ _}.
End TableBasedCritic.

Module TableBasedActor.
Section actor.
Context `{Countable State} `{Countable Action} {G : Type}.

Record t : Type := mk {
  policy : gmap (State * option Action) float;
  eligibilities : gmap (State * option Action) float;
  state_actions : gmap State (list Action)
}.

Definition set_eligibility (k : State * option Action) (e : float) (a : t)
    : t :=
  mk (policy a) (<[k := e]> (eligibilities a)) (state_actions a).

Definition update_eligibilities (state : State) (action : option Action)
    (discount_rate decay_factor : float) : M (proc G t) unit :=
  elig ← gets_self eligibilities;
  e ← getitem elig (state, action);
  modify_self
    (set_eligibility (state, action)
       (e * (discount_rate * decay_factor))%float).

End actor.
Arguments t State {_ _} Action {_ _}.
End TableBasedActor.

(** The literal [0.9] of Python, the double nearest to nine tenths. *)
Definition nine_tenths : float := 0x1.ccccccccccccdp-1%float.

(** Learners with one trace, which has just been set to 1. *)
Definition demo_critic : proc nat (TableBasedCritic.t string) :=
  Proc 0%nat (TableBasedCritic.mk {[ "S0" := 0.5%float ]} {[ "S0" := 1%float ]}).

Definition demo_actor : proc nat (TableBasedActor.t string string) :=
  Proc 0%nat
    (TableBasedActor.mk {[ ("S0", Some "left") := 0%float ]}
       {[ ("S0", Some "left") := 1%float ]} {[ "S0" := ["left"] ]}).

End binary64.

(** * Vocabulary of the properties *)

(** [d.setdefault(k, v)] as a function on the table: what the guarded
    assignments of [add_state] do to one key. *)
Definition setdefault `{Countable K} {V} (k : K) (v : V) (d : gmap K V)
    : gmap K V :=
  match d !! k with
  | Some _ => d
  | None => <[k := v]> d
  end.

(** The keys [add_state(state, actions)] of the actor looks at. *)
Definition pair_keys {State Action} (state : State) (actions : list Action)
    : list (State * option Action) :=
  (λ action, (state, Some action)) <$> actions.

(** The state a call leaves. *)
Definition after {S A} (m : M S A) (s : S) : S := snd (m s).

(** Learners that know nothing yet, with the generator at 0. *)
Definition demo_actor : proc nat (acm.TableBasedActor.t string string) :=
  Proc 0%nat acm.TableBasedActor.init.

Definition demo_critic : proc nat (acm.TableBasedCritic.t string) :=
  Proc 0%nat acm.TableBasedCritic.init.

(** Every action listed for a registered state has a preference: what
    [add_state] establishes and the other methods keep. *)
Definition actor_wf `{Countable State} `{Countable Action}
    (a : acm.TableBasedActor.t State Action) : Prop :=
  ∀ state actions action,
    acm.TableBasedActor.state_actions a !! state = Some actions →
    action ∈ actions →
    is_Some (acm.TableBasedActor.policy a !! (state, Some action)).

(** [preference / |actions|] as the scan computes it. *)
Definition quotient (preference : Q) (actions : nat) : Q :=
  (preference / inject_Z (Z.of_nat actions))%Q.

(** An actor that knows ["S0"] with three actions, two of them tied for the
    largest preference; and one that knows ["T"] with no action at all. *)
Definition demo_actor_tie : proc nat (acm.TableBasedActor.t string string) :=
  Proc 0%nat
    (acm.TableBasedActor.mk
       {[ ("S0", Some "left") := 1%Q; ("S0", Some "right") := 3%Q;
          ("S0", Some "up") := 3%Q ]}
       {[ ("S0", Some "left") := 0%Q; ("S0", Some "right") := 0%Q;
          ("S0", Some "up") := 0%Q ]}
       {[ "S0" := ["left"; "right"; "up"] ]}).

Definition demo_actor_end : proc nat (acm.TableBasedActor.t string string) :=
  Proc 0%nat (acm.TableBasedActor.mk ∅ ∅ {[ "T" := [] ]}).

(** The same for the actor of [rl/actor.py], with exploration rate 0 and
    states that are their own hash. *)
Definition demo_actor_py_end : proc nat (actor.TableBasedActor.t string) :=
  Proc 0%nat (actor.TableBasedActor.mk ∅ ∅ {[ 7%Z := [] ]} (1 # 2) 0).

(** An actor whose pair [("S0", left)] has just been taken. *)
Definition demo_actor_marked : proc nat (acm.TableBasedActor.t string string) :=
  Proc 0%nat
    (acm.TableBasedActor.mk
       {[ ("S0", Some "left") := 0%Q; ("S0", Some "right") := 0%Q ]}
       {[ ("S0", Some "left") := 1%Q; ("S0", Some "right") := 0%Q ]}
       {[ "S0" := ["left"; "right"] ]}).

(** A triple: from a state of [P], every state the run visits is in [I];
    the run ends with a value and a state of [Q], or with an exception of
    [E]. *)
Definition triple {S A} (I : S → Prop) (P : S → Prop) (p : prog S A)
    (Q : A → S → Prop) (E : exn → Prop) : Prop :=
  ∀ s, P s →
    Forall I (trace p s) ∧
    match run p s with
    | (Ok a, s') => Q a s'
    | (Raise e, _) => E e
    end.


(** A sequence of statements of [fit] that leaves [self] as it is. *)
Definition keeps `{Countable State} `{Countable Action} {G D A : Type}
    (t : acm.ACM.t) (p : prog (acm.ACM.frame State Action G D) A) : Prop :=
  triple (λ _, True) (λ f, acm.ACM.this f = t) p
    (λ _ f, acm.ACM.this f = t) (λ _, True).

(** What the end of an episode does to [self]. *)
Definition decayed (t : acm.ACM.t) : acm.ACM.t :=
  acm.ACM.set_epsilon (acm.ACM.epsilon t * acm.ACM.epsilon_decay t)%Q t.

(** ** The credit-assignment sweep, as the specification words it

    The four tables, and the update of one entry of the history: the
    critic's value at [state] moves by
    [learning_rate * td_error * trace(state)] and its trace decays by
    [discount * decay]; then the actor's preference at [(state, action)]
    moves by [learning_rate * td_error * trace(state, action)] and its trace
    decays.  An entry that is not registered has no update. *)

Record tables (State Action : Type) `{Countable State} `{Countable Action}
    : Type := Tables {
  values : gmap State Q;
  critic_traces : gmap State Q;
  preferences : gmap (State * option Action) Q;
  actor_traces : gmap (State * option Action) Q
}.
Arguments Tables {State Action _ _ _ _} values critic_traces preferences
  actor_traces.
Arguments values {State Action _ _ _ _} t.
Arguments critic_traces {State Action _ _ _ _} t.
Arguments preferences {State Action _ _ _ _} t.
Arguments actor_traces {State Action _ _ _ _} t.

Section sweep_spec.
Context `{Countable State} `{Countable Action}.
Variables critic_lr actor_lr discount decay td_error : Q.

Definition credit_spec (entry : State * option Action)
    (T : tables State Action) : option (tables State Action) :=
  v ← values T !! entry.1;
  e ← critic_traces T !! entry.1;
  let values' := <[entry.1 := (v + critic_lr * td_error * e)%Q]> (values T) in
  let critic_traces' :=
    <[entry.1 := (e * (discount * decay))%Q]> (critic_traces T) in
  p ← preferences T !! entry;
  e_a ← actor_traces T !! entry;
  Some (Tables values' critic_traces'
          (<[entry := (p + actor_lr * td_error * e_a)%Q]> (preferences T))
          (<[entry := (e_a * (discount * decay))%Q]> (actor_traces T))).

(** The tables once the first [n] entries of the history, oldest first, have
    had their update: the update of entry [n] reads what the updates of the
    entries before it wrote. *)
Fixpoint sweep_spec (history : list (State * option Action)) (n : nat)
    (T : tables State Action) : option (tables State Action) :=
  match n with
  | O => Some T
  | S k =>
      T' ← sweep_spec history k T;
      entry ← history !! k;
      credit_spec entry T'
  end.

End sweep_spec.

Section frames.
Context `{Countable State} `{Countable Action} {G D : Type}.

(** The four tables of a frame whose critic is the table-based one. *)
Definition tables_of (f : acm.ACM.frame State Action G D)
    : option (tables State Action) :=
  match acm.ACM.critic f with
  | acm.TableCritic c =>
      Some (Tables (acm.TableBasedCritic.state_values c)
              (acm.TableBasedCritic.eligibilities c)
              (acm.TableBasedActor.policy (acm.ACM.actor f))
              (acm.TableBasedActor.eligibilities (acm.ACM.actor f)))
  | acm.NNCritic => None
  end.

(** The frame [f] with its four tables replaced. *)
Definition with_tables (T : tables State Action)
    (f : acm.ACM.frame State Action G D) : acm.ACM.frame State Action G D :=
  acm.ACM.Frame (acm.ACM.this f)
    (acm.TableBasedActor.mk (preferences T) (actor_traces T)
       (acm.TableBasedActor.state_actions (acm.ACM.actor f)))
    (acm.TableCritic (acm.TableBasedCritic.mk (values T) (critic_traces T)))
    (acm.ACM.domain f) (acm.ACM.gen f) (acm.ACM.steps_per_episode f).

End frames.

(** The statements of a step before its sweep; the value is
    [(successor_state, successor_action, td_error)]. *)
Definition before_sweep `{Countable State} `{Countable Action} {G : Type}
    {R : Rng G} {D : Type} {Dom : environment.Domain D State Action}
    (current_state : State) (current_action : option Action)
    : prog (acm.ACM.frame State Action G D) (State * option Action * Q) :=
  seen ← acm.ACM.observe current_action;
  acm.ACM.mark_actor current_state current_action ;;
  td_error ← acm.ACM.td current_state seen.1.1 seen.2;
  acm.ACM.mark_critic current_state ;;
  mret (seen.1.1, seen.1.2, td_error).

(** ** Registration, and what the training loop keeps true *)

(** A call that does not raise [KeyError]. *)
Definition quiet {S A} (m : M S A) : Prop :=
  ∀ s, fst (m s) ≠ Raise KeyError.

(** The external code raises no [KeyError] of its own. *)
Class Quiet (G D State Action : Type) `{Rng G}
    `{environment.Domain D State Action} : Prop := {
  quiet_choice01 : ∀ p0 p1, quiet (choice01 p0 p1);
  quiet_choice_index : ∀ n, quiet (choice_index n);
  quiet_uniform : quiet uniform;
  quiet_initial : quiet environment.produce_initial_state;
  quiet_child : ∀ action, quiet (environment.generate_child_state action);
  quiet_terminal : quiet environment.is_current_state_terminal;
  quiet_visualise : quiet environment.visualise
}.

Section contract.
Context {D State Action : Type} `{environment.Domain D State Action}.

(** [d] is the state of the domain right after it has handed out a state
    with the legal actions [actions]. *)
Definition offered (d : D) (actions : list Action) : Prop :=
  (∃ d0 state, environment.produce_initial_state d0 = (Ok (state, actions), d))
  ∨
  (∃ d0 action state reward,
     environment.generate_child_state action d0
     = (Ok (state, actions, reward), d)).

(** The contract of the Domain: a state it reports as not terminal comes
    with at least one legal action. *)
Class DomainContract : Prop := {
  offers_an_action : ∀ d d' actions,
    offered d actions →
    environment.is_current_state_terminal d = (Ok false, d') →
    actions ≠ []
}.

End contract.
Arguments DomainContract D State Action {_}.

Section invariants.
Context `{Countable State} `{Countable Action} {G D : Type}.

(** The two tables of each learner have the same keys. *)
Definition tables_agree (f : acm.ACM.frame State Action G D) : Prop :=
  dom (acm.TableBasedActor.eligibilities (acm.ACM.actor f))
  = dom (acm.TableBasedActor.policy (acm.ACM.actor f)) ∧
  match acm.ACM.critic f with
  | acm.TableCritic c =>
      dom (acm.TableBasedCritic.eligibilities c)
      = dom (acm.TableBasedCritic.state_values c)
  | acm.NNCritic => True
  end.

(** What the loop keeps: the tables agree and every listed action has a
    preference. *)
Definition frame_inv (f : acm.ACM.frame State Action G D) : Prop :=
  tables_agree f ∧ actor_wf (acm.ACM.actor f).

(** A proposal for a state with the legal actions [actions]: one of them,
    or [None] when there is none. *)
Definition proposal_of (actions : list Action) (action : option Action)
    : Prop :=
  (action = None ∧ actions = []) ∨ (∃ a, action = Some a ∧ a ∈ actions).

(** The pair [(state, action)] and its state are registered. *)
Definition registered (f : acm.ACM.frame State Action G D)
    (entry : State * option Action) : Prop :=
  entry ∈ dom (acm.TableBasedActor.policy (acm.ACM.actor f)) ∧
  match acm.ACM.critic f with
  | acm.TableCritic c => entry.1 ∈ dom (acm.TableBasedCritic.state_values c)
  | acm.NNCritic => False
  end.

End invariants.

(** Any exception but [KeyError]. *)
Definition not_KeyError (e : exn) : Prop := e ≠ KeyError.

(** What is known of a frame at a point of the loop: its invariant, pairs
    and states that are registered, lists of actions that are current, and
    the state of the domain. *)
Definition knows `{Countable State} `{Countable Action} {G D : Type}
    (KP : gset (State * option Action)) (KV : gset State)
    (SA : gmap State (list Action)) (d : D)
    (f : acm.ACM.frame State Action G D) : Prop :=
  frame_inv f ∧
  KP ⊆ dom (acm.TableBasedActor.policy (acm.ACM.actor f)) ∧
  match acm.ACM.critic f with
  | acm.TableCritic c => KV ⊆ dom (acm.TableBasedCritic.state_values c)
  | acm.NNCritic => True
  end ∧
  SA ⊆ acm.TableBasedActor.state_actions (acm.ACM.actor f) ∧
  acm.ACM.domain f = d.

(** What holds whenever the [while] loop tests its condition: the current
    state is registered, its legal actions are those the domain has just
    handed out, the current action is a proposal for them, and every entry
    of the history is registered. *)
Definition loop_inv `{Countable State} `{Countable Action} {G D : Type}
    `{environment.Domain D State Action}
    (current_state : State) (current_action : option Action)
    (episode : list (State * option Action))
    (f : acm.ACM.frame State Action G D) : Prop :=
  ∃ KP KV actions d,
    (offered d actions ∧ proposal_of actions current_action ∧
     current_state ∈ KV ∧
     ∀ entry, entry ∈ episode → entry ∈ KP ∧ entry.1 ∈ KV) ∧
    knows KP KV {[current_state := actions]} d f.

(** ** Learners as their methods build them

    [actor_built S K a]: the actor [a] results from a fresh one by calls of
    its methods and by assignments of 1 to traces of registered pairs; [S]
    are the states and [K] the pairs that have passed through [add_state].
    [critic_built S c] is the same for the critic; a call of its
    [add_state] that raises (in the draw) registers nothing. *)

Section built.
Context `{Countable State} `{Countable Action} {G : Type} {R : Rng G}.

Inductive actor_built
    : gset State → gset (State * option Action) →
      acm.TableBasedActor.t State Action → Prop :=
  | actor_built_init : actor_built ∅ ∅ acm.TableBasedActor.init
  | actor_built_add_state S K a (g : G) state actions :
      actor_built S K a →
      actor_built ({[state]} ∪ S) (list_to_set (pair_keys state actions) ∪ K)
        (self (after (acm.TableBasedActor.add_state state actions)
                 (Proc g a)))
  | actor_built_reset S K a (g : G) :
      actor_built S K a →
      actor_built S K
        (self (after acm.TableBasedActor.reset_eligibilities (Proc g a)))
  | actor_built_update_policy S K a (g : G) state action learning_rate td_error :
      actor_built S K a →
      actor_built S K
        (self (after (acm.TableBasedActor.update_policy state action
                        learning_rate td_error) (Proc g a)))
  | actor_built_update_eligibilities S K a (g : G) state action discount_rate
      decay_factor :
      actor_built S K a →
      actor_built S K
        (self (after (acm.TableBasedActor.update_eligibilities state action
                        discount_rate decay_factor) (Proc g a)))
  | actor_built_mark S K a entry :
      actor_built S K a → entry ∈ K →
      actor_built S K (acm.TableBasedActor.set_eligibility entry 1 a).

Inductive critic_built
    : gset State → acm.TableBasedCritic.t State → Prop :=
  | critic_built_init : critic_built ∅ acm.TableBasedCritic.init
  | critic_built_add_state S c (g : G) state :
      critic_built S c →
      fst (acm.TableBasedCritic.add_state state (Proc g c)) = Ok tt →
      critic_built ({[state]} ∪ S)
        (self (after (acm.TableBasedCritic.add_state state) (Proc g c)))
  | critic_built_add_state_raised S c (g : G) state e :
      critic_built S c →
      fst (acm.TableBasedCritic.add_state state (Proc g c)) = Raise e →
      critic_built S
        (self (after (acm.TableBasedCritic.add_state state) (Proc g c)))
  | critic_built_reset S c (g : G) :
      critic_built S c →
      critic_built S
        (self (after acm.TableBasedCritic.reset_eligibilities (Proc g c)))
  | critic_built_update_value_function S c (g : G) state learning_rate td_error :
      critic_built S c →
      critic_built S
        (self (after (acm.TableBasedCritic.update_value_function state
                        learning_rate td_error) (Proc g c)))
  | critic_built_update_eligibilities S c (g : G) state discount_rate decay_factor :
      critic_built S c →
      critic_built S
        (self (after (acm.TableBasedCritic.update_eligibilities state
                        discount_rate decay_factor) (Proc g c)))
  | critic_built_mark S c state :
      critic_built S c → state ∈ S →
      critic_built S (acm.TableBasedCritic.set_eligibility state 1 c).

(** The draws of a proposal go well: the exploration draw returns, and when
    it says "explore" the index drawn lies in the list. *)
Definition draws_go_well (epsilon : Q) (actions : list Action) (g : G)
    : Prop :=
  ∃ explore g1,
    choice01 (1 - epsilon)%Q epsilon g = (Ok explore, g1) ∧
    (explore = true →
     ∃ i g2, choice_index (length actions) g1 = (Ok i, g2) ∧
             i < length actions).

End built.

(** ** [ACM.__init__(self, config)]

    The constructor of [rl/acm.py], and word for word that of [rl/core.py]:
    twelve assignments [self.<attribute> = config[<key>]], in this order.
    It stores what the mapping holds, whatever its type ([V]). *)

Module construction.
Section construction.
Context {V : Type}.

Record attributes : Type := Attributes {
  max_episodes : V;
  steps : V;
  critic_type : V;
  critic_nn_dims : V;
  actor_lr : V;
  critic_lr : V;
  decay_factor : V;
  discount_rate : V;
  epsilon : V;
  epsilon_decay : V;
  visualise : V;
  verbose : V
}.

Definition __init__ (config : gmap string V) : M unit attributes :=
  self_max_episodes ← getitem config "episodes";
  self_steps ← getitem config "steps";
  self_critic_type ← getitem config "critic_type";
  self_critic_nn_dims ← getitem config "critic_nn_dims";
  self_actor_lr ← getitem config "actor_lr";
  self_critic_lr ← getitem config "critic_lr";
  self_decay_factor ← getitem config "decay";
  self_discount_rate ← getitem config "discount";
  self_epsilon ← getitem config "epsilon";
  self_epsilon_decay ← getitem config "epsilon_decay";
  self_visualise ← getitem config "visualise";
  self_verbose ← getitem config "verbose";
  mret (Attributes self_max_episodes self_steps self_critic_type
          self_critic_nn_dims self_actor_lr self_critic_lr self_decay_factor
          self_discount_rate self_epsilon self_epsilon_decay self_visualise
          self_verbose).

(** [ACM(config)]: the object, or the exception of the constructor. *)
Definition new (config : gmap string V) : result attributes :=
  fst (__init__ config tt).

(** The keys the constructor reads. *)
Definition keys : list string :=
  ["episodes"; "steps"; "critic_type"; "critic_nn_dims"; "actor_lr";
   "critic_lr"; "decay"; "discount"; "epsilon"; "epsilon_decay";
   "visualise"; "verbose"].

End construction.
Arguments attributes V : clear implicits.
End construction.

(** ** The actor of [rl/actor.py] against the actor of [rl/acm.py] *)

Section two_actors.
Context `{Countable Action} {G : Type}.

(** The three tables of an actor of [rl/actor.py], as an actor of
    [rl/acm.py] whose states are the hashes. *)
Definition actor_tables (a : actor.TableBasedActor.t Action)
    : acm.TableBasedActor.t Z Action :=
  acm.TableBasedActor.mk (actor.TableBasedActor.policy a)
    (actor.TableBasedActor.eligibilities a)
    (actor.TableBasedActor.state_actions a).

Definition with_rates (learning_rate epsilon : Q)
    (a : acm.TableBasedActor.t Z Action) : actor.TableBasedActor.t Action :=
  actor.TableBasedActor.mk (acm.TableBasedActor.policy a)
    (acm.TableBasedActor.eligibilities a)
    (acm.TableBasedActor.state_actions a) learning_rate epsilon.

(** A method of the actor of [rl/acm.py] run on the tables of an actor of
    [rl/actor.py], whose two rates it does not touch. *)
Definition on_tables {A} (m : M (proc G (acm.TableBasedActor.t Z Action)) A)
    : M (proc G (actor.TableBasedActor.t Action)) A :=
  λ p,
    match m (Proc (rng p) (actor_tables (self p))) with
    | (r, q) =>
        (r, Proc (rng q)
              (with_rates (actor.TableBasedActor.learning_rate (self p))
                 (actor.TableBasedActor.epsilon (self p)) (self q)))
    end.

(** [m] does, on every actor with the rates [learning_rate] and [epsilon],
    what [m'] does on its tables. *)
Definition mirrors {A} (learning_rate epsilon : Q)
    (m : M (proc G (actor.TableBasedActor.t Action)) A)
    (m' : M (proc G (acm.TableBasedActor.t Z Action)) A) : Prop :=
  ∀ p, actor.TableBasedActor.learning_rate (self p) = learning_rate →
       actor.TableBasedActor.epsilon (self p) = epsilon →
       m p = on_tables m' p.

End two_actors.

(** A mapping with the twelve keys, each bound to the length of its name. *)
Definition demo_mapping : gmap string nat :=
  list_to_map ((λ k, (k, String.length k)) <$> construction.keys).

(** A frame of the two-state task at the start of a first step: ["S0"] is
    registered with both learners, and the domain is at its initial
    state. *)
Definition demo_first_frame : acm.ACM.frame string string nat bool :=
  acm.ACM.Frame (demo.config 1 1 0)
    (self (after (acm.TableBasedActor.add_state "S0" ["left"; "right"])
             demo_actor))
    (acm.TableCritic
       (self (after (acm.TableBasedCritic.add_state "S0") demo_critic)))
    false 1%nat [].

(** ** Invariants of a run of [fit], object by object *)

Section handed_out.
Context {D State Action : Type} `{environment.Domain D State Action}.

(** The domain can hand out [state] with the legal actions [actions]: as an
    initial state or as a successor. *)
Definition handed (state : State) (actions : list Action) : Prop :=
  (∃ d d', environment.produce_initial_state d = (Ok (state, actions), d'))
  ∨
  (∃ action d d' reward,
     environment.generate_child_state action d
     = (Ok (state, actions, reward), d')).

Definition handed_state (state : State) : Prop :=
  ∃ actions, handed state actions.

End handed_out.

Section frame_properties.
Context `{Countable State} `{Countable Action} {G D : Type}.

(** A property of frames given by one of [self], one of the actor, one of
    the table-based critic, and one of the list of step counts after [k]
    episodes. *)
Definition frame_holds (PT : acm.ACM.t → Prop)
    (PA : acm.TableBasedActor.t State Action → Prop)
    (PC : acm.TableBasedCritic.t State → Prop)
    (PL : nat → list nat → Prop) (k : nat)
    (f : acm.ACM.frame State Action G D) : Prop :=
  PT (acm.ACM.this f) ∧ PA (acm.ACM.actor f) ∧
  match acm.ACM.critic f with
  | acm.TableCritic c => PC c
  | acm.NNCritic => True
  end ∧
  PL k (acm.ACM.steps_per_episode f).

(** The same in a frame whose [self] is [t]. *)
Definition frame_at PT PA PC PL (k : nat) (t : acm.ACM.t)
    (f : acm.ACM.frame State Action G D) : Prop :=
  acm.ACM.this f = t ∧ frame_holds PT PA PC PL k f.

(** The property holds for some number of episodes between [lo] and [hi]. *)
Definition frame_within PT PA PC PL (lo hi : nat)
    (f : acm.ACM.frame State Action G D) : Prop :=
  ∃ k, lo ≤ k ≤ hi ∧ frame_holds PT PA PC PL k f.

End frame_properties.

(** Any exception. *)
Definition any_exn (e : exn) : Prop := True.

(** Every trace of a table lies between 0 and 1. *)
Definition unit_traces `{Countable K} (traces : gmap K Q) : Prop :=
  map_Forall (λ _ e, (0 <= e)%Q ∧ (e <= 1)%Q) traces.

(** ** Properties of every statement of a sequence *)

(** Every statement the sequence can come to run satisfies [P]. *)
Fixpoint all_stmts {S A} (P : ∀ B, M S B → Prop) (p : prog S A) : Prop :=
  match p with
  | Ret _ => True
  | Do m k => P _ m ∧ ∀ b, all_stmts P (k b)
  end.

(** The statement [m] does not look at what [h] changes: run from [h s] it
    ends as from [s], in the state [h] makes of the one it leaves. *)
Definition blind_to {S B} (h : S → S) (m : M S B) : Prop :=
  ∀ s, m (h s) = (fst (m s), h (snd (m s))).

(** The statement [m] takes every state to one that [R] relates to it. *)
Definition moves_along {S B} (R : S → S → Prop) (m : M S B) : Prop :=
  ∀ s, R s (snd (m s)).

(** ** The options [fit] does not read *)

(** [self] with [critic_nn_dims], [visualise] and [verbose] blanked. *)
Definition without_flags (t : acm.ACM.t) : acm.ACM.t :=
  acm.ACM.mk (acm.ACM.max_episodes t) (acm.ACM.steps t)
    (acm.ACM.critic_type t) [] (acm.ACM.actor_lr t) (acm.ACM.critic_lr t)
    (acm.ACM.decay_factor t) (acm.ACM.discount_rate t) (acm.ACM.epsilon t)
    (acm.ACM.epsilon_decay t) false false.

Definition forget_flags `{Countable State} `{Countable Action} {G D : Type}
    (f : acm.ACM.frame State Action G D) : acm.ACM.frame State Action G D :=
  acm.ACM.Frame (without_flags (acm.ACM.this f)) (acm.ACM.actor f)
    (acm.ACM.critic f) (acm.ACM.domain f) (acm.ACM.gen f)
    (acm.ACM.steps_per_episode f).

(** ** What a run never takes back *)

(** No key has left a table of the actor, or of the critic. *)
Definition actor_grows `{Countable State} `{Countable Action}
    (a a' : acm.TableBasedActor.t State Action) : Prop :=
  dom (acm.TableBasedActor.policy a) ⊆ dom (acm.TableBasedActor.policy a') ∧
  dom (acm.TableBasedActor.eligibilities a)
  ⊆ dom (acm.TableBasedActor.eligibilities a') ∧
  dom (acm.TableBasedActor.state_actions a)
  ⊆ dom (acm.TableBasedActor.state_actions a').

Definition critic_grows `{Countable State}
    (c c' : acm.TableBasedCritic.t State) : Prop :=
  dom (acm.TableBasedCritic.state_values c)
  ⊆ dom (acm.TableBasedCritic.state_values c') ∧
  dom (acm.TableBasedCritic.eligibilities c)
  ⊆ dom (acm.TableBasedCritic.eligibilities c').

(** From [f] to [f']: no key has left a table, the critic is of the same
    class, the list of step counts has only been appended to, and [self]
    differs in [epsilon] at most. *)
Definition grows `{Countable State} `{Countable Action} {G D : Type}
    (f f' : acm.ACM.frame State Action G D) : Prop :=
  actor_grows (acm.ACM.actor f) (acm.ACM.actor f') ∧
  match acm.ACM.critic f, acm.ACM.critic f' with
  | acm.TableCritic c, acm.TableCritic c' => critic_grows c c'
  | acm.NNCritic, acm.NNCritic => True
  | _, _ => False
  end ∧
  acm.ACM.steps_per_episode f `prefix_of` acm.ACM.steps_per_episode f' ∧
  acm.ACM.set_epsilon (acm.ACM.epsilon (acm.ACM.this f)) (acm.ACM.this f')
  = acm.ACM.this f.

(** ** What a run can raise *)

(** The statement [m] raises, from a state [s], only what [E s] allows. *)
Definition raises_within {S B} (E : S → exn → Prop) (m : M S B) : Prop :=
  ∀ s e, fst (m s) = Raise e → E s e.

(** An exception that a draw of numpy or a method of the domain raises. *)
Definition raised_outside {G D State Action : Type} `{Rng G}
    `{environment.Domain D State Action} (e : exn) : Prop :=
  (∃ p0 p1 (g : G), fst (choice01 p0 p1 g) = Raise e) ∨
  (∃ n (g : G), fst (choice_index n g) = Raise e) ∨
  (∃ g : G, fst (uniform g) = Raise e) ∨
  (∃ d : D, fst (environment.produce_initial_state d) = Raise e) ∨
  (∃ action (d : D),
     fst (environment.generate_child_state action d) = Raise e) ∨
  (∃ d : D, fst (environment.is_current_state_terminal d) = Raise e) ∨
  (∃ d : D, fst (environment.visualise d) = Raise e).

(** What a statement of [fit] may raise in the frame [f]. *)
Definition fit_may_raise `{Countable State} `{Countable Action} {G D : Type}
    `{Rng G} `{environment.Domain D State Action}
    (f : acm.ACM.frame State Action G D) (e : exn) : Prop :=
  e = KeyError ∨
  (e = AttributeError ∧ acm.ACM.critic f = acm.NNCritic) ∨
  raised_outside (G := G) (D := D) (State := State) (Action := Action) e.

(** ** The iterations of the [while] loop, in the words of the
    specification

    [iterations k episode visited cs ca f]: [k] iterations from the head
    of the loop, where the current pair is [(cs, ca)] and the frame [f].
    An iteration finds the task not ended, runs the statements before the
    sweep, and sweeps the history recorded so far: [episode], which the
    loop began with, then [visited], the pairs that were current in the
    iterations before it, oldest first, then its own pair.  The value is
    the pairs visited, and the current pair and the frame at the head of
    the loop after the last iteration; there is none when an iteration
    finds the task ended or raises. *)

Section iterations.
Context `{Countable State} `{Countable Action} {G : Type} {R : Rng G}.
Context {D : Type} {Dom : environment.Domain D State Action}.

Fixpoint iterations (k : nat) (episode visited : list (State * option Action))
    (cs : State) (ca : option Action) (f : acm.ACM.frame State Action G D)
    : option (list (State * option Action) * State * option Action
              * acm.ACM.frame State Action G D) :=
  match k with
  | O => Some (visited, cs, ca, f)
  | S k' =>
      match run (acm.ACM.call_domain environment.is_current_state_terminal) f
      with
      | (Ok false, f0) =>
          match run (before_sweep cs ca) f0 with
          | (Ok r, f1) =>
              match run (for_each (episode ++ visited ++ [(cs, ca)])
                           (acm.ACM.credit r.2)) f1 with
              | (Ok _, f2) =>
                  iterations k' episode (visited ++ [(cs, ca)]) r.1.1 r.1.2 f2
              | (Raise _, _) => None
              end
          | (Raise _, _) => None
          end
      | _ => None
      end
  end.

End iterations.

(** A run on the task that goes back and forth: the frame when the first
    iteration of the loop begins, the frame when the third begins, and
    what the statements before the sweep of the third yield. *)
Definition shuttle_start : acm.ACM.frame string string nat bool :=
  snd (run (acm.ACM.episode_init (Dom := demo.shuttle))
         (acm.ACM.enter (demo.config 1 3 0) false 0%nat)).

Definition shuttle_third : acm.ACM.frame string string nat bool :=
  snd (run (acm.ACM.while_loop (Dom := demo.shuttle) 2 0 "A" (Some "go") [])
         shuttle_start).

Definition shuttle_before_sweep
    : result (string * option string * Q)
      * acm.ACM.frame string string nat bool :=
  run (before_sweep (Dom := demo.shuttle) "A" (Some "go")) shuttle_third.

Definition shuttle_td_error : Q :=
  match fst shuttle_before_sweep with
  | Ok r => r.2
  | Raise _ => 0
  end.

Definition shuttle_swept : acm.ACM.frame string string nat bool :=
  snd shuttle_before_sweep.


(** The actor that a run of one step on the task without actions leaves. *)
Definition bare_actor : acm.TableBasedActor.t string string :=
  acm.ACM.actor
    (snd (acm.ACM.fit (Dom := demo.bare) (demo.config 1 1 0) tt 0%nat)).

(** * Properties *)

(** ** Running statement sequences *)

Section running.
Context {S : Type}.

Lemma run_ret {A} (a : A) (s : S) : run (mret a) s = (Ok a, s).
Proof. reflexivity. Qed.

Lemma run_stmt {A} (m : M S A) (s : S) : run (stmt m) s = m s.
Proof. simpl. destruct (m s) as [[a | e] s']; reflexivity. Qed.

Lemma trace_stmt {A} (m : M S A) (s : S) : trace (stmt m) s = [snd (m s)].
Proof. simpl. destruct (m s) as [[a | e] s']; reflexivity. Qed.

Lemma run_bind {A B} (p : prog S A) (k : A → prog S B) (s : S) :
  run (p ≫= k) s =
  match run p s with
  | (Ok a, s') => run (k a) s'
  | (Raise e, s') => (Raise e, s')
  end.
Proof.
  revert s. induction p as [a | C m k' IH]; intros s; [reflexivity |].
  change (run (Do m (λ b, k' b ≫= k)) s =
          match run (Do m k') s with
          | (Ok a, s') => run (k a) s'
          | (Raise e, s') => (Raise e, s')
          end).
  simpl. destruct (m s) as [[c | e] s']; [apply IH | reflexivity].
Qed.

Lemma trace_bind {A B} (p : prog S A) (k : A → prog S B) (s : S) :
  trace (p ≫= k) s =
  trace p s ++
  match run p s with
  | (Ok a, s') => trace (k a) s'
  | (Raise _, _) => []
  end.
Proof.
  revert s. induction p as [a | C m k' IH]; intros s; [reflexivity |].
  change (trace (Do m (λ b, k' b ≫= k)) s =
          trace (Do m k') s ++
          match run (Do m k') s with
          | (Ok a, s') => trace (k a) s'
          | (Raise _, _) => []
          end).
  simpl. destruct (m s) as [[c | e] s']; [| reflexivity].
  simpl. f_equal. apply IH.
Qed.

Lemma run_for_each_snoc {A} (l : list A) (x : A) (body : A → prog S unit)
    (s : S) :
  run (for_each (l ++ [x]) body) s =
  match run (for_each l body) s with
  | (Ok _, s') => run (body x) s'
  | (Raise e, s') => (Raise e, s')
  end.
Proof.
  revert s. induction l as [| y l IH]; intros s; simpl.
  - rewrite run_bind. destruct (run (body x) s) as [[[] | e] s']; reflexivity.
  - rewrite !run_bind. destruct (run (body y) s) as [[[] | e] s']; [| reflexivity].
    apply IH.
Qed.

Lemma triple_ret {A} I (P : S → Prop) (a : A) (Q : A → S → Prop) E :
  (∀ s, P s → Q a s) → triple I P (mret a) Q E.
Proof. intros HQ s Hs. split; [constructor | apply HQ, Hs]. Qed.

Lemma triple_stmt {A} I (P : S → Prop) (m : M S A) (Q : A → S → Prop) E :
  (∀ s, P s →
     I (snd (m s)) ∧
     match m s with
     | (Ok a, s') => Q a s'
     | (Raise e, _) => E e
     end) →
  triple I P (stmt m) Q E.
Proof.
  intros Hm s Hs. destruct (Hm s Hs) as [HI HQ].
  rewrite trace_stmt, run_stmt. split; [repeat constructor; exact HI | exact HQ].
Qed.

Lemma triple_bind {A B} I (P : S → Prop) (p : prog S A) (k : A → prog S B)
    (Q1 : A → S → Prop) (Q : B → S → Prop) E :
  triple I P p Q1 E →
  (∀ a, triple I (Q1 a) (k a) Q E) →
  triple I P (p ≫= k) Q E.
Proof.
  intros Hp Hk s Hs. destruct (Hp s Hs) as [HI HQ].
  rewrite trace_bind, run_bind.
  destruct (run p s) as [[a | e] s'].
  - destruct (Hk a s' HQ) as [HI' HQ']. split; [| exact HQ'].
    apply Forall_app; split; assumption.
  - split; [| exact HQ]. rewrite app_nil_r. exact HI.
Qed.

Lemma triple_weaken {A} I (P P' : S → Prop) (p : prog S A)
    (Q Q' : A → S → Prop) E :
  triple I P' p Q' E →
  (∀ s, P s → P' s) →
  (∀ a s, Q' a s → Q a s) →
  triple I P p Q E.
Proof.
  intros Hp HP HQ s Hs. destruct (Hp s (HP s Hs)) as [HI HR].
  split; [exact HI |].
  destruct (run p s) as [[a | e] s']; [apply HQ, HR | exact HR].
Qed.

Lemma triple_for_each {A} I (P : S → Prop) (l : list A)
    (body : A → prog S unit) E :
  (∀ x, x ∈ l → triple I P (body x) (λ _, P) E) →
  triple I P (for_each l body) (λ _, P) E.
Proof.
  induction l as [| x l IH]; intros Hbody.
  - apply triple_ret. auto.
  - simpl. apply triple_bind with (Q1 := λ _, P).
    + apply Hbody. left.
    + intros u. apply IH. intros y Hy. apply Hbody. right. exact Hy.
Qed.

End running.

(** Unfolds the monad of methods down to pairs of a result and a state. *)
Ltac method_unfold :=
  unfold mbind, M_bind, mret, M_ret, gets_self, modify_self, gets, modify,
    raise, when, draw; cbn [rng self fst snd].

Ltac method_steps :=
  unfold mbind, M_bind, mret, M_ret, gets_self, modify_self, gets, modify,
    raise, when, draw; simpl.

Lemma bind_run {S A B} (m : M S A) (k : A → M S B) (s : S) :
  (m ≫= k) s =
  match m s with
  | (Ok a, s') => k a s'
  | (Raise e, s') => (Raise e, s')
  end.
Proof. reflexivity. Qed.

Lemma getitem_Some `{Countable K} {S V} (d : gmap K V) (k : K) (v : V) (s : S) :
  d !! k = Some v → getitem d k s = (Ok v, s).
Proof. intros Hk. unfold getitem. rewrite Hk. reflexivity. Qed.

Lemma getitem_None `{Countable K} {S V} (d : gmap K V) (k : K) (s : S) :
  d !! k = None → getitem (V := V) d k s = (Raise KeyError, s).
Proof. intros Hk. unfold getitem. rewrite Hk. reflexivity. Qed.

Lemma not_in_true `{Countable K} {V} (k : K) (d : gmap K V) :
  not_in k d = true ↔ d !! k = None.
Proof. unfold not_in. destruct (d !! k); split; congruence. Qed.

Lemma not_in_false `{Countable K} {V} (k : K) (d : gmap K V) :
  not_in k d = false ↔ is_Some (d !! k).
Proof.
  unfold not_in. destruct (d !! k) as [v |]; split; try congruence; eauto.
  intros [v Hv]. discriminate.
Qed.

(** ** The generator of the examples obeys the laws assumed of numpy *)

#[global] Instance counter_rng_laws : RngLaws nat.
Proof.
  split.
  - intros p0 p1 g H0 H1. exists (S g). simpl.
    assert (Hp0 : Qle_bool 0 p0 = true) by (apply Qle_bool_iff; lra).
    assert (Hp1 : Qle_bool 0 p1 = true) by (apply Qle_bool_iff; lra).
    assert (Hsum : Qeq_bool (p0 + p1) 1 = true) by (apply Qeq_bool_iff; lra).
    rewrite Hp0, Hp1, Hsum. simpl.
    assert (Hu : (demo.u_of g < 1)%Q).
    { unfold demo.u_of, Qlt. simpl.
      pose proof (Nat.mod_upper_bound g 4). lia. }
    destruct (Qle_bool p0 (demo.u_of g)) eqn:Hle; [| reflexivity].
    apply Qle_bool_iff in Hle. lra.
  - intros n i g g' Hdraw. destruct n as [| n]; [discriminate |].
    assert (Hi : i = g mod S n).
    { unfold choice_index, demo.counter_rng in Hdraw. congruence. }
    rewrite Hi. apply Nat.mod_upper_bound. lia.
  - intros g. exists (demo.u_of g), (S g). split; [reflexivity |].
    unfold demo.u_of, Qle, Qlt. simpl.
    pose proof (Nat.mod_upper_bound g 4). lia.
Qed.

(** ** The critic *)

Section critic_facts.
Context `{Countable State} {G : Type} {R : Rng G}.
Import acm.TableBasedCritic.

(** C1.  For registered states with values [v1] (current) and [v2]
    (successor), [compute_td_error] returns exactly
    [reinforcement + discount_rate * v2 - v1], and the state it leaves is the
    state it was called in: neither table (nor the generator) changes. *)
Theorem compute_td_error_formula (p : proc G (t State))
    (current_state successor_state : State)
    (reinforcement discount_rate v1 v2 : Q) :
  state_values (self p) !! current_state = Some v1 →
  state_values (self p) !! successor_state = Some v2 →
  compute_td_error current_state successor_state reinforcement discount_rate p
  = (Ok (reinforcement + discount_rate * v2 - v1)%Q, p).
Proof.
  intros Hcur Hsucc. unfold compute_td_error. method_steps.
  rewrite (getitem_Some _ _ _ _ Hsucc), (getitem_Some _ _ _ _ Hcur).
  reflexivity.
Qed.

End critic_facts.

Lemma compute_td_error_formula_witness :
  acm.TableBasedCritic.state_values (self demo.critic_ab) !! "a"
  = Some (1 # 2)%Q ∧
  acm.TableBasedCritic.state_values (self demo.critic_ab) !! "b"
  = Some (1 # 4)%Q ∧
  acm.TableBasedCritic.compute_td_error "a" "b" 1 (9 # 10) demo.critic_ab
  = (Ok (1 + (9 # 10) * (1 # 4) - (1 # 2))%Q, demo.critic_ab).
Proof.
  split; [reflexivity | split; [reflexivity |]].
  apply (compute_td_error_formula demo.critic_ab "a" "b" 1 (9 # 10)
           (1 # 2) (1 # 4)); reflexivity.
Defined.

(** ** Registration of states *)

Lemma setdefault_lookup `{Countable K} {V} (k k' : K) (v : V) (d : gmap K V) :
  setdefault k v d !! k' =
  match d !! k' with
  | Some x => Some x
  | None => if bool_decide (k' = k) then Some v else None
  end.
Proof.
  unfold setdefault. destruct (d !! k) as [x |] eqn:Hk.
  - destruct (d !! k') as [x' |] eqn:Hk'; [reflexivity |].
    case_bool_decide; [congruence | reflexivity].
  - rewrite lookup_insert. case_decide as Hkk'.
    + subst k'. rewrite Hk. rewrite bool_decide_eq_true_2; reflexivity.
    + destruct (d !! k'); [reflexivity |].
      rewrite bool_decide_eq_false_2; [reflexivity | congruence].
Qed.

Lemma registered_cons `{Countable K} (k0 k : K) (l : list K) (d : gmap K Q) :
  match setdefault k0 0%Q d !! k with
  | Some v => Some v
  | None => if bool_decide (k ∈ l) then Some 0%Q else None
  end =
  match d !! k with
  | Some v => Some v
  | None => if bool_decide (k ∈ k0 :: l) then Some 0%Q else None
  end.
Proof.
  rewrite setdefault_lookup. destruct (d !! k); [reflexivity |].
  rewrite (bool_decide_ext (k ∈ k0 :: l) (k = k0 ∨ k ∈ l))
    by apply elem_of_cons.
  repeat case_bool_decide; try reflexivity; exfalso; tauto.
Qed.

Section actor_registration.
Context `{Countable State} `{Countable Action} {G : Type} {R : Rng G}.
Import acm.TableBasedActor.

Lemma add_action_run (state : State) (action : Action) (p : proc G (t State Action)) :
  add_action state action p =
  (Ok tt,
   Proc (rng p)
     (mk (setdefault (state, Some action) 0%Q (policy (self p)))
         (setdefault (state, Some action) 0%Q (eligibilities (self p)))
         (state_actions (self p)))).
Proof.
  destruct p as [g [P E SA]]. unfold add_action. method_steps.
  unfold not_in, setdefault.
  destruct (P !! (state, Some action)); simpl;
    destruct (E !! (state, Some action)); reflexivity.
Qed.

Lemma for_each_add_action (state : State) (actions : list Action)
    (p : proc G (t State Action)) :
  ∃ P' E',
    for_each actions (add_action state) p =
      (Ok tt, Proc (rng p) (mk P' E' (state_actions (self p)))) ∧
    (∀ k, P' !! k =
          match policy (self p) !! k with
          | Some v => Some v
          | None => if bool_decide (k ∈ pair_keys state actions)
                    then Some 0%Q else None
          end) ∧
    (∀ k, E' !! k =
          match eligibilities (self p) !! k with
          | Some v => Some v
          | None => if bool_decide (k ∈ pair_keys state actions)
                    then Some 0%Q else None
          end).
Proof.
  revert p. induction actions as [| a l IH]; intros p.
  - exists (policy (self p)), (eligibilities (self p)).
    destruct p as [g [P E SA]]. split; [reflexivity |].
    split; intros k; simpl; destruct (_ !! k); try reflexivity;
      rewrite bool_decide_eq_false_2; try reflexivity; apply not_elem_of_nil.
  - simpl. unfold mbind at 1, M_bind at 1. rewrite add_action_run.
    destruct (IH (Proc (rng p)
        (mk (setdefault (state, Some a) 0%Q (policy (self p)))
            (setdefault (state, Some a) 0%Q (eligibilities (self p)))
            (state_actions (self p))))) as (P' & E' & Hrun & HP & HE).
    exists P', E'. split; [exact Hrun |].
    change (pair_keys state (a :: l))
      with ((state, Some a) :: pair_keys state l).
    split; intros k; [rewrite HP | rewrite HE]; apply registered_cons.
Qed.

Lemma add_state_run (state : State) (actions : list Action)
    (p : proc G (t State Action)) :
  ∃ P' E',
    add_state state actions p =
      (Ok tt,
       Proc (rng p)
         (mk P' E' (<[state := actions]> (state_actions (self p))))) ∧
    (∀ k, P' !! k =
          match policy (self p) !! k with
          | Some v => Some v
          | None => if bool_decide (k ∈ pair_keys state actions)
                    then Some 0%Q else None
          end) ∧
    (∀ k, E' !! k =
          match eligibilities (self p) !! k with
          | Some v => Some v
          | None => if bool_decide (k ∈ pair_keys state actions)
                    then Some 0%Q else None
          end).
Proof.
  unfold add_state. unfold mbind, M_bind.
  unfold modify_self at 1, modify at 1.
  destruct (for_each_add_action state actions
              (Proc (rng p) (set_actions state actions (self p))))
    as (P' & E' & Hrun & HP & HE).
  exists P', E'. split; [exact Hrun | split; assumption].
Qed.

End actor_registration.

Section registration.
Context `{Countable State} `{Countable Action} {G : Type} {R : Rng G}.

Lemma critic_add_state_run (state : State) (u : Q) (g' : G)
    (p : proc G (acm.TableBasedCritic.t State)) :
  uniform (rng p) = (Ok u, g') →
  acm.TableBasedCritic.add_state state p =
  (Ok tt,
   Proc (match acm.TableBasedCritic.state_values (self p) !! state with
         | Some _ => rng p
         | None => g'
         end)
     (acm.TableBasedCritic.mk
        (setdefault state u (acm.TableBasedCritic.state_values (self p)))
        (setdefault state 0%Q (acm.TableBasedCritic.eligibilities (self p))))).
Proof.
  intros Hu. destruct p as [g [V E]]. simpl in Hu.
  unfold acm.TableBasedCritic.add_state. method_steps.
  unfold not_in, setdefault.
  destruct (V !! state); simpl; [| rewrite Hu; simpl];
    destruct (E !! state); reflexivity.
Qed.

(** C4.  [add_state] is idempotent for the actor and for the critic: it
    returns normally, every entry present before the call is unchanged after
    it, a key it looks at that was absent gets preference 0 and trace 0
    (actor) or a value of [[0,1)] and trace 0 (critic), no other key
    appears, and a second call with the same arguments changes nothing. *)
Theorem add_state_idempotent `{!RngLaws G} :
  (∀ (p : proc G (acm.TableBasedActor.t State Action)) (state : State)
     (actions : list Action),
     let p1 := after (acm.TableBasedActor.add_state state actions) p in
     acm.TableBasedActor.add_state state actions p = (Ok tt, p1) ∧
     (∀ k v, acm.TableBasedActor.policy (self p) !! k = Some v →
             acm.TableBasedActor.policy (self p1) !! k = Some v) ∧
     (∀ k e, acm.TableBasedActor.eligibilities (self p) !! k = Some e →
             acm.TableBasedActor.eligibilities (self p1) !! k = Some e) ∧
     (∀ k, acm.TableBasedActor.policy (self p) !! k = None →
           acm.TableBasedActor.policy (self p1) !! k =
           if bool_decide (k ∈ pair_keys state actions)
           then Some 0%Q else None) ∧
     (∀ k, acm.TableBasedActor.eligibilities (self p) !! k = None →
           acm.TableBasedActor.eligibilities (self p1) !! k =
           if bool_decide (k ∈ pair_keys state actions)
           then Some 0%Q else None) ∧
     acm.TableBasedActor.add_state state actions p1 = (Ok tt, p1))
  ∧
  (∀ (p : proc G (acm.TableBasedCritic.t State)) (state : State),
     let p1 := after (acm.TableBasedCritic.add_state state) p in
     acm.TableBasedCritic.add_state state p = (Ok tt, p1) ∧
     (∀ k v, acm.TableBasedCritic.state_values (self p) !! k = Some v →
             acm.TableBasedCritic.state_values (self p1) !! k = Some v) ∧
     (∀ k e, acm.TableBasedCritic.eligibilities (self p) !! k = Some e →
             acm.TableBasedCritic.eligibilities (self p1) !! k = Some e) ∧
     (acm.TableBasedCritic.state_values (self p) !! state = None →
        ∃ u, acm.TableBasedCritic.state_values (self p1) !! state = Some u ∧
             (0 <= u)%Q ∧ (u < 1)%Q) ∧
     (acm.TableBasedCritic.eligibilities (self p) !! state = None →
        acm.TableBasedCritic.eligibilities (self p1) !! state = Some 0%Q) ∧
     (∀ k, k ≠ state →
           acm.TableBasedCritic.state_values (self p1) !! k =
           acm.TableBasedCritic.state_values (self p) !! k ∧
           acm.TableBasedCritic.eligibilities (self p1) !! k =
           acm.TableBasedCritic.eligibilities (self p) !! k) ∧
     acm.TableBasedCritic.add_state state p1 = (Ok tt, p1)).
Proof.
  split.
  - intros p state actions p1.
    destruct (add_state_run state actions p) as (P' & E' & Hrun & HP & HE).
    assert (Hp1 : p1 = Proc (rng p)
              (acm.TableBasedActor.mk P' E'
                 (<[state := actions]>
                    (acm.TableBasedActor.state_actions (self p))))).
    { unfold p1, after. rewrite Hrun. reflexivity. }
    clearbody p1. subst p1. simpl.
    split; [exact Hrun |].
    split; [intros k v Hk; rewrite HP, Hk; reflexivity |].
    split; [intros k v Hk; rewrite HE, Hk; reflexivity |].
    split; [intros k Hk; rewrite HP, Hk; reflexivity |].
    split; [intros k Hk; rewrite HE, Hk; reflexivity |].
    destruct (add_state_run state actions
                (Proc (rng p)
                   (acm.TableBasedActor.mk P' E'
                      (<[state := actions]>
                         (acm.TableBasedActor.state_actions (self p))))))
      as (P2 & E2 & Hrun2 & HP2 & HE2).
    simpl in Hrun2, HP2, HE2. rewrite Hrun2, insert_insert_eq.
    assert (HPeq : P2 = P').
    { apply map_eq. intros k. rewrite HP2, HP.
      destruct (acm.TableBasedActor.policy (self p) !! k); [reflexivity |].
      case_bool_decide; reflexivity. }
    assert (HEeq : E2 = E').
    { apply map_eq. intros k. rewrite HE2, HE.
      destruct (acm.TableBasedActor.eligibilities (self p) !! k);
        [reflexivity |].
      case_bool_decide; reflexivity. }
    rewrite HPeq, HEeq. reflexivity.
  - intros p state p1.
    destruct (uniform_unit (rng p)) as (u & g' & Hu & Hu0 & Hu1).
    pose proof (critic_add_state_run state u g' p Hu) as Hrun.
    assert (Hp1 : p1 = after (acm.TableBasedCritic.add_state state) p)
      by reflexivity.
    unfold after in Hp1. rewrite Hrun in Hp1. simpl in Hp1.
    clearbody p1. subst p1. simpl.
    split; [exact Hrun |].
    split; [intros k v Hk; rewrite setdefault_lookup, Hk; reflexivity |].
    split; [intros k v Hk; rewrite setdefault_lookup, Hk; reflexivity |].
    split.
    { intros Hk. exists u. rewrite setdefault_lookup, Hk.
      rewrite bool_decide_eq_true_2 by reflexivity. auto. }
    split.
    { intros Hk. rewrite setdefault_lookup, Hk.
      rewrite bool_decide_eq_true_2 by reflexivity. reflexivity. }
    split.
    { intros k Hk. rewrite !setdefault_lookup.
      rewrite !bool_decide_eq_false_2 by exact Hk.
      split; destruct (_ !! k); reflexivity. }
    match goal with
    | |- acm.TableBasedCritic.add_state state ?q = _ => set (p1 := q)
    end.
    destruct (uniform_unit (rng p1)) as (u2 & g2 & Hu2 & _ & _).
    rewrite (critic_add_state_run state u2 g2 p1 Hu2). unfold p1. simpl.
    assert (Hset : ∀ (v w : Q) (d : gmap State Q),
              setdefault state w (setdefault state v d) = setdefault state v d).
    { intros v w d. unfold setdefault at 1.
      rewrite setdefault_lookup.
      destruct (d !! state); [reflexivity |].
      rewrite bool_decide_eq_true_2 by reflexivity. reflexivity. }
    rewrite !Hset.
    rewrite setdefault_lookup.
    destruct (acm.TableBasedCritic.state_values (self p) !! state);
      [reflexivity |].
    rewrite bool_decide_eq_true_2 by reflexivity. reflexivity.
Qed.

End registration.

Lemma add_state_idempotent_witness :
  RngLaws nat ∧
  (let p1 :=
     after (acm.TableBasedActor.add_state "S0" ["left"; "right"]) demo_actor in
   acm.TableBasedActor.add_state "S0" ["left"; "right"] p1 = (Ok tt, p1)) ∧
  (let p1 := after (acm.TableBasedCritic.add_state "S0") demo_critic in
   acm.TableBasedCritic.add_state "S0" p1 = (Ok tt, p1)).
Proof.
  split; [exact counter_rng_laws |].
  destruct (add_state_idempotent (State := string) (Action := string)
              (G := nat) (RngLaws0 := counter_rng_laws)) as [Hactor Hcritic].
  split.
  - apply (Hactor demo_actor "S0" ["left"; "right"]).
  - apply (Hcritic demo_critic "S0").
Defined.

(** ** The greedy scan of [propose_action] *)

Lemma gt_Fin (x y : Q) : gt x (Fin y) = true ↔ (y < x)%Q.
Proof.
  unfold gt, Qgt_bool. rewrite negb_true_iff.
  destruct (Qle_bool x y) eqn:Hle.
  - apply Qle_bool_iff in Hle. split; [discriminate | intros; lra].
  - split; [intros _ | reflexivity].
    destruct (Qlt_le_dec y x) as [Hlt | Hge]; [exact Hlt |].
    apply Qle_bool_iff in Hge. congruence.
Qed.

Lemma gt_Fin_false (x y : Q) : gt x (Fin y) = false ↔ (x <= y)%Q.
Proof.
  unfold gt, Qgt_bool. rewrite negb_false_iff. apply Qle_bool_iff.
Qed.

Section scan.
Context `{Countable State} `{Countable Action} {G : Type} {R : Rng G}.
Import acm.TableBasedActor.
Variable state : State.
Variable actions : list Action.

Lemma scan_body_run (p : proc G (t State Action)) (action : Action) (v : Q)
    (locals : option Action * bound) :
  actions ≠ [] →
  policy (self p) !! (state, Some action) = Some v →
  scan_body state actions action locals p =
  (Ok (if gt (quotient v (length actions)) (snd locals)
       then (Some action, Fin (quotient v (length actions)))
       else locals), p).
Proof.
  intros Hne Hv. unfold scan_body. method_steps.
  rewrite (getitem_Some _ _ _ _ Hv).
  destruct actions as [| a0 l0]; [congruence |].
  unfold truediv, quotient. simpl length. method_steps.
  destruct (gt _ _); reflexivity.
Qed.

(** What the scan of a stretch [l] of the list does to the locals: either it
    leaves them, and no action of [l] beats the maximum it started with; or
    it ends on the first action of [l] whose quotient is the largest of
    [l], and that quotient beats the maximum it started with. *)
Lemma scan_run (p : proc G (t State Action)) (l : list Action)
    (best : option Action) (m : bound) :
  actions ≠ [] →
  (∀ a, a ∈ l → is_Some (policy (self p) !! (state, Some a))) →
  ∃ best' m',
    for_fold l (scan_body state actions) (best, m) p = (Ok (best', m'), p) ∧
    ((best' = best ∧ m' = m ∧
      ∀ x vx, x ∈ l → policy (self p) !! (state, Some x) = Some vx →
              gt (quotient vx (length actions)) m = false)
     ∨
     (∃ l1 a l2 v,
        l = l1 ++ a :: l2 ∧ best' = Some a ∧
        policy (self p) !! (state, Some a) = Some v ∧
        m' = Fin (quotient v (length actions)) ∧
        gt (quotient v (length actions)) m = true ∧
        (∀ x vx, x ∈ l1 → policy (self p) !! (state, Some x) = Some vx →
                 (quotient vx (length actions)
                  < quotient v (length actions))%Q) ∧
        (∀ x vx, x ∈ l2 → policy (self p) !! (state, Some x) = Some vx →
                 (quotient vx (length actions)
                  <= quotient v (length actions))%Q))).
Proof.
  intros Hne. revert best m.
  induction l as [| a l IH]; intros best m Hreg.
  - exists best, m. split; [reflexivity |]. left.
    split; [reflexivity | split; [reflexivity |]].
    intros x vx Hx. apply elem_of_nil in Hx. contradiction.
  - destruct (Hreg a) as [v Hv]; [left |].
    assert (Hreg' : ∀ x, x ∈ l →
              is_Some (policy (self p) !! (state, Some x)))
      by (intros x Hx; apply Hreg; right; exact Hx).
    simpl. unfold mbind at 1, M_bind at 1.
    rewrite (scan_body_run p a v (best, m) Hne Hv). simpl snd.
    set (qa := quotient v (length actions)).
    destruct (gt qa m) eqn:Hgt.
    + destruct (IH (Some a) (Fin qa) Hreg')
        as (best' & m' & Hrun & [(-> & -> & Hall) | Hfound]).
      * exists (Some a), (Fin qa). split; [exact Hrun |]. right.
        exists [], a, l, v.
        split; [reflexivity |]. split; [reflexivity |].
        split; [exact Hv |]. split; [reflexivity |]. split; [exact Hgt |].
        split.
        -- intros x vx Hx. apply elem_of_nil in Hx. contradiction.
        -- intros x vx Hx Hvx. apply gt_Fin_false. eapply Hall; eassumption.
      * destruct Hfound as (l1 & a' & l2 & v' & -> & -> & Hv' & -> & Hgt'
                            & Hbefore & Hafter).
        exists (Some a'), (Fin (quotient v' (length actions))).
        split; [exact Hrun |]. right.
        exists (a :: l1), a', l2, v'.
        apply gt_Fin in Hgt'.
        split; [reflexivity |]. split; [reflexivity |].
        split; [exact Hv' |]. split; [reflexivity |].
        split.
        { destruct m as [| y]; [reflexivity |].
          apply gt_Fin. apply gt_Fin in Hgt. fold qa in Hgt'. lra. }
        split; [| exact Hafter].
        intros x vx Hx Hvx. apply elem_of_cons in Hx as [-> | Hx].
        -- rewrite Hv in Hvx. injection Hvx as <-. exact Hgt'.
        -- eapply Hbefore; eassumption.
    + destruct (IH best m Hreg')
        as (best' & m' & Hrun & [(-> & -> & Hall) | Hfound]).
      * exists best, m. split; [exact Hrun |]. left.
        split; [reflexivity |]. split; [reflexivity |].
        intros x vx Hx Hvx. apply elem_of_cons in Hx as [-> | Hx].
        -- rewrite Hv in Hvx. injection Hvx as <-. exact Hgt.
        -- eapply Hall; eassumption.
      * destruct Hfound as (l1 & a' & l2 & v' & -> & -> & Hv' & -> & Hgt'
                            & Hbefore & Hafter).
        exists (Some a'), (Fin (quotient v' (length actions))).
        split; [exact Hrun |]. right.
        exists (a :: l1), a', l2, v'.
        split; [reflexivity |]. split; [reflexivity |].
        split; [exact Hv' |]. split; [reflexivity |].
        split; [exact Hgt' |].
        split; [| exact Hafter].
        intros x vx Hx Hvx. apply elem_of_cons in Hx as [-> | Hx].
        -- rewrite Hv in Hvx. injection Hvx as <-.
           destruct m as [| y]; [discriminate |].
           apply gt_Fin in Hgt'. apply gt_Fin_false in Hgt.
           subst qa. lra.
        -- eapply Hbefore; eassumption.
Qed.

(** The scan reads the preferences only: it runs the same from any state of
    the generator. *)
Lemma scan_any_generator (p : proc G (t State Action)) (g : G)
    (l : list Action) (locals r : option Action * bound) :
  actions ≠ [] →
  (∀ x, x ∈ l → is_Some (policy (self p) !! (state, Some x))) →
  for_fold l (scan_body state actions) locals p = (Ok r, p) →
  for_fold l (scan_body state actions) locals (Proc g (self p))
  = (Ok r, Proc g (self p)).
Proof.
  intros Hne. revert locals.
  induction l as [| x l IH]; intros locals Hreg Hr.
  - simpl in *. unfold mret, M_ret in *. congruence.
  - destruct (Hreg x) as [vx Hvx]; [left |].
    simpl in *. rewrite bind_run in *.
    rewrite (scan_body_run p x vx locals Hne Hvx) in Hr.
    rewrite (scan_body_run (Proc g (self p)) x vx locals Hne Hvx).
    apply IH; [intros y Hy; apply Hreg; right; exact Hy |].
    exact Hr.
Qed.

End scan.

Section proposals.
Context `{Countable State} `{Countable Action} {G : Type} {R : Rng G}.
Context `{!RngLaws G}.

(** C3.  With [epsilon = 0], for a registered state with a non-empty list of
    actions, [propose_action] returns the first action of the list whose
    [preference / |actions|] is the largest: every action before it has a
    strictly smaller quotient, every action after it a quotient that is not
    larger.  The same action is returned whatever the state of the
    generator, and the tables are left as they were. *)
Theorem propose_action_greedy
    (p : proc G (acm.TableBasedActor.t State Action)) (state : State)
    (epsilon : Q) (actions : list Action) :
  (epsilon == 0)%Q →
  acm.TableBasedActor.state_actions (self p) !! state = Some actions →
  actions ≠ [] →
  actor_wf (self p) →
  ∃ a l1 l2 v,
    actions = l1 ++ a :: l2 ∧
    acm.TableBasedActor.policy (self p) !! (state, Some a) = Some v ∧
    (∀ x vx, x ∈ l1 →
       acm.TableBasedActor.policy (self p) !! (state, Some x) = Some vx →
       (quotient vx (length actions) < quotient v (length actions))%Q) ∧
    (∀ x vx, x ∈ l2 →
       acm.TableBasedActor.policy (self p) !! (state, Some x) = Some vx →
       (quotient vx (length actions) <= quotient v (length actions))%Q) ∧
    (∀ g, ∃ g',
       acm.TableBasedActor.propose_action state epsilon (Proc g (self p))
       = (Ok (Some a), Proc g' (self p))).
Proof.
  intros Heps Hsa Hne Hwf.
  destruct (scan_run state actions p actions None NegInf Hne)
    as (best' & m' & Hrun & [(_ & _ & Hall) | Hfound]).
  { intros a Ha. eapply Hwf; eassumption. }
  { destruct actions as [| a0 l0]; [congruence |].
    destruct (Hwf state (a0 :: l0) a0 Hsa) as [v0 Hv0]; [left |].
    specialize (Hall a0 v0). simpl in Hall.
    discriminate Hall; [left | exact Hv0]. }
  destruct Hfound as (l1 & a & l2 & v & Hl & -> & Hv & -> & _ & Hbefore
                      & Hafter).
  exists a, l1, l2, v.
  split; [exact Hl |]. split; [exact Hv |].
  split; [exact Hbefore |]. split; [exact Hafter |].
  intros g.
  destruct (choice01_never (1 - epsilon)%Q epsilon g) as [g' Hdraw];
    [lra | exact Heps |].
  exists g'. unfold acm.TableBasedActor.propose_action.
  rewrite bind_run. unfold gets_self at 1, gets at 1. cbn [self rng].
  rewrite bind_run, (getitem_Some _ _ _ _ Hsa).
  rewrite bind_run. unfold draw at 1. cbn [self rng]. rewrite Hdraw.
  rewrite bind_run.
  rewrite (scan_any_generator state actions p g' actions (None, NegInf)
             (Some a, Fin (quotient v (length actions))) Hne);
    [reflexivity | | exact Hrun].
  intros x Hx. eapply Hwf; eassumption.
Qed.

(** C10.  With [epsilon = 0], for a state registered with an empty list of
    actions, [propose_action] returns [None] and raises nothing; so does the
    method of [rl/actor.py] when the actor's own [epsilon] is 0. *)
Theorem propose_action_no_actions :
  (∀ (p : proc G (acm.TableBasedActor.t State Action)) (state : State)
     (epsilon : Q),
     (epsilon == 0)%Q →
     acm.TableBasedActor.state_actions (self p) !! state = Some [] →
     ∃ g', acm.TableBasedActor.propose_action state epsilon p
           = (Ok None, Proc g' (self p)))
  ∧
  (∀ (hash_tuple : State → Z) (p : proc G (actor.TableBasedActor.t Action))
     (state : State),
     (actor.TableBasedActor.epsilon (self p) == 0)%Q →
     actor.TableBasedActor.state_actions (self p) !! hash_tuple state
     = Some [] →
     ∃ g', actor.TableBasedActor.propose_action hash_tuple state p
           = (Ok None, Proc g' (self p))).
Proof.
  split.
  - intros p state epsilon Heps Hsa.
    destruct (choice01_never (1 - epsilon)%Q epsilon (rng p)) as [g' Hdraw];
      [lra | exact Heps |].
    exists g'. unfold acm.TableBasedActor.propose_action. method_unfold.
    rewrite (getitem_Some _ _ _ _ Hsa). cbn [rng self fst snd].
    rewrite Hdraw. reflexivity.
  - intros hash_tuple p state Heps Hsa.
    destruct (choice01_never
                (1 - actor.TableBasedActor.epsilon (self p))%Q
                (actor.TableBasedActor.epsilon (self p)) (rng p))
      as [g' Hdraw]; [lra | exact Heps |].
    exists g'. unfold actor.TableBasedActor.propose_action. method_unfold.
    rewrite (getitem_Some _ _ _ _ Hsa). cbn [rng self fst snd].
    rewrite Hdraw. reflexivity.
Qed.

End proposals.

Lemma demo_actor_tie_wf : actor_wf (self demo_actor_tie).
Proof.
  intros state actions action Hstate Haction.
  unfold demo_actor_tie in Hstate.
  cbn [self acm.TableBasedActor.state_actions] in Hstate.
  apply lookup_singleton_Some in Hstate as [<- <-].
  repeat (apply elem_of_cons in Haction as [-> | Haction]);
    [eexists; reflexivity .. |].
  apply elem_of_nil in Haction. contradiction.
Qed.

Lemma propose_action_greedy_witness :
  (0 == 0)%Q ∧
  acm.TableBasedActor.state_actions (self demo_actor_tie) !! "S0"
  = Some ["left"; "right"; "up"] ∧
  ["left"; "right"; "up"] ≠ [] ∧
  actor_wf (self demo_actor_tie) ∧
  ∃ a l1 l2 v,
    ["left"; "right"; "up"] = l1 ++ a :: l2 ∧
    acm.TableBasedActor.policy (self demo_actor_tie) !! ("S0", Some a)
    = Some v ∧
    (∀ x vx, x ∈ l1 →
       acm.TableBasedActor.policy (self demo_actor_tie) !! ("S0", Some x)
       = Some vx →
       (quotient vx 3 < quotient v 3)%Q) ∧
    (∀ x vx, x ∈ l2 →
       acm.TableBasedActor.policy (self demo_actor_tie) !! ("S0", Some x)
       = Some vx →
       (quotient vx 3 <= quotient v 3)%Q) ∧
    (∀ g, ∃ g',
       acm.TableBasedActor.propose_action "S0" 0 (Proc g (self demo_actor_tie))
       = (Ok (Some a), Proc g' (self demo_actor_tie))).
Proof.
  split; [reflexivity |]. split; [reflexivity |]. split; [discriminate |].
  split; [exact demo_actor_tie_wf |].
  apply (propose_action_greedy demo_actor_tie "S0" 0%Q
           ["left"; "right"; "up"]);
    [reflexivity | reflexivity | discriminate | exact demo_actor_tie_wf].
Defined.

Lemma propose_action_no_actions_witness :
  (0 == 0)%Q ∧
  acm.TableBasedActor.state_actions (self demo_actor_end) !! "T" = Some [] ∧
  (∃ g', acm.TableBasedActor.propose_action "T" 0 demo_actor_end
         = (Ok None, Proc g' (self demo_actor_end))) ∧
  (actor.TableBasedActor.epsilon (self demo_actor_py_end) == 0)%Q ∧
  actor.TableBasedActor.state_actions (self demo_actor_py_end) !! 7%Z
  = Some [] ∧
  (∃ g', actor.TableBasedActor.propose_action (λ _ : string, 7%Z) "T"
           demo_actor_py_end
         = (Ok None, Proc g' (self demo_actor_py_end))).
Proof.
  destruct (propose_action_no_actions (State := string) (Action := string)
              (G := nat)) as [Hacm Hpy].
  split; [reflexivity |]. split; [reflexivity |].
  split; [apply (Hacm demo_actor_end "T" 0%Q); reflexivity |].
  split; [reflexivity |]. split; [reflexivity |].
  apply (Hpy (λ _ : string, 7%Z) demo_actor_py_end "T"); reflexivity.
Defined.

(** The first of the two tied actions is the one proposed. *)
Example propose_action_tie :
  acm.TableBasedActor.propose_action "S0" 0 demo_actor_tie
  = (Ok (Some "right"), Proc 1%nat (self demo_actor_tie)).
Proof. vm_compute. reflexivity. Qed.

(** ** Decay of the eligibility traces *)

Lemma Qpower_succ (a : Q) (n : nat) :
  (a ^ Z.of_nat (S n) == a ^ Z.of_nat n * a)%Q.
Proof.
  rewrite Nat2Z.inj_succ. unfold Z.succ.
  rewrite Qpower_plus' by lia. rewrite Qpower_1_r. reflexivity.
Qed.

(** One multiplication of a non-zero trace by a factor of (0,1). *)
Lemma decay_once (e c : Q) :
  (0 < c)%Q → (c < 1)%Q → ¬ (e == 0)%Q →
  (Qabs (e * c) < Qabs e)%Q ∧ ¬ (e * c == 0)%Q ∧
  ((0 < e)%Q → (0 < e * c)%Q) ∧ ((e < 0)%Q → (e * c < 0)%Q).
Proof.
  intros Hc0 Hc1 He.
  assert (Habs : (Qabs (e * c) == Qabs e * c)%Q).
  { rewrite Qabs_Qmult. rewrite (Qabs_pos c) by lra. reflexivity. }
  assert (Hpos : (0 < Qabs e)%Q).
  { apply Qabs_case; intros; destruct (Qeq_dec e 0); try contradiction; lra. }
  split; [rewrite Habs; nra |].
  split; [intros Hz; apply He; nra |].
  split; intros; nra.
Qed.

Section decay.
Context `{Countable State} `{Countable Action} {G : Type} {R : Rng G}.

Lemma actor_update_eligibilities_run
    (p : proc G (acm.TableBasedActor.t State Action)) (state : State)
    (action : option Action) (discount_rate decay_factor e : Q) :
  acm.TableBasedActor.eligibilities (self p) !! (state, action) = Some e →
  acm.TableBasedActor.update_eligibilities state action discount_rate
    decay_factor p
  = (Ok tt,
     Proc (rng p)
       (acm.TableBasedActor.set_eligibility (state, action)
          (e * (discount_rate * decay_factor))%Q (self p))).
Proof.
  intros He. unfold acm.TableBasedActor.update_eligibilities.
  rewrite bind_run. unfold gets_self at 1, gets at 1. cbn [self rng].
  rewrite bind_run, (getitem_Some _ _ _ _ He). reflexivity.
Qed.

Lemma critic_update_eligibilities_run
    (p : proc G (acm.TableBasedCritic.t State)) (state : State)
    (discount_rate decay_factor e : Q) :
  acm.TableBasedCritic.eligibilities (self p) !! state = Some e →
  acm.TableBasedCritic.update_eligibilities state discount_rate decay_factor p
  = (Ok tt,
     Proc (rng p)
       (acm.TableBasedCritic.set_eligibility state
          (e * (discount_rate * decay_factor))%Q (self p))).
Proof.
  intros He. unfold acm.TableBasedCritic.update_eligibilities.
  rewrite bind_run. unfold gets_self at 1, gets at 1. cbn [self rng].
  rewrite bind_run, (getitem_Some _ _ _ _ He). reflexivity.
Qed.


End decay.


(** ** The exploration rate over a run *)

Section schedule.
Context `{Countable State} `{Countable Action} {G : Type} {R : Rng G}.
Context {D : Type} {Dom : environment.Domain D State Action}.
Import acm.ACM.

Lemma keeps_ret {A} (t : acm.ACM.t) (a : A) :
  keeps (State := State) (Action := Action) (G := G) (D := D) t (mret a).
Proof. apply triple_ret. intros f Hf. exact Hf. Qed.

Lemma keeps_bind {A B} (t : acm.ACM.t)
    (p : prog (frame State Action G D) A)
    (k : A → prog (frame State Action G D) B) :
  keeps t p → (∀ a, keeps t (k a)) → keeps t (p ≫= k).
Proof. intros Hp Hk. eapply triple_bind; [exact Hp | exact Hk]. Qed.

Lemma call_actor_keeps {A} (t : acm.ACM.t)
    (m : M (proc G (acm.TableBasedActor.t State Action)) A) :
  keeps (State := State) (Action := Action) (G := G) (D := D) t (call_actor m).
Proof.
  apply triple_stmt. intros f Hf. split; [exact I |].
  destruct (m _) as [[a | e] p]; [exact Hf | exact I].
Qed.

Lemma call_critic_keeps {A} (t : acm.ACM.t)
    (m : M (proc G (acm.TableBasedCritic.t State)) A) :
  keeps (State := State) (Action := Action) (G := G) (D := D) t
    (call_critic m).
Proof.
  apply triple_stmt. intros f Hf. split; [exact I |].
  destruct (critic f) as [c |]; [| exact I].
  destruct (m _) as [[a | e] p]; [exact Hf | exact I].
Qed.

Lemma call_domain_keeps {A} (t : acm.ACM.t) (m : M D A) :
  keeps (State := State) (Action := Action) (G := G) (D := D) t
    (call_domain m).
Proof.
  apply triple_stmt. intros f Hf. split; [exact I |].
  destruct (m _) as [[a | e] p]; [exact Hf | exact I].
Qed.

Lemma gets_this_keeps {A} (t : acm.ACM.t) (g : acm.ACM.t → A) :
  keeps (State := State) (Action := Action) (G := G) (D := D) t (gets_this g).
Proof. apply triple_stmt. intros f Hf. split; [exact I | exact Hf]. Qed.

Lemma record_steps_keeps (t : acm.ACM.t) (step : nat) :
  keeps (State := State) (Action := Action) (G := G) (D := D) t
    (record_steps step).
Proof. apply triple_stmt. intros f Hf. split; [exact I | exact Hf]. Qed.

(** Splits a sequence of statements and closes each with a [keeps] lemma. *)
Ltac keeps_steps :=
  repeat first
    [ apply call_actor_keeps | apply call_critic_keeps
    | apply call_domain_keeps | apply gets_this_keeps
    | apply record_steps_keeps | apply keeps_ret
    | apply keeps_bind; [| intros ?] ].

Lemma episode_init_keeps (t : acm.ACM.t) :
  keeps (State := State) (Action := Action) (G := G) (D := D) t episode_init.
Proof. unfold episode_init. keeps_steps. Qed.

Lemma credit_keeps (t : acm.ACM.t) (td_error : Q)
    (entry : State * option Action) :
  keeps (State := State) (Action := Action) (G := G) (D := D) t
    (credit td_error entry).
Proof. unfold credit. keeps_steps. Qed.

Lemma step_body_keeps (t : acm.ACM.t) (current_state : State)
    (current_action : option Action) (episode : list (State * option Action)) :
  keeps (State := State) (Action := Action) (G := G) (D := D) t
    (step_body current_state current_action episode).
Proof.
  unfold step_body, observe, mark_actor, td, mark_critic.
  apply keeps_bind; [keeps_steps | intros seen].
  apply keeps_bind; [keeps_steps | intros ?].
  apply keeps_bind; [keeps_steps | intros ?].
  apply keeps_bind; [keeps_steps | intros ?].
  apply keeps_bind; [| intros ?; keeps_steps].
  apply triple_for_each. intros entry _. apply credit_keeps.
Qed.

Lemma while_loop_O (step : nat) (current_state : State)
    (current_action : option Action) (episode : list (State * option Action)) :
  while_loop (D := D) O step current_state current_action episode = mret step.
Proof. reflexivity. Qed.

Lemma while_loop_S (budget step : nat) (current_state : State)
    (current_action : option Action) (episode : list (State * option Action)) :
  while_loop (S budget) step current_state current_action episode =
  (terminal ← call_domain environment.is_current_state_terminal;
   if (terminal : bool) then mret step
   else
     next ← step_body current_state current_action episode;
     while_loop budget (S step) (fst (fst next)) (snd (fst next)) (snd next)).
Proof. reflexivity. Qed.

Lemma while_loop_keeps (t : acm.ACM.t) (budget step : nat)
    (current_state : State) (current_action : option Action)
    (episode : list (State * option Action)) :
  keeps (State := State) (Action := Action) (G := G) (D := D) t
    (while_loop budget step current_state current_action episode).
Proof.
  revert step current_state current_action episode.
  induction budget as [| budget IH]; intros step cs ca episode.
  - rewrite while_loop_O. apply keeps_ret.
  - rewrite while_loop_S.
    apply keeps_bind; [apply call_domain_keeps | intros terminal].
    destruct terminal; [keeps_steps |].
    apply keeps_bind; [apply step_body_keeps | intros next]. apply IH.
Qed.

Lemma episode_body_decays (t : acm.ACM.t) (episode_count : nat) :
  triple (λ _, True) (λ f : frame State Action G D, this f = t) (episode_body episode_count)
    (λ _ f, this f = decayed t) (λ _, True).
Proof.
  unfold episode_body.
  eapply triple_bind; [apply (episode_init_keeps t) | intros start].
  eapply triple_bind; [apply (gets_this_keeps t) | intros self_steps].
  eapply triple_bind; [apply (while_loop_keeps t) | intros step].
  eapply triple_bind with (Q1 := λ _ f, this f = decayed t).
  { apply triple_stmt. intros f Hf. split; [exact I |].
    simpl. rewrite Hf. reflexivity. }
  intros ?.
  eapply triple_bind;
    [apply (gets_this_keeps (decayed t)) | intros self_max_episodes].
  eapply triple_bind.
  { unfold when. destruct (_ || _);
      [apply (call_domain_keeps (decayed t)) | apply (keeps_ret (decayed t))]. }
  intros ?. fold (keeps (State := State) (Action := Action) (G := G) (D := D)
                    (decayed t)
                    (record_steps step ;;
                     call_critic acm.TableBasedCritic.num_seen_states ;;
                     mret tt)).
  keeps_steps.
Qed.

Lemma for_each_episodes_decay (t : acm.ACM.t) (first count : nat) :
  triple (λ _, True) (λ f : frame State Action G D, this f = t)
    (for_each (seq first count) episode_body)
    (λ _ f, this f = Nat.iter count decayed t) (λ _, True).
Proof.
  revert first t. induction count as [| count IH]; intros first t.
  - apply triple_ret. intros f Hf. exact Hf.
  - change (for_each (seq first (S count)) episode_body)
      with (episode_body first ;; for_each (seq (S first) count) episode_body).
    eapply triple_bind; [apply episode_body_decays | intros ?].
    rewrite Nat.iter_succ_r. apply IH.
Qed.

Lemma iter_decayed (t : acm.ACM.t) (count : nat) :
  (epsilon (Nat.iter count decayed t)
   == epsilon t * epsilon_decay t ^ Z.of_nat count)%Q ∧
  set_epsilon (epsilon t) (Nat.iter count decayed t) = t.
Proof.
  induction count as [| count [IHe IHt]].
  - simpl Nat.iter. split; [change (_ ^ Z.of_nat 0)%Q with 1%Q; lra |].
    destruct t; reflexivity.
  - simpl Nat.iter. set (u := Nat.iter count decayed t) in *.
    assert (Hd : epsilon_decay u = epsilon_decay t)
      by (apply (f_equal epsilon_decay) in IHt; exact IHt).
    split; [| exact IHt].
    rewrite Qpower_succ.
    change (epsilon (decayed u)) with (epsilon u * epsilon_decay u)%Q.
    rewrite IHe, Hd. ring.
Qed.

(** C7.  An episode that completes multiplies [self.epsilon] by
    [self.epsilon_decay] exactly once and changes nothing else of [self],
    whatever the domain and the draws did in it; so after [E] completed
    episodes of a run the exploration rate is
    [epsilon * epsilon_decay ^ E], and after a whole [fit] it is
    [epsilon * epsilon_decay ^ max_episodes]. *)
Theorem epsilon_schedule (self : acm.ACM.t) (d : D) (g : G) :
  (∀ (episode_count : nat) (f0 f1 : frame State Action G D),
     run (episode_body episode_count) f0 = (Ok tt, f1) →
     this f1 = decayed (this f0)) ∧
  (∀ (E : nat) (f : frame State Action G D),
     run (for_each (seq 0 E) episode_body) (enter self d g) = (Ok tt, f) →
     (epsilon (this f) == epsilon self * epsilon_decay self ^ Z.of_nat E)%Q ∧
     set_epsilon (epsilon self) (this f) = self) ∧
  (∀ f : frame State Action G D,
     fit self d g = (Ok tt, f) →
     (epsilon (this f)
      == epsilon self * epsilon_decay self ^ Z.of_nat (max_episodes self))%Q).
Proof.
  assert (Hprefix : ∀ (E : nat) (f : frame State Action G D),
     run (for_each (seq 0 E) episode_body) (enter self d g) = (Ok tt, f) →
     (epsilon (this f) == epsilon self * epsilon_decay self ^ Z.of_nat E)%Q ∧
     set_epsilon (epsilon self) (this f) = self).
  { intros E f Hrun.
    destruct (for_each_episodes_decay self 0 E (enter self d g) eq_refl)
      as [_ Hpost].
    rewrite Hrun in Hpost. rewrite Hpost. apply iter_decayed. }
  split; [| split; [exact Hprefix |]].
  - intros episode_count f0 f1 Hrun.
    destruct (episode_body_decays (this f0) episode_count f0 eq_refl)
      as [_ Hpost].
    rewrite Hrun in Hpost. exact Hpost.
  - intros f Hfit. unfold fit, episodes in Hfit.
    rewrite run_bind in Hfit. unfold gets_this in Hfit.
    rewrite run_stmt in Hfit. unfold gets in Hfit.
    apply Hprefix in Hfit. apply Hfit.
Qed.

End schedule.

Lemma epsilon_schedule_witness :
  acm.ACM.fit (Dom := demo.two_state) (demo.config 3 1 (1 # 2)) false 0%nat
  = (Ok tt,
     snd (acm.ACM.fit (Dom := demo.two_state) (demo.config 3 1 (1 # 2))
            false 0%nat)) ∧
  (acm.ACM.epsilon
     (acm.ACM.this
        (snd (acm.ACM.fit (Dom := demo.two_state) (demo.config 3 1 (1 # 2))
                false 0%nat)))
   == (1 # 2) * (99 # 100) ^ Z.of_nat 3)%Q.
Proof.
  assert (Hrun :
    acm.ACM.fit (Dom := demo.two_state) (demo.config 3 1 (1 # 2)) false 0%nat
    = (Ok tt,
       snd (acm.ACM.fit (Dom := demo.two_state) (demo.config 3 1 (1 # 2))
              false 0%nat))) by (vm_compute; reflexivity).
  split; [exact Hrun |].
  apply (proj2 (proj2 (epsilon_schedule (Dom := demo.two_state)
                         (demo.config 3 1 (1 # 2)) false 0%nat))).
  exact Hrun.
Defined.

(** ** What each update does, and when it raises *)

Section updates.
Context `{Countable State} `{Countable Action} {G : Type} {R : Rng G}.

Lemma compute_td_error_run (p : proc G (acm.TableBasedCritic.t State))
    (current_state successor_state : State) (reinforcement discount_rate : Q) :
  acm.TableBasedCritic.compute_td_error current_state successor_state
    reinforcement discount_rate p =
  match acm.TableBasedCritic.state_values (self p) !! successor_state,
        acm.TableBasedCritic.state_values (self p) !! current_state with
  | Some v_succ, Some v_cur =>
      (Ok (reinforcement + discount_rate * v_succ - v_cur)%Q, p)
  | _, _ => (Raise KeyError, p)
  end.
Proof.
  unfold acm.TableBasedCritic.compute_td_error.
  rewrite bind_run. unfold gets_self at 1, gets at 1. cbn [self rng].
  rewrite bind_run. unfold getitem at 1.
  destruct (_ !! successor_state) as [v_succ |]; [| reflexivity].
  unfold mret at 1, M_ret at 1.
  rewrite bind_run. unfold gets_self at 1, gets at 1. cbn [self rng].
  rewrite bind_run. unfold getitem at 1.
  destruct (_ !! current_state) as [v_cur |]; reflexivity.
Qed.

Lemma update_value_function_run (p : proc G (acm.TableBasedCritic.t State))
    (state : State) (learning_rate td_error : Q) :
  acm.TableBasedCritic.update_value_function state learning_rate td_error p =
  match acm.TableBasedCritic.state_values (self p) !! state,
        acm.TableBasedCritic.eligibilities (self p) !! state with
  | Some v, Some e =>
      (Ok tt,
       Proc (rng p)
         (acm.TableBasedCritic.set_value state
            (v + learning_rate * td_error * e)%Q (self p)))
  | _, _ => (Raise KeyError, p)
  end.
Proof.
  unfold acm.TableBasedCritic.update_value_function.
  rewrite bind_run. unfold gets_self at 1, gets at 1. cbn [self rng].
  rewrite bind_run. unfold getitem at 1.
  destruct (_ !! state) as [v |]; [| reflexivity].
  unfold mret at 1, M_ret at 1.
  rewrite bind_run. unfold gets_self at 1, gets at 1. cbn [self rng].
  rewrite bind_run. unfold getitem at 1.
  destruct (_ !! state) as [e |]; reflexivity.
Qed.

Lemma critic_update_eligibilities_cases
    (p : proc G (acm.TableBasedCritic.t State)) (state : State)
    (discount_rate decay_factor : Q) :
  acm.TableBasedCritic.update_eligibilities state discount_rate decay_factor p
  =
  match acm.TableBasedCritic.eligibilities (self p) !! state with
  | Some e =>
      (Ok tt,
       Proc (rng p)
         (acm.TableBasedCritic.set_eligibility state
            (e * (discount_rate * decay_factor))%Q (self p)))
  | None => (Raise KeyError, p)
  end.
Proof.
  destruct (_ !! state) as [e |] eqn:He.
  - apply critic_update_eligibilities_run. exact He.
  - unfold acm.TableBasedCritic.update_eligibilities.
    rewrite bind_run. unfold gets_self at 1, gets at 1. cbn [self rng].
    rewrite bind_run, (getitem_None _ _ _ He). reflexivity.
Qed.

Lemma update_policy_run (p : proc G (acm.TableBasedActor.t State Action))
    (state : State) (action : option Action) (learning_rate td_error : Q) :
  acm.TableBasedActor.update_policy state action learning_rate td_error p =
  match acm.TableBasedActor.policy (self p) !! (state, action),
        acm.TableBasedActor.eligibilities (self p) !! (state, action) with
  | Some v, Some e =>
      (Ok tt,
       Proc (rng p)
         (acm.TableBasedActor.set_policy (state, action)
            (v + learning_rate * td_error * e)%Q (self p)))
  | _, _ => (Raise KeyError, p)
  end.
Proof.
  unfold acm.TableBasedActor.update_policy.
  rewrite bind_run. unfold gets_self at 1, gets at 1. cbn [self rng].
  rewrite bind_run. unfold getitem at 1.
  destruct (_ !! (state, action)) as [v |]; [| reflexivity].
  unfold mret at 1, M_ret at 1.
  rewrite bind_run. unfold gets_self at 1, gets at 1. cbn [self rng].
  rewrite bind_run. unfold getitem at 1.
  destruct (_ !! (state, action)) as [e |]; reflexivity.
Qed.

Lemma actor_update_eligibilities_cases
    (p : proc G (acm.TableBasedActor.t State Action)) (state : State)
    (action : option Action) (discount_rate decay_factor : Q) :
  acm.TableBasedActor.update_eligibilities state action discount_rate
    decay_factor p =
  match acm.TableBasedActor.eligibilities (self p) !! (state, action) with
  | Some e =>
      (Ok tt,
       Proc (rng p)
         (acm.TableBasedActor.set_eligibility (state, action)
            (e * (discount_rate * decay_factor))%Q (self p)))
  | None => (Raise KeyError, p)
  end.
Proof.
  destruct (_ !! (state, action)) as [e |] eqn:He.
  - apply actor_update_eligibilities_run. exact He.
  - unfold acm.TableBasedActor.update_eligibilities.
    rewrite bind_run. unfold gets_self at 1, gets at 1. cbn [self rng].
    rewrite bind_run, (getitem_None _ _ _ He). reflexivity.
Qed.

End updates.

(** ** The sweep over the history *)

Section sweep.
Context `{Countable State} `{Countable Action} {G : Type} {R : Rng G}.
Context {D : Type} {Dom : environment.Domain D State Action}.
Import acm.ACM.

Lemma run_gets_this {A B} (g : acm.ACM.t → A)
    (k : A → prog (frame State Action G D) B) (f : frame State Action G D) :
  run (gets_this g ≫= k) f = run (k (g (this f))) f.
Proof. rewrite run_bind. unfold gets_this. rewrite run_stmt. reflexivity. Qed.

Lemma run_call_critic {A} (m : M (proc G (acm.TableBasedCritic.t State)) A)
    (th : acm.ACM.t) (ac : acm.TableBasedActor.t State Action)
    (c : acm.TableBasedCritic.t State) (d : D) (g : G) (sp : list nat) :
  run (call_critic m) (Frame th ac (acm.TableCritic c) d g sp) =
  match m (Proc g c) with
  | (r, p) => (r, Frame th ac (acm.TableCritic (self p)) d (rng p) sp)
  end.
Proof. unfold call_critic. rewrite run_stmt. reflexivity. Qed.

Lemma run_call_actor {A}
    (m : M (proc G (acm.TableBasedActor.t State Action)) A)
    (th : acm.ACM.t) (ac : acm.TableBasedActor.t State Action)
    (c : acm.critic_obj State) (d : D) (g : G) (sp : list nat) :
  run (call_actor m) (Frame th ac c d g sp) =
  match m (Proc g ac) with
  | (r, p) => (r, Frame th (self p) c d (rng p) sp)
  end.
Proof. unfold call_actor. rewrite run_stmt. reflexivity. Qed.

(** One entry: the statements of [credit] do to the frame what
    [credit_spec] does to its tables, and raise [KeyError] where
    [credit_spec] has no update. *)
Lemma credit_run (td_error : Q) (entry : State * option Action)
    (f : frame State Action G D) (T : tables State Action) :
  tables_of f = Some T →
  match credit_spec (critic_lr (this f)) (actor_lr (this f))
          (discount_rate (this f)) (decay_factor (this f)) td_error entry T
  with
  | Some T' => run (credit td_error entry) f = (Ok tt, with_tables T' f)
  | None => fst (run (credit td_error entry) f) = Raise KeyError
  end.
Proof.
  destruct f as [th [P Ea SA] [[V Ec] |] d g sp]; [| discriminate].
  destruct entry as [s a].
  intros HT. injection HT as <-. unfold credit_spec, credit.
  cbn [fst snd values critic_traces preferences actor_traces this].
  destruct (V !! s) as [v |] eqn:HV;
    [destruct (Ec !! s) as [e |] eqn:HEc;
     [destruct (P !! (s, a)) as [p |] eqn:HP;
      [destruct (Ea !! (s, a)) as [e_a |] eqn:HEa |] |] |];
    cbn [mbind option_bind];
    repeat first
      [ rewrite run_gets_this | rewrite run_bind
      | rewrite run_call_critic | rewrite run_call_actor
      | rewrite update_value_function_run
      | rewrite critic_update_eligibilities_cases
      | rewrite update_policy_run
      | rewrite actor_update_eligibilities_cases
      | rewrite HV | rewrite HEc | rewrite HP | rewrite HEa
      | progress cbn [this self rng fst snd
          acm.TableBasedCritic.set_value acm.TableBasedCritic.set_eligibility
          acm.TableBasedCritic.state_values acm.TableBasedCritic.eligibilities
          acm.TableBasedActor.set_policy acm.TableBasedActor.set_eligibility
          acm.TableBasedActor.policy acm.TableBasedActor.eligibilities
          acm.TableBasedActor.state_actions] ];
    reflexivity.
Qed.

Lemma with_tables_of (f : frame State Action G D) (T : tables State Action) :
  tables_of f = Some T → with_tables T f = f.
Proof.
  destruct f as [th [P Ea SA] [[V Ec] |] d g sp]; [| discriminate].
  intros HT. injection HT as <-. reflexivity.
Qed.

Lemma tables_of_with (f : frame State Action G D) (T : tables State Action) :
  tables_of (with_tables T f) = Some T.
Proof. destruct T. reflexivity. Qed.

(** The sweep: the statements of the [for] loop over the first [n] entries
    do to the frame what [sweep_spec] does to its tables. *)
Lemma sweep_run (td_error : Q) (history : list (State * option Action))
    (f : frame State Action G D) (T : tables State Action) (n : nat) :
  tables_of f = Some T →
  n ≤ length history →
  match sweep_spec (critic_lr (this f)) (actor_lr (this f))
          (discount_rate (this f)) (decay_factor (this f)) td_error history n T
  with
  | Some T' =>
      run (for_each (take n history) (credit td_error)) f
      = (Ok tt, with_tables T' f)
  | None =>
      fst (run (for_each (take n history) (credit td_error)) f)
      = Raise KeyError
  end.
Proof.
  intros HT. induction n as [| n IH]; intros Hn.
  - simpl. rewrite (with_tables_of f T HT). reflexivity.
  - destruct (lookup_lt_is_Some_2 history n) as [entry Hentry]; [lia |].
    rewrite (take_S_r _ _ _ Hentry), run_for_each_snoc.
    cbn [sweep_spec]. specialize (IH ltac:(lia)).
    destruct (sweep_spec _ _ _ _ _ history n T) as [T' |];
      cbn [mbind option_bind].
    + rewrite IH, Hentry. cbn [mbind option_bind].
      pose proof (credit_run td_error entry (with_tables T' f) T'
                    (tables_of_with f T')) as Hcredit.
      cbn [with_tables this] in Hcredit.
      destruct (credit_spec _ _ _ _ _ entry T') as [T'' |].
      * rewrite Hcredit. reflexivity.
      * exact Hcredit.
    + destruct (run (for_each (take n history) (credit td_error)) f)
        as [[[] | e] f']; simpl in IH; [discriminate |].
      exact IH.
Qed.

Lemma run_call_critic_nn {A}
    (m : M (proc G (acm.TableBasedCritic.t State)) A)
    (th : acm.ACM.t) (ac : acm.TableBasedActor.t State Action) (d : D) (g : G)
    (sp : list nat) :
  run (call_critic m) (Frame th ac acm.NNCritic d g sp) =
  (Raise AttributeError, Frame th ac acm.NNCritic d g sp).
Proof. unfold call_critic. rewrite run_stmt. reflexivity. Qed.

End sweep.

(** An entry recorded twice is updated twice, the second time from the
    trace the first update left: with value 0, trace 1, learning rate 1/2,
    TD error 1 and decay 1/2 * 1/2, the value ends at 1/2 + 1/8. *)
Example sweep_reads_earlier_updates :
  (values <$>
     sweep_spec (1 # 2) (1 # 2) (1 # 2) (1 # 2) 1
       [("s", Some "a"); ("s", Some "a")] 2
       (Tables {[ "s" := 0%Q ]} {[ "s" := 1%Q ]}
               {[ ("s", Some "a") := 0%Q ]} {[ ("s", Some "a") := 1%Q ]}))
  = Some {[ "s" := (0 + (1 # 2) * 1 * 1 + (1 # 2) * 1 * (1 * ((1 # 2) * (1 # 2))))%Q ]}.
Proof. vm_compute. reflexivity. Qed.

(** ** Two more rules for triples *)

Lemma triple_exists {S A X} (I : S → Prop) (P : X → S → Prop)
    (p : prog S A) (Q : A → S → Prop) E :
  (∀ x, triple I (P x) p Q E) → triple I (λ s, ∃ x, P x s) p Q E.
Proof. intros Hp s [x Hs]. exact (Hp x s Hs). Qed.

Lemma triple_pure {S A} (I : S → Prop) (φ : Prop) (P : S → Prop)
    (p : prog S A) (Q : A → S → Prop) E :
  (φ → triple I P p Q E) → triple I (λ s, φ ∧ P s) p Q E.
Proof. intros Hp s [Hφ Hs]. exact (Hp Hφ s Hs). Qed.

(** A run stops in the last state it visits. *)
Lemma run_stops_in_trace {S A} (p : prog S A) (s : S) :
  snd (run p s) = default s (last (trace p s)).
Proof.
  revert s. induction p as [a | B m k IH]; intros s; [reflexivity |].
  simpl. destruct (m s) as [[b | e] s']; [| reflexivity].
  rewrite IH, last_cons. destruct (last (trace (k b) s')); reflexivity.
Qed.

(** ** The learners keep their tables in step *)

Lemma dom_setdefault `{Countable K} {V} (k : K) (v : V) (d : gmap K V) :
  dom (setdefault k v d) = {[k]} ∪ dom d.
Proof.
  unfold setdefault. destruct (d !! k) as [x |] eqn:Hk.
  - assert (k ∈ dom d) by (apply elem_of_dom; eauto). set_solver.
  - apply dom_insert_L.
Qed.

Lemma dom_insert_known `{Countable K} {V} (k : K) (v : V) (m : gmap K V) :
  k ∈ dom m → dom (<[k := v]> m) = dom m.
Proof. intros Hk. rewrite dom_insert_L. set_solver. Qed.

Section learners.
Context `{Countable State} `{Countable Action} {G : Type} {R : Rng G}.

(** [add_state] of the actor: the keys of both tables grow by the pairs of
    the call, and the list of the state is the one given. *)
Lemma actor_add_state_dom (p : proc G (acm.TableBasedActor.t State Action))
    (state : State) (actions : list Action) :
  ∃ a',
    acm.TableBasedActor.add_state state actions p = (Ok tt, Proc (rng p) a') ∧
    dom (acm.TableBasedActor.policy a')
    = list_to_set (pair_keys state actions)
      ∪ dom (acm.TableBasedActor.policy (self p)) ∧
    dom (acm.TableBasedActor.eligibilities a')
    = list_to_set (pair_keys state actions)
      ∪ dom (acm.TableBasedActor.eligibilities (self p)) ∧
    acm.TableBasedActor.state_actions a'
    = <[state := actions]> (acm.TableBasedActor.state_actions (self p)).
Proof.
  destruct (add_state_run state actions p) as (P' & E' & Hrun & HP & HE).
  eexists. split; [exact Hrun |]. cbn.
  assert (Hdom : ∀ (d d' : gmap (State * option Action) Q),
    (∀ k, d' !! k =
          match d !! k with
          | Some v => Some v
          | None => if bool_decide (k ∈ pair_keys state actions)
                    then Some 0%Q else None
          end) →
    dom d' = list_to_set (pair_keys state actions) ∪ dom d).
  { intros d d' Hd. apply set_eq. intros k.
    rewrite elem_of_union, elem_of_list_to_set, !elem_of_dom, Hd.
    destruct (d !! k) as [v |].
    - split; [intros _; right; eauto | intros _; eauto].
    - case_bool_decide as Hk.
      + split; [intros _; left; exact Hk | intros _; eauto].
      + split; [intros [? ?]; discriminate |].
        intros [Hk' | [? ?]]; [contradiction | discriminate]. }
  split; [apply Hdom, HP |]. split; [apply Hdom, HE | reflexivity].
Qed.

Lemma actor_add_state_wf (p : proc G (acm.TableBasedActor.t State Action))
    (state : State) (actions : list Action) :
  actor_wf (self p) →
  actor_wf (self (after (acm.TableBasedActor.add_state state actions) p)).
Proof.
  intros Hwf.
  destruct (actor_add_state_dom p state actions)
    as (a' & Hrun & HP & _ & HSA).
  unfold after. rewrite Hrun. cbn [snd self].
  intros s l x Hs Hx. apply elem_of_dom. rewrite HP, elem_of_union.
  rewrite HSA in Hs. rewrite lookup_insert in Hs.
  case_decide as Heq.
  - injection Hs as <-. subst s. left. apply elem_of_list_to_set.
    unfold pair_keys. apply list_elem_of_fmap. exists x. split; [reflexivity | exact Hx].
  - right. apply elem_of_dom. eapply Hwf; eassumption.
Qed.

(** [add_state] of the critic, also when the draw raises. *)
Lemma critic_add_state_cases (p : proc G (acm.TableBasedCritic.t State))
    (state : State) :
  acm.TableBasedCritic.add_state state p =
  match acm.TableBasedCritic.state_values (self p) !! state with
  | Some _ =>
      (Ok tt,
       Proc (rng p)
         (acm.TableBasedCritic.mk
            (acm.TableBasedCritic.state_values (self p))
            (setdefault state 0%Q
               (acm.TableBasedCritic.eligibilities (self p)))))
  | None =>
      match uniform (rng p) with
      | (Ok u, g') =>
          (Ok tt,
           Proc g'
             (acm.TableBasedCritic.mk
                (<[state := u]> (acm.TableBasedCritic.state_values (self p)))
                (setdefault state 0%Q
                   (acm.TableBasedCritic.eligibilities (self p)))))
      | (Raise e, g') => (Raise e, Proc g' (self p))
      end
  end.
Proof.
  destruct p as [g [V E]].
  unfold acm.TableBasedCritic.add_state. method_steps.
  unfold not_in, setdefault.
  destruct (V !! state); simpl.
  - destruct (E !! state); reflexivity.
  - destruct (uniform g) as [[u | e] g']; simpl; [| reflexivity].
    destruct (E !! state); reflexivity.
Qed.

Lemma critic_add_state_dom (p : proc G (acm.TableBasedCritic.t State))
    (state : State) (r : result unit)
    (p' : proc G (acm.TableBasedCritic.t State)) :
  quiet (uniform (G := G)) →
  dom (acm.TableBasedCritic.eligibilities (self p))
  = dom (acm.TableBasedCritic.state_values (self p)) →
  acm.TableBasedCritic.add_state state p = (r, p') →
  dom (acm.TableBasedCritic.eligibilities (self p'))
  = dom (acm.TableBasedCritic.state_values (self p')) ∧
  dom (acm.TableBasedCritic.state_values (self p))
  ⊆ dom (acm.TableBasedCritic.state_values (self p')) ∧
  match r with
  | Ok _ => state ∈ dom (acm.TableBasedCritic.state_values (self p'))
  | Raise e => e ≠ KeyError
  end.
Proof.
  intros Hquiet Hdom. rewrite critic_add_state_cases.
  destruct (_ !! state) as [v |] eqn:HV.
  - intros Hrun. injection Hrun as <- <-.
    cbn [self acm.TableBasedCritic.state_values
         acm.TableBasedCritic.eligibilities].
    assert (Hin : state ∈ dom (acm.TableBasedCritic.state_values (self p)))
      by (apply elem_of_dom; eauto).
    rewrite dom_setdefault, Hdom. set_solver.
  - destruct (uniform (rng p)) as [[u | e] g'] eqn:Hu;
      intros Hrun; injection Hrun as <- <-;
      cbn [self acm.TableBasedCritic.state_values
           acm.TableBasedCritic.eligibilities].
    + rewrite dom_setdefault, dom_insert_L, Hdom. set_solver.
    + split; [exact Hdom |]. split; [reflexivity |].
      intros ->. apply (Hquiet (rng p)). rewrite Hu. reflexivity.
Qed.

(** A proposal for a registered state is one of its actions, or [None] when
    it has none; what it may raise comes from the draws. *)
Lemma propose_action_cases (p : proc G (acm.TableBasedActor.t State Action))
    (state : State) (epsilon : Q) (actions : list Action) :
  (∀ p0 p1, quiet (choice01 (G := G) p0 p1)) →
  (∀ n, quiet (choice_index (G := G) n)) →
  acm.TableBasedActor.state_actions (self p) !! state = Some actions →
  actor_wf (self p) →
  ∃ r g',
    acm.TableBasedActor.propose_action state epsilon p
    = (r, Proc g' (self p)) ∧
    match r with
    | Ok action => proposal_of actions action
    | Raise e => e ≠ KeyError
    end.
Proof.
  intros Hq01 Hqi Hsa Hwf.
  unfold acm.TableBasedActor.propose_action.
  rewrite bind_run. unfold gets_self at 1, gets at 1. cbn [self rng].
  rewrite bind_run, (getitem_Some _ _ _ _ Hsa).
  rewrite bind_run. unfold draw at 1. cbn [self rng].
  destruct (choice01 (1 - epsilon)%Q epsilon (rng p)) as [[b | e] g1] eqn:Hb.
  2:{ exists (Raise e), g1. split; [reflexivity |].
      intros ->. apply (Hq01 (1 - epsilon)%Q epsilon (rng p)).
      rewrite Hb. reflexivity. }
  destruct b.
  - rewrite bind_run. unfold draw at 1. cbn [self rng].
    destruct (choice_index (length actions) g1) as [[i | e] g2] eqn:Hi.
    2:{ exists (Raise e), g2. split; [reflexivity |].
        intros ->. apply (Hqi (length actions) g1). rewrite Hi.
        reflexivity. }
    cbn [self rng].
    destruct (actions !! i) as [a |] eqn:Ha.
    + exists (Ok (Some a)), g2. split; [reflexivity |].
      right. exists a. split; [reflexivity |].
      eapply list_elem_of_lookup_2. exact Ha.
    + exists (Raise IndexError), g2. split; [reflexivity | discriminate].
  - rewrite bind_run.
    destruct actions as [| a0 l0] eqn:Hactions.
    + exists (Ok None), g1. split; [reflexivity |]. left. split; reflexivity.
    + assert (Hne : a0 :: l0 ≠ []) by discriminate.
      rewrite <- Hactions in *.
      destruct (scan_run state actions (Proc g1 (self p)) actions None NegInf
                  Hne) as (best' & m' & Hrun & Hpost).
      { intros a Ha. eapply Hwf; eassumption. }
      rewrite Hrun. exists (Ok best'), g1. split; [reflexivity |].
      destruct Hpost as [(_ & _ & Hall) | (l1 & a & l2 & v & Hl & -> & _)].
      * exfalso. subst actions.
        destruct (Hwf state (a0 :: l0) a0 Hsa) as [v0 Hv0]; [left |].
        specialize (Hall a0 v0). cbn [self] in Hall.
        discriminate Hall; [left | exact Hv0].
      * right. exists a. split; [reflexivity |]. rewrite Hl.
        apply elem_of_app. right. left.
Qed.

End learners.

(** ** The statements of [fit], one by one *)

Section statements.
Context `{Countable State} `{Countable Action} {G : Type} {R : Rng G}.
Context {D : Type} {Dom : environment.Domain D State Action}.
Context {HQ : Quiet G D State Action}.
Import acm.ACM.

Implicit Types (KP : gset (State * option Action)) (KV : gset State).
Implicit Types (SA : gmap State (list Action)) (d : D).

Lemma call_domain_knows {A} KP KV SA d (m : M D A) :
  quiet m →
  triple (S := frame State Action G D) frame_inv (knows KP KV SA d)
    (call_domain m)
    (λ a f, ∃ d', m d = (Ok a, d') ∧ knows KP KV SA d' f) not_KeyError.
Proof.
  intros Hm. apply triple_stmt.
  intros [th a c dd g sp] (Hinv & HKP & HKV & HSA & Hd).
  cbn [domain] in Hd. subst dd. cbn [domain this actor critic gen
    steps_per_episode].
  destruct (m d) as [[x | e] d'] eqn:Hrun; cbn [snd].
  - split; [exact Hinv |]. exists d'. split; [reflexivity |].
    split; [exact Hinv |]. repeat split; assumption.
  - split; [exact Hinv |]. intros ->. apply (Hm d). rewrite Hrun. reflexivity.
Qed.

Lemma gets_this_knows {A} KP KV SA d (g : acm.ACM.t → A) :
  triple (S := frame State Action G D) frame_inv (knows KP KV SA d)
    (gets_this g) (λ _, knows KP KV SA d) not_KeyError.
Proof.
  apply triple_stmt. intros f Hf. split; [apply Hf | exact Hf].
Qed.

Lemma actor_reset_knows KP KV SA d :
  triple (S := frame State Action G D) frame_inv (knows KP KV SA d)
    (call_actor acm.TableBasedActor.reset_eligibilities)
    (λ _, knows KP KV SA d) not_KeyError.
Proof.
  apply triple_stmt.
  intros [th [P Ea SA0] c dd g sp] ([[HA HC] Hwf] & HKP & HKV & HSA & Hd).
  cbn in *.
  assert (Hinv : frame_inv (D := D)
            (Frame th (acm.TableBasedActor.mk P ((λ _, 0%Q) <$> Ea) SA0) c dd
               g sp)).
  { split; [split |]; cbn; [rewrite dom_fmap_L; exact HA | exact HC |
      exact Hwf]. }
  split; [exact Hinv |]. split; [exact Hinv |]. repeat split; assumption.
Qed.

Lemma critic_reset_knows KP KV SA d :
  triple (S := frame State Action G D) frame_inv (knows KP KV SA d)
    (call_critic acm.TableBasedCritic.reset_eligibilities)
    (λ _, knows KP KV SA d) not_KeyError.
Proof.
  apply triple_stmt.
  intros [th a [[V Ec] |] dd g sp] ([[HA HC] Hwf] & HKP & HKV & HSA & Hd);
    cbn in *.
  - assert (Hinv : frame_inv (D := D)
              (Frame th a
                 (acm.TableCritic
                    (acm.TableBasedCritic.mk V ((λ _, 0%Q) <$> Ec))) dd g sp)).
    { split; [split |]; cbn; [exact HA | rewrite dom_fmap_L; exact HC |
        exact Hwf]. }
    split; [exact Hinv |]. split; [exact Hinv |]. repeat split; assumption.
  - split; [| discriminate]. split; [split |]; cbn; auto.
Qed.

Lemma actor_add_state_knows KP KV SA d (state : State)
    (actions : list Action) :
  triple (S := frame State Action G D) frame_inv (knows KP KV SA d)
    (call_actor (acm.TableBasedActor.add_state state actions))
    (λ _, knows (list_to_set (pair_keys state actions) ∪ KP) KV
            {[state := actions]} d)
    not_KeyError.
Proof.
  apply triple_stmt.
  intros [th a c dd g sp] ([[HA HC] Hwf] & HKP & HKV & HSA & Hd).
  cbn [domain this actor critic gen steps_per_episode] in *.
  pose proof (actor_add_state_wf (Proc g a) state actions Hwf) as Hwf'.
  destruct (actor_add_state_dom (Proc g a) state actions)
    as (a' & Hrun & HP & HE & HSA').
  unfold after in Hwf'. rewrite Hrun in *. cbn [fst snd self rng] in *.
  assert (Hinv : frame_inv (D := D) (Frame th a' c dd g sp)).
  { split; [split |]; cbn; [rewrite HP, HE, HA; reflexivity | exact HC |
      exact Hwf']. }
  split; [exact Hinv |]. split; [exact Hinv |].
  cbn [domain this actor critic gen steps_per_episode].
  split; [rewrite HP; set_solver |]. split; [exact HKV |].
  split; [| exact Hd].
  rewrite HSA'. apply map_subseteq_spec. intros s l Hs.
  apply lookup_singleton_Some in Hs as [<- <-]. apply lookup_insert_eq.
Qed.

Lemma critic_add_state_knows KP KV SA d (state : State) :
  triple (S := frame State Action G D) frame_inv (knows KP KV SA d)
    (call_critic (acm.TableBasedCritic.add_state state))
    (λ _, knows KP ({[state]} ∪ KV) SA d) not_KeyError.
Proof.
  apply triple_stmt.
  intros [th a [c |] dd g sp] ([[HA HC] Hwf] & HKP & HKV & HSA & Hd);
    cbn [domain this actor critic gen steps_per_episode] in *.
  - destruct (acm.TableBasedCritic.add_state state (Proc g c)) as [r p']
      eqn:Hrun.
    destruct (critic_add_state_dom (Proc g c) state r p' quiet_uniform HC Hrun)
      as (HC' & Hsub & Hr).
    cbn [self] in Hsub.
    assert (Hinv : frame_inv (D := D)
              (Frame th a (acm.TableCritic (self p')) dd (rng p') sp)).
    { split; [split |]; cbn; assumption. }
    cbn [snd]. split; [exact Hinv |].
    destruct r as [[] | e]; [| exact Hr].
    split; [exact Hinv |].
    cbn [domain this actor critic gen steps_per_episode].
    split; [exact HKP |]. split; [set_solver |]. split; assumption.
  - split; [| discriminate]. split; [split |]; cbn; auto.
Qed.

Lemma propose_action_knows KP KV SA d (state : State) (epsilon : Q)
    (actions : list Action) :
  SA !! state = Some actions →
  triple (S := frame State Action G D) frame_inv (knows KP KV SA d)
    (call_actor (acm.TableBasedActor.propose_action state epsilon))
    (λ action f, knows KP KV SA d f ∧ proposal_of actions action)
    not_KeyError.
Proof.
  intros Hstate. apply triple_stmt.
  intros [th a c dd g sp] ([[HA HC] Hwf] & HKP & HKV & HSA & Hd).
  cbn [domain this actor critic gen steps_per_episode] in *.
  destruct (propose_action_cases (Proc g a) state epsilon actions
              quiet_choice01 quiet_choice_index)
    as (r & g' & Hrun & Hr).
  { eapply lookup_weaken; eassumption. }
  { exact Hwf. }
  rewrite Hrun. cbn [snd self rng].
  assert (Hinv : frame_inv (D := D) (Frame th a c dd g' sp)).
  { split; [split |]; cbn; assumption. }
  split; [exact Hinv |].
  destruct r as [action | e]; [| exact Hr].
  split; [| exact Hr]. split; [exact Hinv |]. repeat split; assumption.
Qed.

Lemma mark_actor_knows KP KV SA d (entry : State * option Action) :
  entry ∈ KP →
  triple (S := frame State Action G D) frame_inv (knows KP KV SA d)
    (mark_actor entry.1 entry.2) (λ _, knows KP KV SA d) not_KeyError.
Proof.
  intros Hentry. apply triple_stmt.
  intros [th [P Ea SA0] c dd g sp] ([[HA HC] Hwf] & HKP & HKV & HSA & Hd).
  cbn in *.
  assert (Hinv : frame_inv (D := D)
            (Frame th
               (acm.TableBasedActor.mk P (<[(entry.1, entry.2) := 1%Q]> Ea)
                  SA0) c dd g sp)).
  { split; [split |]; cbn; [| exact HC | exact Hwf].
    rewrite dom_insert_known; [exact HA |].
    rewrite HA. apply HKP. destruct entry. exact Hentry. }
  split; [exact Hinv |]. split; [exact Hinv |]. repeat split; assumption.
Qed.

Lemma mark_critic_knows KP KV SA d (state : State) :
  state ∈ KV →
  triple (S := frame State Action G D) frame_inv (knows KP KV SA d)
    (mark_critic state) (λ _, knows KP KV SA d) not_KeyError.
Proof.
  intros Hstate. apply triple_stmt.
  intros [th a [[V Ec] |] dd g sp] ([[HA HC] Hwf] & HKP & HKV & HSA & Hd);
    cbn in *.
  - assert (Hinv : frame_inv (D := D)
              (Frame th a
                 (acm.TableCritic
                    (acm.TableBasedCritic.mk V (<[state := 1%Q]> Ec))) dd g
                 sp)).
    { split; [split |]; cbn; [exact HA | | exact Hwf].
      rewrite dom_insert_known; [exact HC |]. rewrite HC. apply HKV, Hstate. }
    split; [exact Hinv |]. split; [exact Hinv |]. repeat split; assumption.
  - split; [| discriminate]. split; [split |]; cbn; auto.
Qed.

Lemma compute_td_error_knows KP KV SA d (current_state successor_state : State)
    (reinforcement discount_rate : Q) :
  current_state ∈ KV → successor_state ∈ KV →
  triple (S := frame State Action G D) frame_inv (knows KP KV SA d)
    (call_critic
       (acm.TableBasedCritic.compute_td_error current_state successor_state
          reinforcement discount_rate))
    (λ _, knows KP KV SA d) not_KeyError.
Proof.
  intros Hcur Hsucc. apply triple_stmt.
  intros [th a [[V Ec] |] dd g sp] Hknows.
  - pose proof Hknows as (Hinv & HKP & HKV & HSA & Hd).
    cbn [domain this actor critic gen steps_per_episode
         acm.TableBasedCritic.state_values] in *.
    rewrite compute_td_error_run.
    cbn [self rng acm.TableBasedCritic.state_values].
    pose proof (HKV _ Hsucc) as Hs1. apply elem_of_dom in Hs1 as [v_succ Hvs].
    pose proof (HKV _ Hcur) as Hs2. apply elem_of_dom in Hs2 as [v_cur Hvc].
    rewrite Hvs, Hvc.
    cbn [fst snd self rng]. split; [exact Hinv | exact Hknows].
  - split; [apply Hknows | discriminate].
Qed.

Lemma update_value_function_knows KP KV SA d (state : State)
    (learning_rate td_error : Q) :
  state ∈ KV →
  triple (S := frame State Action G D) frame_inv (knows KP KV SA d)
    (call_critic
       (acm.TableBasedCritic.update_value_function state learning_rate
          td_error))
    (λ _, knows KP KV SA d) not_KeyError.
Proof.
  intros Hstate. apply triple_stmt.
  intros [th a [[V Ec] |] dd g sp] ([[HA HC] Hwf] & HKP & HKV & HSA & Hd);
    cbn [domain this actor critic gen steps_per_episode
         acm.TableBasedCritic.state_values acm.TableBasedCritic.eligibilities]
      in *.
  - rewrite update_value_function_run.
    cbn [self rng acm.TableBasedCritic.state_values
         acm.TableBasedCritic.eligibilities].
    pose proof (HKV _ Hstate) as HV.
    pose proof HV as HE. rewrite <- HC in HE.
    apply elem_of_dom in HV as [v Hv]. apply elem_of_dom in HE as [e He].
    rewrite Hv, He.
    cbn [fst snd self rng acm.TableBasedCritic.set_value
         acm.TableBasedCritic.state_values acm.TableBasedCritic.eligibilities].
    assert (Hdom : dom (<[state := (v + learning_rate * td_error * e)%Q]> V)
                   = dom V)
      by (apply dom_insert_known, elem_of_dom; eauto).
    assert (Hinv : frame_inv (D := D)
              (Frame th a
                 (acm.TableCritic
                    (acm.TableBasedCritic.mk
                       (<[state := (v + learning_rate * td_error * e)%Q]> V)
                       Ec)) dd g sp)).
    { split; [split |]; cbn; [exact HA | rewrite Hdom; exact HC | exact Hwf]. }
    split; [exact Hinv |]. split; [exact Hinv |].
    cbn [domain this actor critic gen steps_per_episode
         acm.TableBasedCritic.set_value acm.TableBasedCritic.state_values].
    rewrite Hdom. repeat split; assumption.
  - split; [| discriminate]. split; [split |]; cbn; auto.
Qed.

Lemma critic_update_eligibilities_knows KP KV SA d (state : State)
    (discount_rate decay_factor : Q) :
  state ∈ KV →
  triple (S := frame State Action G D) frame_inv (knows KP KV SA d)
    (call_critic
       (acm.TableBasedCritic.update_eligibilities state discount_rate
          decay_factor))
    (λ _, knows KP KV SA d) not_KeyError.
Proof.
  intros Hstate. apply triple_stmt.
  intros [th a [[V Ec] |] dd g sp] ([[HA HC] Hwf] & HKP & HKV & HSA & Hd);
    cbn [domain this actor critic gen steps_per_episode
         acm.TableBasedCritic.state_values acm.TableBasedCritic.eligibilities]
      in *.
  - rewrite critic_update_eligibilities_cases.
    cbn [self rng acm.TableBasedCritic.eligibilities].
    pose proof (HKV _ Hstate) as HE. rewrite <- HC in HE.
    apply elem_of_dom in HE as [e He]. rewrite He.
    cbn [fst snd self rng acm.TableBasedCritic.set_eligibility
         acm.TableBasedCritic.state_values acm.TableBasedCritic.eligibilities].
    assert (Hinv : frame_inv (D := D)
              (Frame th a
                 (acm.TableCritic
                    (acm.TableBasedCritic.mk V
                       (<[state := (e * (discount_rate * decay_factor))%Q]>
                          Ec))) dd g sp)).
    { split; [split |]; cbn; [exact HA | | exact Hwf].
      rewrite dom_insert_known; [exact HC |]. apply elem_of_dom. eauto. }
    split; [exact Hinv |]. split; [exact Hinv |]. repeat split; assumption.
  - split; [| discriminate]. split; [split |]; cbn; auto.
Qed.

Lemma update_policy_knows KP KV SA d (entry : State * option Action)
    (learning_rate td_error : Q) :
  entry ∈ KP →
  triple (S := frame State Action G D) frame_inv (knows KP KV SA d)
    (call_actor
       (acm.TableBasedActor.update_policy entry.1 entry.2 learning_rate
          td_error))
    (λ _, knows KP KV SA d) not_KeyError.
Proof.
  intros Hentry. apply triple_stmt.
  intros [th [P Ea SA0] c dd g sp] ([[HA HC] Hwf] & HKP & HKV & HSA & Hd).
  cbn [domain this actor critic gen steps_per_episode
       acm.TableBasedActor.policy acm.TableBasedActor.eligibilities
       acm.TableBasedActor.state_actions] in *.
  rewrite update_policy_run.
  cbn [self rng acm.TableBasedActor.policy acm.TableBasedActor.eligibilities].
  destruct entry as [s x]. cbn [fst snd].
  pose proof (HKP _ Hentry) as HPk.
  pose proof HPk as HEk. rewrite <- HA in HEk.
  apply elem_of_dom in HPk as [v Hv]. apply elem_of_dom in HEk as [e He].
  rewrite Hv, He.
  cbn [fst snd self rng acm.TableBasedActor.set_policy
       acm.TableBasedActor.policy acm.TableBasedActor.eligibilities
       acm.TableBasedActor.state_actions].
  assert (Hdom : dom (<[(s, x) := (v + learning_rate * td_error * e)%Q]> P)
                 = dom P)
    by (apply dom_insert_known, elem_of_dom; eauto).
  assert (Hinv : frame_inv (D := D)
            (Frame th
               (acm.TableBasedActor.mk
                  (<[(s, x) := (v + learning_rate * td_error * e)%Q]> P) Ea
                  SA0) c dd g sp)).
  { split; [split |];
      [etrans; [exact HA | symmetry; exact Hdom] | exact HC |].
    intros s' l y Hs' Hy. apply elem_of_dom.
    change (acm.TableBasedActor.policy
              (actor (Frame (D := D) th
                 (acm.TableBasedActor.mk
                    (<[(s, x) := (v + learning_rate * td_error * e)%Q]> P) Ea
                    SA0) c dd g sp)))
      with (<[(s, x) := (v + learning_rate * td_error * e)%Q]> P).
    rewrite Hdom. apply elem_of_dom. eapply Hwf; eassumption. }
  split; [exact Hinv |]. split; [exact Hinv |].
  cbn [domain this actor critic gen steps_per_episode
       acm.TableBasedActor.set_policy acm.TableBasedActor.policy
       acm.TableBasedActor.state_actions].
  rewrite Hdom. repeat split; assumption.
Qed.

Lemma actor_update_eligibilities_knows KP KV SA d
    (entry : State * option Action) (discount_rate decay_factor : Q) :
  entry ∈ KP →
  triple (S := frame State Action G D) frame_inv (knows KP KV SA d)
    (call_actor
       (acm.TableBasedActor.update_eligibilities entry.1 entry.2
          discount_rate decay_factor))
    (λ _, knows KP KV SA d) not_KeyError.
Proof.
  intros Hentry. apply triple_stmt.
  intros [th [P Ea SA0] c dd g sp] ([[HA HC] Hwf] & HKP & HKV & HSA & Hd).
  cbn [domain this actor critic gen steps_per_episode
       acm.TableBasedActor.policy acm.TableBasedActor.eligibilities
       acm.TableBasedActor.state_actions] in *.
  rewrite actor_update_eligibilities_cases.
  cbn [self rng acm.TableBasedActor.eligibilities].
  destruct entry as [s x]. cbn [fst snd].
  pose proof (HKP _ Hentry) as HEk. rewrite <- HA in HEk.
  apply elem_of_dom in HEk as [e He]. rewrite He.
  cbn [fst snd self rng acm.TableBasedActor.set_eligibility
       acm.TableBasedActor.policy acm.TableBasedActor.eligibilities
       acm.TableBasedActor.state_actions].
  assert (Hinv : frame_inv (D := D)
            (Frame th
               (acm.TableBasedActor.mk P
                  (<[(s, x) := (e * (discount_rate * decay_factor))%Q]> Ea)
                  SA0) c dd g sp)).
  { split; [split |]; cbn; [| exact HC | exact Hwf].
    rewrite dom_insert_known; [exact HA |]. apply elem_of_dom. eauto. }
  split; [exact Hinv |]. split; [exact Hinv |]. repeat split; assumption.
Qed.

Lemma num_seen_states_knows KP KV SA d :
  triple (S := frame State Action G D) frame_inv (knows KP KV SA d)
    (call_critic acm.TableBasedCritic.num_seen_states)
    (λ _, knows KP KV SA d) not_KeyError.
Proof.
  apply triple_stmt. intros [th a [[V Ec] |] dd g sp] Hknows.
  - split; [apply Hknows | exact Hknows].
  - split; [apply Hknows | discriminate].
Qed.

Lemma decay_epsilon_knows KP KV SA d :
  triple (S := frame State Action G D) frame_inv (knows KP KV SA d)
    decay_epsilon (λ _, knows KP KV SA d) not_KeyError.
Proof.
  apply triple_stmt. intros [th a c dd g sp] Hknows.
  split; [apply Hknows | exact Hknows].
Qed.

Lemma record_steps_knows KP KV SA d (step : nat) :
  triple (S := frame State Action G D) frame_inv (knows KP KV SA d)
    (record_steps step) (λ _, knows KP KV SA d) not_KeyError.
Proof.
  apply triple_stmt. intros [th a c dd g sp] Hknows.
  split; [apply Hknows | exact Hknows].
Qed.

Lemma knows_weaken KP KV SA KP' KV' SA' d (f : frame State Action G D) :
  knows KP KV SA d f → KP' ⊆ KP → KV' ⊆ KV → SA' ⊆ SA →
  knows KP' KV' SA' d f.
Proof.
  intros (Hinv & HKP & HKV & HSA & Hd) HP HV HS.
  split; [exact Hinv |]. split; [set_solver |].
  split; [destruct (critic f); [set_solver | exact I] |].
  split; [| exact Hd]. etrans; eassumption.
Qed.

Lemma frame_inv_knows (f : frame State Action G D) :
  frame_inv f → knows ∅ ∅ ∅ (domain f) f.
Proof.
  intros Hinv. split; [exact Hinv |]. split; [set_solver |].
  split; [destruct (critic f); [set_solver | exact I] |].
  split; [apply map_empty_subseteq | reflexivity].
Qed.

Lemma td_knows KP KV SA d (current_state successor_state : State)
    (reinforcement : Q) :
  current_state ∈ KV → successor_state ∈ KV →
  triple (S := frame State Action G D) frame_inv (knows KP KV SA d)
    (td current_state successor_state reinforcement)
    (λ _, knows KP KV SA d) not_KeyError.
Proof.
  intros Hcur Hsucc. unfold td.
  eapply triple_bind; [apply gets_this_knows | intros self_discount_rate].
  apply compute_td_error_knows; assumption.
Qed.

Lemma credit_knows KP KV SA d (td_error : Q) (entry : State * option Action) :
  entry ∈ KP → entry.1 ∈ KV →
  triple (S := frame State Action G D) frame_inv (knows KP KV SA d)
    (credit td_error entry) (λ _, knows KP KV SA d) not_KeyError.
Proof.
  intros HP HV. unfold credit.
  eapply triple_bind; [apply gets_this_knows | intros ?].
  eapply triple_bind;
    [apply update_value_function_knows; exact HV | intros ?].
  eapply triple_bind; [apply gets_this_knows | intros ?].
  eapply triple_bind; [apply gets_this_knows | intros ?].
  eapply triple_bind;
    [apply critic_update_eligibilities_knows; exact HV | intros ?].
  eapply triple_bind; [apply gets_this_knows | intros ?].
  eapply triple_bind; [apply update_policy_knows; exact HP | intros ?].
  eapply triple_bind; [apply gets_this_knows | intros ?].
  eapply triple_bind; [apply gets_this_knows | intros ?].
  apply actor_update_eligibilities_knows; exact HP.
Qed.

Lemma observe_knows KP KV SA d (current_action : option Action) :
  triple (S := frame State Action G D) frame_inv (knows KP KV SA d)
    (observe current_action)
    (λ seen f,
       ∃ d' actions,
         (offered d' actions ∧ proposal_of actions seen.1.2) ∧
         knows (list_to_set (pair_keys seen.1.1 actions) ∪ KP)
           ({[seen.1.1]} ∪ KV) {[seen.1.1 := actions]} d' f)
    not_KeyError.
Proof.
  unfold observe.
  eapply triple_bind; [apply call_domain_knows, quiet_child | intros child].
  apply triple_exists. intros d'. apply triple_pure. intros Hchild.
  eapply triple_bind; [apply actor_add_state_knows | intros ?].
  eapply triple_bind; [apply critic_add_state_knows | intros ?].
  eapply triple_bind; [apply gets_this_knows | intros self_epsilon].
  eapply triple_bind.
  { apply (propose_action_knows _ _ _ _ _ _ child.1.2).
    apply lookup_singleton_eq. }
  intros successor_action. apply triple_ret.
  intros f [Hknows Hproposal]. exists d', child.1.2. cbn [fst snd].
  split; [| exact Hknows]. split; [| exact Hproposal].
  right. exists d, current_action, child.1.1, child.2.
  rewrite Hchild. destruct child as [[s l] r]. reflexivity.
Qed.

Lemma step_body_knows KP KV SA d (current_state : State)
    (current_action : option Action) (episode : list (State * option Action)) :
  (current_state, current_action) ∈ KP →
  current_state ∈ KV →
  (∀ entry, entry ∈ episode → entry ∈ KP ∧ entry.1 ∈ KV) →
  triple (S := frame State Action G D) frame_inv (knows KP KV SA d)
    (step_body current_state current_action episode)
    (λ next f, loop_inv next.1.1 next.1.2 next.2 f) not_KeyError.
Proof.
  intros Hpair Hstate Hepisode. unfold step_body.
  eapply triple_bind; [apply observe_knows | intros seen].
  apply triple_exists. intros d'. apply triple_exists. intros actions.
  apply triple_pure. intros [Hoffered Hproposal].
  set (KP1 := list_to_set (pair_keys seen.1.1 actions) ∪ KP).
  set (KV1 := {[seen.1.1]} ∪ KV).
  assert (Hpair1 : (current_state, current_action) ∈ KP1)
    by (unfold KP1; set_solver).
  assert (Hstate1 : current_state ∈ KV1) by (unfold KV1; set_solver).
  eapply triple_bind.
  { apply (mark_actor_knows _ _ _ _ (current_state, current_action) Hpair1). }
  intros ?.
  eapply triple_bind.
  { apply td_knows; [exact Hstate1 | unfold KV1; set_solver]. }
  intros td_error.
  eapply triple_bind; [apply mark_critic_knows; exact Hstate1 | intros ?].
  eapply triple_bind.
  { apply triple_for_each. intros entry Hentry.
    apply elem_of_app in Hentry as [Hentry | Hentry].
    - destruct (Hepisode entry Hentry) as [HP HV].
      apply credit_knows; [unfold KP1; set_solver | unfold KV1; set_solver].
    - apply list_elem_of_singleton in Hentry as ->.
      apply credit_knows; assumption. }
  intros ?. apply triple_ret. intros f Hknows. cbn [fst snd].
  exists KP1, KV1, actions, d'. split; [| exact Hknows].
  split; [exact Hoffered |]. split; [exact Hproposal |].
  split; [unfold KV1; set_solver |].
  intros entry Hentry. apply elem_of_app in Hentry as [Hentry | Hentry].
  - destruct (Hepisode entry Hentry) as [HP HV].
    split; [unfold KP1; set_solver | unfold KV1; set_solver].
  - apply list_elem_of_singleton in Hentry as ->. split; assumption.
Qed.

(** A proposal that is an action is a registered pair. *)
Lemma knows_proposal KP KV d (state : State) (actions : list Action)
    (a : Action) (f : frame State Action G D) :
  knows KP KV {[state := actions]} d f → a ∈ actions →
  knows ({[(state, Some a)]} ∪ KP) KV {[state := actions]} d f.
Proof.
  intros (Hinv & HKP & HKV & HSA & Hd) Ha.
  split; [exact Hinv |]. split; [| repeat split; assumption].
  apply union_subseteq. split; [| exact HKP].
  apply singleton_subseteq_l, elem_of_dom.
  destruct Hinv as [_ Hwf]. apply (Hwf state actions a); [| exact Ha].
  eapply lookup_weaken; [apply lookup_singleton_eq | exact HSA].
Qed.

Section contract.
Context {HC : DomainContract D State Action}.

Lemma while_loop_knows (budget step : nat) (current_state : State)
    (current_action : option Action) (episode : list (State * option Action)) :
  triple (S := frame State Action G D) frame_inv
    (loop_inv current_state current_action episode)
    (while_loop budget step current_state current_action episode)
    (λ _, frame_inv) not_KeyError.
Proof.
  revert step current_state current_action episode.
  induction budget as [| budget IH]; intros step cs ca episode.
  - rewrite while_loop_O. apply triple_ret.
    intros f (KP & KV & l & d & _ & Hknows). apply Hknows.
  - rewrite while_loop_S. unfold loop_inv.
    apply triple_exists. intros KP. apply triple_exists. intros KV.
    apply triple_exists. intros l. apply triple_exists. intros d.
    apply triple_pure. intros (Hoffered & Hproposal & Hstate & Hepisode).
    eapply triple_bind;
      [apply call_domain_knows, quiet_terminal | intros terminal].
    apply triple_exists. intros d'. apply triple_pure. intros Hterminal.
    destruct terminal.
    + apply triple_ret. intros f Hknows. apply Hknows.
    + pose proof (offers_an_action d d' l Hoffered Hterminal) as Hne.
      destruct Hproposal as [[_ ->] | (a & -> & Ha)]; [congruence |].
      eapply triple_bind; [| intros next; apply IH].
      eapply triple_weaken.
      * apply (step_body_knows ({[(cs, Some a)]} ∪ KP) KV {[cs := l]} d').
        -- set_solver.
        -- exact Hstate.
        -- intros entry Hentry. destruct (Hepisode entry Hentry).
           split; [set_solver | assumption].
      * intros f Hknows. apply knows_proposal; assumption.
      * intros next f Hinv. exact Hinv.
Qed.

Lemma episode_init_knows KP KV SA d :
  triple (S := frame State Action G D) frame_inv (knows KP KV SA d)
    episode_init (λ start f, loop_inv start.1 start.2 [] f) not_KeyError.
Proof.
  unfold episode_init.
  eapply triple_bind; [apply actor_reset_knows | intros ?].
  eapply triple_bind; [apply critic_reset_knows | intros ?].
  eapply triple_bind;
    [apply call_domain_knows, quiet_initial | intros initial].
  apply triple_exists. intros d'. apply triple_pure. intros Hinitial.
  eapply triple_bind; [apply actor_add_state_knows | intros ?].
  eapply triple_bind; [apply critic_add_state_knows | intros ?].
  eapply triple_bind; [apply gets_this_knows | intros self_epsilon].
  eapply triple_bind.
  { apply (propose_action_knows _ _ _ _ _ _ initial.2).
    apply lookup_singleton_eq. }
  intros current_action. apply triple_ret.
  intros f [Hknows Hproposal]. cbn [fst snd].
  eexists _, _, initial.2, d'. split; [| exact Hknows].
  split.
  { left. exists d, initial.1. rewrite Hinitial.
    destruct initial; reflexivity. }
  split; [exact Hproposal |]. split; [set_solver |].
  intros entry Hentry. apply elem_of_nil in Hentry. contradiction.
Qed.

Lemma episode_body_inv (episode_count : nat) :
  triple (S := frame State Action G D) frame_inv frame_inv
    (episode_body episode_count) (λ _, frame_inv) not_KeyError.
Proof.
  unfold episode_body.
  eapply triple_bind.
  { eapply triple_weaken with (P' := λ f, ∃ d, knows ∅ ∅ ∅ d f).
    - apply triple_exists. intros d. apply episode_init_knows.
    - intros f Hinv. exists (domain f). apply frame_inv_knows, Hinv.
    - intros start f Hloop. exact Hloop. }
  intros start.
  assert (Hexists : ∀ (p : prog (frame State Action G D) nat),
    (∀ KP KV SA d, triple frame_inv (knows KP KV SA d) p
                     (λ _, frame_inv) not_KeyError) →
    triple frame_inv (loop_inv start.1 start.2 []) p (λ _, frame_inv)
      not_KeyError).
  { intros p Hp f (KP & KV & l & d & _ & Hknows). eapply Hp, Hknows. }
  eapply triple_bind with (Q1 := λ _, loop_inv start.1 start.2 []).
  { intros f Hloop. unfold gets_this. rewrite trace_stmt, run_stmt.
    pose proof Hloop as (KP & KV & l & d & _ & Hknows).
    split; [repeat constructor; apply Hknows | exact Hloop]. }
  intros self_steps.
  eapply triple_bind; [apply while_loop_knows | intros step].
  assert (Hrest : ∀ {A} (p : prog (frame State Action G D) A),
    (∀ d, triple frame_inv (knows ∅ ∅ ∅ d) p (λ _, knows ∅ ∅ ∅ d)
            not_KeyError) →
    triple frame_inv frame_inv p (λ _, frame_inv) not_KeyError).
  { intros A p Hp f Hinv.
    destruct (Hp (domain f) f (frame_inv_knows f Hinv)) as [Htrace Hrun].
    split; [exact Htrace |].
    destruct (run p f) as [[a | e] f']; [apply Hrun | exact Hrun]. }
  eapply triple_bind;
    [apply Hrest; intros d; apply decay_epsilon_knows | intros ?].
  eapply triple_bind;
    [apply Hrest; intros d; apply gets_this_knows | intros ?].
  eapply triple_bind.
  { unfold when. destruct (_ || _).
    - eapply triple_weaken with (P' := λ f, ∃ d, knows ∅ ∅ ∅ d f)
                                (Q' := λ _, frame_inv).
      + apply triple_exists. intros d. eapply triple_weaken.
        * apply call_domain_knows, quiet_visualise.
        * intros f Hf. exact Hf.
        * intros ? f (d' & _ & Hknows). apply Hknows.
      + intros f Hinv. exists (domain f). apply frame_inv_knows, Hinv.
      + intros ? f Hinv. exact Hinv.
    - apply triple_ret. intros f Hinv. exact Hinv. }
  intros ?.
  eapply triple_bind;
    [apply Hrest; intros d; apply record_steps_knows | intros ?].
  eapply triple_bind;
    [apply Hrest; intros d; apply num_seen_states_knows | intros ?].
  apply triple_ret. intros f Hinv. exact Hinv.
Qed.

Lemma episodes_inv :
  triple (S := frame State Action G D) frame_inv frame_inv episodes
    (λ _, frame_inv) not_KeyError.
Proof.
  unfold episodes.
  eapply triple_bind with (Q1 := λ _, frame_inv).
  { apply triple_stmt. intros f Hinv. split; exact Hinv. }
  intros self_max_episodes. apply triple_for_each.
  intros episode_count _. apply episode_body_inv.
Qed.


End contract.

End statements.

(** The two-state task and the counter generator meet the assumptions. *)
Lemma two_state_quiet :
  @Quiet nat bool string string demo.counter_rng demo.two_state.
Proof.
  split; intros; intros s; simpl; try discriminate.
  - destruct (_ && _); discriminate.
  - destruct n; discriminate.
Qed.

Lemma two_state_contract :
  @DomainContract bool string string demo.two_state.
Proof.
  split. intros d d' actions [(d0 & state & Hcall) | (d0 & a & state & r & Hcall)]
    _; simpl in Hcall; injection Hcall as _ <- _; discriminate.
Qed.



(** ** Unregistered keys *)

Section keys.
Context `{Countable State} `{Countable Action} {G : Type} {R : Rng G}.

Lemma actor_built_dom (S : gset State) (K : gset (State * option Action))
    (a : acm.TableBasedActor.t State Action) :
  actor_built (G := G) S K a →
  dom (acm.TableBasedActor.state_actions a) = S ∧
  dom (acm.TableBasedActor.policy a) = K ∧
  dom (acm.TableBasedActor.eligibilities a) = K ∧
  actor_wf a.
Proof.
  induction 1 as [| S K a g state actions Hbuilt IH
                  | S K a g Hbuilt IH
                  | S K a g state action lr δ Hbuilt IH
                  | S K a g state action discount decay Hbuilt IH
                  | S K a entry Hbuilt IH Hentry];
    try destruct IH as (HS & HP & HE & Hwf).
  - repeat split; try apply dom_empty_L.
    intros state actions action Hstate.
    change ((∅ : gmap State (list Action)) !! state = Some actions) in Hstate.
    rewrite lookup_empty in Hstate. discriminate.
  - pose proof (actor_add_state_wf (Proc g a) state actions Hwf) as Hwf'.
    destruct (actor_add_state_dom (Proc g a) state actions)
      as (a' & Hrun & HP' & HE' & HSA').
    unfold after in *. rewrite Hrun in *. cbn [snd self] in *.
    split; [rewrite HSA', dom_insert_L, HS; reflexivity |].
    split; [rewrite HP', HP; reflexivity |].
    split; [rewrite HE', HE; reflexivity | exact Hwf'].
  - destruct a as [P E SA]. cbn in *.
    split; [exact HS |]. split; [exact HP |].
    split; [rewrite dom_fmap_L; exact HE | exact Hwf].
  - unfold after. rewrite update_policy_run. cbn [self rng].
    destruct (_ !! (state, action)) as [v |] eqn:Hv;
      [| repeat split; assumption].
    destruct (acm.TableBasedActor.eligibilities a !! (state, action))
      as [e |]; [| repeat split; assumption].
    destruct a as [P E SA].
    cbn [snd self acm.TableBasedActor.set_policy acm.TableBasedActor.policy
         acm.TableBasedActor.eligibilities acm.TableBasedActor.state_actions]
      in *.
    assert (Hdom : dom (<[(state, action) := (v + lr * δ * e)%Q]> P) = dom P)
      by (apply dom_insert_known, elem_of_dom; eauto).
    split; [exact HS |]. split; [rewrite Hdom; exact HP |].
    split; [exact HE |].
    intros s l x Hs Hx. apply elem_of_dom.
    cbn [acm.TableBasedActor.policy acm.TableBasedActor.set_policy].
    rewrite Hdom. apply elem_of_dom. eapply Hwf; eassumption.
  - unfold after. rewrite actor_update_eligibilities_cases. cbn [self rng].
    destruct (_ !! (state, action)) as [e |] eqn:He;
      [| repeat split; assumption].
    destruct a as [P E SA].
    cbn [snd self acm.TableBasedActor.set_eligibility
         acm.TableBasedActor.policy acm.TableBasedActor.eligibilities
         acm.TableBasedActor.state_actions] in *.
    split; [exact HS |]. split; [exact HP |]. split; [| exact Hwf].
    rewrite dom_insert_known; [exact HE |]. apply elem_of_dom. eauto.
  - destruct a as [P E SA].
    cbn [acm.TableBasedActor.set_eligibility acm.TableBasedActor.policy
         acm.TableBasedActor.eligibilities acm.TableBasedActor.state_actions]
      in *.
    split; [exact HS |]. split; [exact HP |]. split; [| exact Hwf].
    rewrite dom_insert_known; [exact HE |]. rewrite HE. exact Hentry.
Qed.

Lemma critic_built_dom (S : gset State) (c : acm.TableBasedCritic.t State) :
  critic_built (G := G) S c →
  dom (acm.TableBasedCritic.state_values c) = S ∧
  dom (acm.TableBasedCritic.eligibilities c) = S.
Proof.
  induction 1 as [| S c g state Hbuilt IH Hok
                  | S c g state e Hbuilt IH Hraise
                  | S c g Hbuilt IH
                  | S c g state lr δ Hbuilt IH
                  | S c g state discount decay Hbuilt IH
                  | S c state Hbuilt IH Hstate];
    try destruct IH as [HV HE].
  - split; apply dom_empty_L.
  - unfold after. rewrite critic_add_state_cases in *. cbn [self rng] in *.
    destruct (_ !! state) as [v |] eqn:Hv.
    + assert (state ∈ S) by (rewrite <- HV; apply elem_of_dom; eauto).
      cbn [snd self acm.TableBasedCritic.state_values
           acm.TableBasedCritic.eligibilities].
      rewrite dom_setdefault, HV, HE. split; set_solver.
    + destruct (uniform g) as [[u | e] g']; [| discriminate].
      cbn [snd self acm.TableBasedCritic.state_values
           acm.TableBasedCritic.eligibilities].
      rewrite dom_setdefault, dom_insert_L, HV, HE. split; reflexivity.
  - unfold after. rewrite critic_add_state_cases in *. cbn [self rng] in *.
    destruct (_ !! state) as [v |] eqn:Hv; [discriminate |].
    destruct (uniform g) as [[u | e'] g']; [discriminate |].
    split; assumption.
  - destruct c as [V E]. cbn in *. rewrite dom_fmap_L. split; assumption.
  - unfold after. rewrite update_value_function_run. cbn [self rng].
    destruct (_ !! state) as [v |] eqn:Hv; [| split; assumption].
    destruct (acm.TableBasedCritic.eligibilities c !! state) as [e |];
      [| split; assumption].
    destruct c as [V E].
    cbn [snd self acm.TableBasedCritic.set_value
         acm.TableBasedCritic.state_values acm.TableBasedCritic.eligibilities]
      in *.
    split; [| exact HE].
    rewrite dom_insert_known; [exact HV |]. apply elem_of_dom. eauto.
  - unfold after. rewrite critic_update_eligibilities_cases. cbn [self rng].
    destruct (_ !! state) as [e |] eqn:He; [| split; assumption].
    destruct c as [V E].
    cbn [snd self acm.TableBasedCritic.set_eligibility
         acm.TableBasedCritic.state_values acm.TableBasedCritic.eligibilities]
      in *.
    split; [exact HV |].
    rewrite dom_insert_known; [exact HE |]. apply elem_of_dom. eauto.
  - destruct c as [V E].
    cbn [acm.TableBasedCritic.set_eligibility
         acm.TableBasedCritic.state_values acm.TableBasedCritic.eligibilities]
      in *.
    split; [exact HV |].
    rewrite dom_insert_known; [exact HE |]. rewrite HE. exact Hstate.
Qed.

Lemma propose_action_unregistered
    (p : proc G (acm.TableBasedActor.t State Action)) (state : State)
    (epsilon : Q) :
  acm.TableBasedActor.state_actions (self p) !! state = None →
  acm.TableBasedActor.propose_action state epsilon p = (Raise KeyError, p).
Proof.
  intros Hstate. unfold acm.TableBasedActor.propose_action.
  rewrite bind_run. unfold gets_self at 1, gets at 1. cbn [self rng].
  rewrite bind_run, (getitem_None _ _ _ Hstate). reflexivity.
Qed.

Lemma propose_action_registered
    (p : proc G (acm.TableBasedActor.t State Action)) (state : State)
    (epsilon : Q) (actions : list Action) :
  acm.TableBasedActor.state_actions (self p) !! state = Some actions →
  actor_wf (self p) →
  draws_go_well epsilon actions (rng p) →
  ∃ r g', acm.TableBasedActor.propose_action state epsilon p
          = (Ok r, Proc g' (self p)).
Proof.
  intros Hsa Hwf (explore & g1 & Hexplore & Hindex).
  unfold acm.TableBasedActor.propose_action.
  rewrite bind_run. unfold gets_self at 1, gets at 1. cbn [self rng].
  rewrite bind_run, (getitem_Some _ _ _ _ Hsa).
  rewrite bind_run. unfold draw at 1. cbn [self rng]. rewrite Hexplore.
  destruct explore.
  - destruct (Hindex eq_refl) as (i & g2 & Hi & Hlt).
    rewrite bind_run. unfold draw at 1. cbn [self rng]. rewrite Hi.
    cbn [self rng].
    destruct (lookup_lt_is_Some_2 actions i Hlt) as [a Ha]. rewrite Ha.
    exists (Some a), g2. reflexivity.
  - rewrite bind_run.
    destruct actions as [| a0 l0] eqn:Hactions.
    + exists None, g1. reflexivity.
    + assert (Hne : a0 :: l0 ≠ []) by discriminate.
      rewrite <- Hactions in *.
      destruct (scan_run state actions (Proc g1 (self p)) actions None NegInf
                  Hne) as (best' & m' & Hrun & _).
      { intros a Ha. eapply Hwf; eassumption. }
      rewrite Hrun. exists best', g1. reflexivity.
Qed.


End keys.


(** ** The orchestrator of [rl/core.py] *)

(** C9.  The orchestrator of [rl/core.py] cannot be run: importing the
    module raises [ModuleNotFoundError] at [from rl.env import Domain],
    since the package has no module [env], so every use of its [fit] ends
    there, before the class exists.  The import of [rl/acm.py] finds its
    module.  Were the module imported, [fit] of [rl/core.py] would end in
    [TypeError] at its first statement for every configuration: it calls
    the constructor of [rl/actor.py], which takes a learning rate and an
    exploration rate, without arguments.  [fit] of [rl/acm.py] returns
    normally on the two-state task.  The two orchestrators are not
    equivalent. *)
Theorem core_fit_raises :
  core.imports = Raise ModuleNotFoundError ∧
  acm.imports = Ok tt ∧
  (∀ `{Countable Action} (self : acm.ACM.t),
     core.ACM.imported_fit (Action := Action) self
     = Raise ModuleNotFoundError) ∧
  (∀ `{Countable Action} (self : acm.ACM.t),
     core.ACM.fit (Action := Action) self = Raise TypeError) ∧
  fst (acm.ACM.fit (Dom := demo.two_state) (demo.config 0 1 (1 # 2)) false
         0%nat) = Ok tt ∧
  fst (acm.ACM.fit (Dom := demo.two_state) (demo.config 3 1 (1 # 2)) false
         0%nat) = Ok tt.
Proof.
  split; [vm_compute; reflexivity |]. split; [vm_compute; reflexivity |].
  split; [intros; reflexivity |]. split; [intros; reflexivity |].
  split; vm_compute; reflexivity.
Qed.

(** ** What a proposal can be *)

Section legal_proposals.
Context `{Countable State} `{Countable Action} {G : Type} {R : Rng G}.
Import acm.TableBasedActor.

(** The greedy scan reads only: it leaves the actor and the generator as
    they are and raises nothing but [KeyError]; a candidate that is an
    action of [actions] stays one, and from [-math.inf] the first action
    scanned becomes the candidate. *)
Lemma scan_reads_only (state : State) (actions l : list Action)
    (locals : option Action * bound) (p : proc G (t State Action)) :
  l ⊆ actions →
  ∃ r, for_fold l (scan_body state actions) locals p = (r, p) ∧
       match r with
       | Ok locals' =>
           (l = [] → locals' = locals) ∧
           ((∃ a, a ∈ actions ∧ fst locals = Some a) →
            ∃ a, a ∈ actions ∧ fst locals' = Some a) ∧
           (snd locals = NegInf → l ≠ [] →
            ∃ a, a ∈ actions ∧ fst locals' = Some a)
       | Raise e => e = KeyError
       end.
Proof.
  revert locals. induction l as [| a l IH]; intros locals Hsub.
  - exists (Ok locals). split; [reflexivity |].
    split; [reflexivity |]. split; [auto | congruence].
  - assert (Ha : a ∈ actions) by (apply Hsub; left).
    assert (Hl : l ⊆ actions) by (intros x Hx; apply Hsub; right; exact Hx).
    change (for_fold (a :: l) (scan_body (G := G) state actions) locals)
      with (locals' ← scan_body (G := G) state actions a locals;
            for_fold l (scan_body state actions) locals').
    rewrite bind_run. unfold scan_body at 1.
    rewrite bind_run. unfold gets_self at 1, gets at 1. cbn [self rng].
    rewrite bind_run. unfold getitem at 1.
    destruct (policy (self p) !! (state, Some a)) as [v |];
      [| exists (Raise KeyError); split; reflexivity].
    unfold mret at 1, M_ret at 1. rewrite bind_run.
    destruct (length actions) as [| n] eqn:Hn.
    { destruct actions; [apply elem_of_nil in Ha; contradiction |
                         discriminate]. }
    unfold truediv at 1. unfold mret at 1, M_ret at 1.
    destruct (gt _ (snd locals)) eqn:Hgt.
    + unfold mret at 1, M_ret at 1.
      destruct (IH (Some a, Fin (v / inject_Z (Z.of_nat (S n)))%Q) Hl)
        as (r & Hrun & Hr).
      exists r. split; [exact Hrun |].
      destruct r as [locals' | e]; [| exact Hr].
      destruct Hr as (_ & Hgood & _).
      assert (Hnow : ∃ x, x ∈ actions ∧ fst locals' = Some x)
        by (apply Hgood; exists a; split; [exact Ha | reflexivity]).
      split; [discriminate |]. split; intros; exact Hnow.
    + unfold mret at 1, M_ret at 1.
      destruct (IH locals Hl) as (r & Hrun & Hr).
      exists r. split; [exact Hrun |].
      destruct r as [locals' | e]; [| exact Hr].
      destruct Hr as (_ & Hgood & _).
      split; [discriminate |]. split; [exact Hgood |].
      intros Hinf. rewrite Hinf in Hgt. discriminate.
Qed.

(** How a call of [propose_action] can end, whatever the generator
    does. *)
Lemma propose_action_outcome (state : State) (epsilon : Q)
    (p p' : proc G (t State Action)) (r : result (option Action)) :
  propose_action state epsilon p = (r, p') →
  self p' = self p ∧
  match r with
  | Ok action =>
      ∃ actions, state_actions (self p) !! state = Some actions ∧
                 proposal_of actions action
  | Raise e =>
      e = KeyError ∨
      (∃ g, fst (choice01 (1 - epsilon)%Q epsilon g) = Raise e) ∨
      (∃ n g, fst (choice_index n g) = Raise e) ∨
      (∃ n g i g', choice_index n g = (Ok i, g') ∧ ¬ i < n)
  end.
Proof.
  unfold propose_action.
  rewrite bind_run. unfold gets_self at 1, gets at 1. cbn [self rng].
  rewrite bind_run. unfold getitem at 1.
  destruct (state_actions (self p) !! state) as [actions |] eqn:Hsa.
  2:{ intros Hrun. injection Hrun as <- <-. split; [reflexivity |].
      left. reflexivity. }
  unfold mret at 1, M_ret at 1.
  rewrite bind_run. unfold draw at 1. cbn [self rng].
  destruct (choice01 (1 - epsilon)%Q epsilon (rng p)) as [[b | e] g1] eqn:Hb.
  2:{ intros Hrun. injection Hrun as <- <-. split; [reflexivity |].
      right. left. exists (rng p). rewrite Hb. reflexivity. }
  destruct b.
  - rewrite bind_run. unfold draw at 1. cbn [self rng].
    destruct (choice_index (length actions) g1) as [[i | e] g2] eqn:Hi.
    2:{ intros Hrun. injection Hrun as <- <-. split; [reflexivity |].
        right. right. left. exists (length actions), g1. rewrite Hi.
        reflexivity. }
    cbn [self rng].
    destruct (actions !! i) as [a |] eqn:Ha.
    + intros Hrun. injection Hrun as <- <-. split; [reflexivity |].
      exists actions. split; [reflexivity |]. right. exists a.
      split; [reflexivity |]. eapply list_elem_of_lookup_2. exact Ha.
    + intros Hrun. injection Hrun as <- <-. split; [reflexivity |].
      right. right. right. exists (length actions), g1, i, g2.
      split; [exact Hi |]. apply lookup_ge_None in Ha. lia.
  - rewrite bind_run.
    destruct (scan_reads_only state actions actions (None, NegInf)
                (Proc g1 (self p))) as (r' & Hrun' & Hr'); [done |].
    rewrite Hrun'. destruct r' as [locals' | e].
    + intros Hrun. injection Hrun as <- <-. split; [reflexivity |].
      exists actions. split; [reflexivity |].
      destruct Hr' as (Hnil & _ & Hcons).
      destruct actions as [| a0 l0].
      * left. rewrite (Hnil eq_refl). split; reflexivity.
      * right. destruct (Hcons eq_refl) as (a & Ha & Hbest); [discriminate |].
        exists a. split; [exact Hbest | exact Ha].
    + intros Hrun. injection Hrun as <- <-. split; [reflexivity |].
      left. exact Hr'.
Qed.

(** X5.  [propose_action] reads only: it never changes the actor.  It
    returns only for a registered state, and it returns [None] when that
    state has no legal action.  When it raises, the exception is
    [KeyError] or one raised by a draw of numpy. *)
Theorem propose_action_reads_only `{!RngLaws G} (state : State) (epsilon : Q)
    (p p' : proc G (t State Action)) (r : result (option Action)) :
  propose_action state epsilon p = (r, p') →
  self p' = self p ∧
  match r with
  | Ok action =>
      ∃ actions, state_actions (self p) !! state = Some actions ∧
                 (actions = [] → action = None)
  | Raise e =>
      e = KeyError ∨
      (∃ g, fst (choice01 (1 - epsilon)%Q epsilon g) = Raise e) ∨
      (∃ n g, fst (choice_index n g) = Raise e)
  end.
Proof.
  intros Hrun.
  destruct (propose_action_outcome state epsilon p p' r Hrun) as [Hself Hr].
  split; [exact Hself |]. destruct r as [action | e].
  - destruct Hr as (actions & Hsa & Hlegal). exists actions.
    split; [exact Hsa |]. intros ->.
    destruct Hlegal as [[-> _] | (a & _ & Ha)]; [reflexivity |].
    apply elem_of_nil in Ha. contradiction.
  - destruct Hr as [Hr | [Hr | [Hr | (n & g & i & g' & Hi & Hge)]]];
      [left; exact Hr | right; left; exact Hr | right; right; exact Hr |].
    exfalso. apply Hge. eapply choice_index_lt. exact Hi.
Qed.

End legal_proposals.

(** ** Runs that never reach the learners' tables *)

Section short_runs.
Context `{Countable State} `{Countable Action} {G : Type} {R : Rng G}.
Context {D : Type} {Dom : environment.Domain D State Action}.
Import acm.ACM.

(** X1.  A run without episodes returns at once and leaves actor, critic,
    domain and generator untouched.  With a [critic_type] other than
    ["table"] the critic is an [NNBasedCritic], which has no method: the
    first episode raises [AttributeError] at [critic.reset_eligibilities()],
    before the domain or the generator is called, and the actor is still
    empty. *)
Theorem fit_without_table_critic (self : acm.ACM.t) (d : D) (g : G) :
  (max_episodes self = 0%nat →
   fit (State := State) (Action := Action) self d g
   = (Ok tt, enter self d g) ∧
   fit_trace (State := State) (Action := Action) self d g
   = [enter self d g]) ∧
  (critic_type self ≠ "table" → max_episodes self ≠ 0%nat →
   fit (State := State) (Action := Action) self d g
   = (Raise AttributeError, enter self d g) ∧
   fit_trace (State := State) (Action := Action) self d g
   = [enter self d g; enter self d g; enter self d g]).
Proof.
  split.
  - intros Hmax. unfold fit, fit_trace, episodes.
    rewrite run_bind, trace_bind. unfold gets_this.
    rewrite run_stmt, trace_stmt. unfold gets. cbn [fst snd enter this].
    rewrite Hmax. split; reflexivity.
  - intros Htype Hmax. unfold fit, fit_trace, episodes.
    rewrite run_bind, trace_bind. unfold gets_this.
    rewrite run_stmt, trace_stmt. unfold gets. cbn [fst snd enter this].
    destruct (max_episodes self) as [| n] eqn:Hn; [congruence |].
    assert (Heqb : String.eqb (critic_type self) "table" = false)
      by (apply String.eqb_neq; exact Htype).
    assert (Henter : enter (State := State) (Action := Action) self d g
                     = Frame self acm.TableBasedActor.init acm.NNCritic d g [])
      by (unfold enter; rewrite Heqb; reflexivity).
    rewrite Henter.
    set (f := Frame self acm.TableBasedActor.init acm.NNCritic d g []).
    assert (Hinit : run (episode_init (D := D)) f = (Raise AttributeError, f)
                    ∧ trace (episode_init (D := D)) f = [f; f])
      by (split; reflexivity).
    destruct Hinit as [Hrun Htrace].
    change (for_each (seq 0 (S n)) episode_body)
      with (episode_body (D := D) 0 ;; for_each (seq 1 n) episode_body).
    rewrite run_bind, trace_bind. unfold episode_body.
    rewrite run_bind, trace_bind, Hrun, Htrace. split; reflexivity.
Qed.

End short_runs.

(** ** Resets and counts *)

Section resets.
Context `{Countable State} `{Countable Action} {G : Type} {R : Rng G}.


(** X8.  [num_seen_states] returns the number of distinct states that have
    passed through [add_state], and changes nothing. *)
Theorem num_seen_states_counts (S : gset State)
    (c : acm.TableBasedCritic.t State) (g : G) :
  critic_built (G := G) S c →
  acm.TableBasedCritic.num_seen_states (Proc g c) = (Ok (size S), Proc g c).
Proof.
  intros Hbuilt. destruct (critic_built_dom S c Hbuilt) as [HV _].
  unfold acm.TableBasedCritic.num_seen_states, gets_self, gets.
  cbn [self rng]. rewrite <- HV, size_dom. reflexivity.
Qed.

End resets.

(** ** The two actors *)

Section two_actors_facts.
Context {State : Type} (hash_tuple : State → Z).
Context `{Countable Action} {G : Type} {R : Rng G}.

Lemma tables_with_rates (learning_rate epsilon : Q)
    (q : proc G (acm.TableBasedActor.t Z Action)) :
  Proc (rng q) (actor_tables (with_rates learning_rate epsilon (self q))) = q.
Proof. destruct q as [g [P E SA]]. reflexivity. Qed.

Lemma mirrors_bind {A B} (learning_rate epsilon : Q)
    (m : M (proc G (actor.TableBasedActor.t Action)) A)
    (k : A → M (proc G (actor.TableBasedActor.t Action)) B)
    (m' : M (proc G (acm.TableBasedActor.t Z Action)) A)
    (k' : A → M (proc G (acm.TableBasedActor.t Z Action)) B) :
  mirrors learning_rate epsilon m m' →
  (∀ a, mirrors learning_rate epsilon (k a) (k' a)) →
  mirrors learning_rate epsilon (m ≫= k) (m' ≫= k').
Proof.
  intros Hm Hk p Hlr Heps. rewrite bind_run, (Hm p Hlr Heps).
  unfold on_tables at 1 2. rewrite bind_run.
  destruct (m' _) as [[a | e] q]; [| reflexivity].
  rewrite (Hk a); [| exact Hlr | exact Heps].
  unfold on_tables. cbn [self rng]. rewrite tables_with_rates.
  reflexivity.
Qed.

Lemma mirrors_ret {A} (learning_rate epsilon : Q) (a : A) :
  mirrors (G := G) (Action := Action) learning_rate epsilon (mret a) (mret a).
Proof. intros [g [P E SA lr eps]] _ _. reflexivity. Qed.

Lemma mirrors_raise {A} (learning_rate epsilon : Q) (e : exn) :
  mirrors (G := G) (Action := Action) (A := A) learning_rate epsilon
    (raise e) (raise e).
Proof. intros [g [P E SA lr eps]] _ _. reflexivity. Qed.

Lemma mirrors_getitem `{Countable K} {V} (learning_rate epsilon : Q)
    (d : gmap K V) (k : K) :
  mirrors (G := G) (Action := Action) learning_rate epsilon (getitem d k)
    (getitem d k).
Proof.
  intros [g [P E SA lr eps]] _ _. unfold on_tables, getitem.
  destruct (d !! k); reflexivity.
Qed.

Lemma mirrors_draw {A} (learning_rate epsilon : Q) (m : M G A) :
  mirrors (Action := Action) learning_rate epsilon (draw m) (draw m).
Proof.
  intros [g [P E SA lr eps]] _ _. unfold on_tables, draw. cbn [self rng].
  destruct (m g) as [r g']. reflexivity.
Qed.

Lemma mirrors_gets {A} (learning_rate epsilon : Q)
    (f : actor.TableBasedActor.t Action → A)
    (f' : acm.TableBasedActor.t Z Action → A) :
  (∀ a, f a = f' (actor_tables a)) →
  mirrors (G := G) learning_rate epsilon (gets_self f) (gets_self f').
Proof.
  intros Hf [g [P E SA lr eps]] _ _. unfold on_tables, gets_self, gets.
  cbn [self rng]. rewrite Hf. reflexivity.
Qed.

Lemma mirrors_modify (learning_rate epsilon : Q)
    (f : actor.TableBasedActor.t Action → actor.TableBasedActor.t Action)
    (f' : acm.TableBasedActor.t Z Action → acm.TableBasedActor.t Z Action) :
  (∀ a, f a = with_rates (actor.TableBasedActor.learning_rate a)
                (actor.TableBasedActor.epsilon a) (f' (actor_tables a))) →
  mirrors (G := G) learning_rate epsilon (modify_self f) (modify_self f').
Proof.
  intros Hf [g a] _ _. unfold on_tables, modify_self, modify.
  cbn [self rng]. rewrite Hf. reflexivity.
Qed.

Lemma mirrors_when (learning_rate epsilon : Q) (b : bool)
    (m : M (proc G (actor.TableBasedActor.t Action)) unit)
    (m' : M (proc G (acm.TableBasedActor.t Z Action)) unit) :
  mirrors learning_rate epsilon m m' →
  mirrors learning_rate epsilon (when b m) (when b m').
Proof. intros Hm. destruct b; [exact Hm | apply mirrors_ret]. Qed.

Lemma mirrors_for_each {A} (learning_rate epsilon : Q) (l : list A)
    (body : A → M (proc G (actor.TableBasedActor.t Action)) unit)
    (body' : A → M (proc G (acm.TableBasedActor.t Z Action)) unit) :
  (∀ x, mirrors learning_rate epsilon (body x) (body' x)) →
  mirrors learning_rate epsilon (for_each l body) (for_each l body').
Proof.
  intros Hbody. induction l as [| x l IH]; [apply mirrors_ret |].
  apply mirrors_bind; [apply Hbody | intros ?; exact IH].
Qed.

Lemma mirrors_for_fold {A L} (learning_rate epsilon : Q) (l : list A)
    (body : A → L → M (proc G (actor.TableBasedActor.t Action)) L)
    (body' : A → L → M (proc G (acm.TableBasedActor.t Z Action)) L)
    (locals : L) :
  (∀ x locals, mirrors learning_rate epsilon (body x locals)
                 (body' x locals)) →
  mirrors learning_rate epsilon (for_fold l body locals)
    (for_fold l body' locals).
Proof.
  intros Hbody. revert locals.
  induction l as [| x l IH]; intros locals; [apply mirrors_ret |].
  apply mirrors_bind; [apply Hbody | intros locals'; apply IH].
Qed.

(** Reading one of the two rates, which the other class gets as an
    argument. *)
Lemma mirrors_epsilon {A} (learning_rate epsilon : Q)
    (k : Q → M (proc G (actor.TableBasedActor.t Action)) A)
    (m' : M (proc G (acm.TableBasedActor.t Z Action)) A) :
  mirrors learning_rate epsilon (k epsilon) m' →
  mirrors learning_rate epsilon
    (gets_self actor.TableBasedActor.epsilon ≫= k) m'.
Proof.
  intros Hk p Hlr Heps. rewrite bind_run. unfold gets_self, gets.
  rewrite Heps. apply Hk; assumption.
Qed.

Lemma mirrors_learning_rate {A} (learning_rate epsilon : Q)
    (k : Q → M (proc G (actor.TableBasedActor.t Action)) A)
    (m' : M (proc G (acm.TableBasedActor.t Z Action)) A) :
  mirrors learning_rate epsilon (k learning_rate) m' →
  mirrors learning_rate epsilon
    (gets_self actor.TableBasedActor.learning_rate ≫= k) m'.
Proof.
  intros Hk p Hlr Heps. rewrite bind_run. unfold gets_self, gets.
  rewrite Hlr. apply Hk; assumption.
Qed.

(** X9.  The actor of [rl/actor.py] is the actor of [rl/acm.py] on
    hashed states: each of its methods does to its three tables, returns
    and raises what the method of [rl/acm.py] does for the state
    [hash(tuple(state))], with the actor's own [epsilon] and
    [learning_rate] where the other takes them as arguments, and leaves
    the two rates as they are.  [increase_eligibility] is the assignment
    [eligibilities[(state, action)] = 1]. *)
Theorem actor_py_mirrors_acm_actor
    (p : proc G (actor.TableBasedActor.t Action)) (state : State) :
  (∀ actions,
     actor.TableBasedActor.add_state hash_tuple state actions p
     = on_tables (acm.TableBasedActor.add_state (hash_tuple state) actions)
         p) ∧
  actor.TableBasedActor.reset_eligibilities p
  = on_tables acm.TableBasedActor.reset_eligibilities p ∧
  (∀ action,
     actor.TableBasedActor.increase_eligibility hash_tuple state action p
     = on_tables
         (modify_self
            (acm.TableBasedActor.set_eligibility (hash_tuple state, action)
               1)) p) ∧
  actor.TableBasedActor.propose_action hash_tuple state p
  = on_tables
      (acm.TableBasedActor.propose_action (hash_tuple state)
         (actor.TableBasedActor.epsilon (self p))) p ∧
  (∀ action td_error,
     actor.TableBasedActor.update_policy hash_tuple state action td_error p
     = on_tables
         (acm.TableBasedActor.update_policy (hash_tuple state) action
            (actor.TableBasedActor.learning_rate (self p)) td_error) p) ∧
  (∀ action discount_rate decay_factor,
     actor.TableBasedActor.update_eligibilities hash_tuple state action
       discount_rate decay_factor p
     = on_tables
         (acm.TableBasedActor.update_eligibilities (hash_tuple state) action
            discount_rate decay_factor) p).
Proof.
  set (lr := actor.TableBasedActor.learning_rate (self p)).
  set (eps := actor.TableBasedActor.epsilon (self p)).
  assert (Hgets_policy :
    mirrors (G := G) lr eps (gets_self actor.TableBasedActor.policy)
      (gets_self acm.TableBasedActor.policy))
    by (apply mirrors_gets; reflexivity).
  assert (Hgets_eligibilities :
    mirrors (G := G) lr eps (gets_self actor.TableBasedActor.eligibilities)
      (gets_self acm.TableBasedActor.eligibilities))
    by (apply mirrors_gets; reflexivity).
  assert (Hgets_actions :
    mirrors (G := G) lr eps (gets_self actor.TableBasedActor.state_actions)
      (gets_self acm.TableBasedActor.state_actions))
    by (apply mirrors_gets; reflexivity).
  assert (Hmodify : ∀ f f',
    (∀ a, f a = with_rates (actor.TableBasedActor.learning_rate a)
                  (actor.TableBasedActor.epsilon a) (f' (actor_tables a))) →
    mirrors (G := G) lr eps (modify_self f) (modify_self f'))
    by (intros f f'; apply mirrors_modify).
  split; [| split; [| split; [| split; [| split]]]].
  - intros actions. refine ((_ : mirrors lr eps _ _) p eq_refl eq_refl).
    unfold actor.TableBasedActor.add_state, acm.TableBasedActor.add_state.
    apply mirrors_bind; [| intros ?].
    + apply Hmodify. reflexivity.
    + apply mirrors_for_each. intros action.
      unfold actor.TableBasedActor.add_action,
        acm.TableBasedActor.add_action.
      apply mirrors_bind; [exact Hgets_policy | intros pol].
      apply mirrors_bind;
        [apply mirrors_when, Hmodify; reflexivity | intros ?].
      apply mirrors_bind; [exact Hgets_eligibilities | intros elig].
      apply mirrors_when, Hmodify. reflexivity.
  - refine ((_ : mirrors lr eps _ _) p eq_refl eq_refl).
    apply Hmodify. reflexivity.
  - intros action. refine ((_ : mirrors lr eps _ _) p eq_refl eq_refl).
    apply Hmodify. reflexivity.
  - refine ((_ : mirrors lr eps _ _) p eq_refl eq_refl).
    unfold actor.TableBasedActor.propose_action,
      acm.TableBasedActor.propose_action.
    apply mirrors_bind; [exact Hgets_actions | intros sa].
    apply mirrors_bind; [apply mirrors_getitem | intros actions].
    apply mirrors_epsilon.
    apply mirrors_bind; [apply mirrors_draw | intros explore].
    destruct explore.
    + apply mirrors_bind; [apply mirrors_draw | intros i].
      destruct (actions !! i); [apply mirrors_ret | apply mirrors_raise].
    + apply mirrors_bind; [| intros locals; apply mirrors_ret].
      apply mirrors_for_fold. intros action locals.
      unfold actor.TableBasedActor.scan_body, acm.TableBasedActor.scan_body.
      apply mirrors_bind; [exact Hgets_policy | intros pol].
      apply mirrors_bind; [apply mirrors_getitem | intros v].
      apply mirrors_bind.
      * unfold truediv. destruct (length actions);
          [apply mirrors_raise | apply mirrors_ret].
      * intros state_value. destruct (gt _ _); apply mirrors_ret.
  - intros action td_error.
    refine ((_ : mirrors lr eps _ _) p eq_refl eq_refl).
    unfold actor.TableBasedActor.update_policy,
      acm.TableBasedActor.update_policy.
    apply mirrors_bind; [exact Hgets_policy | intros pol].
    apply mirrors_bind; [apply mirrors_getitem | intros v].
    apply mirrors_learning_rate.
    apply mirrors_bind; [exact Hgets_eligibilities | intros elig].
    apply mirrors_bind; [apply mirrors_getitem | intros e].
    apply Hmodify. reflexivity.
  - intros action discount_rate decay_factor.
    refine ((_ : mirrors lr eps _ _) p eq_refl eq_refl).
    unfold actor.TableBasedActor.update_eligibilities,
      acm.TableBasedActor.update_eligibilities.
    apply mirrors_bind; [exact Hgets_eligibilities | intros elig].
    apply mirrors_bind; [apply mirrors_getitem | intros e].
    apply Hmodify. reflexivity.
Qed.

End two_actors_facts.

Section increase.
Context {State : Type} (hash_tuple : State → Z).
Context `{Countable Action} {G : Type} {R : Rng G}.
Import actor.TableBasedActor.

(** X10.  [increase_eligibility] of [rl/actor.py] returns normally on every
    pair, registered or not: it sets the trace of the pair to 1 and touches
    nothing else.  The [update_policy] that follows adds
    [learning_rate * td_error * 1] to the preference of the pair, and raises
    [KeyError] when the pair has none; [update_eligibilities] after it
    returns normally and leaves the trace [discount_rate * decay_factor]. *)
Theorem increase_eligibility_then_update
    (p : proc G (t Action)) (state : State) (action : option Action)
    (td_error discount_rate decay_factor : Q) :
  let key := (hash_tuple state, action) in
  let p1 := after (increase_eligibility hash_tuple state action) p in
  increase_eligibility hash_tuple state action p = (Ok tt, p1) ∧
  p1 = Proc (rng p)
         (mk (policy (self p)) (<[key := 1%Q]> (eligibilities (self p)))
             (state_actions (self p)) (learning_rate (self p))
             (epsilon (self p))) ∧
  update_policy hash_tuple state action td_error p1
  = match policy (self p) !! key with
    | Some v =>
        (Ok tt,
         Proc (rng p)
           (set_policy key (v + learning_rate (self p) * td_error * 1)%Q
              (self p1)))
    | None => (Raise KeyError, p1)
    end ∧
  update_eligibilities hash_tuple state action discount_rate decay_factor p1
  = (Ok tt,
     Proc (rng p)
       (set_eligibility key (1 * (discount_rate * decay_factor))%Q
          (self p1))).
Proof.
  intros key p1. split; [reflexivity |]. split; [reflexivity |].
  assert (Helig : eligibilities (self p1) !! key = Some 1%Q)
    by apply lookup_insert_eq.
  split.
  - unfold update_policy. fold key.
    rewrite bind_run. unfold gets_self at 1, gets at 1. cbn [self rng].
    rewrite bind_run. unfold getitem at 1.
    change (policy (self p1)) with (policy (self p)).
    destruct (policy (self p) !! key) as [v |]; [| reflexivity].
    unfold mret at 1, M_ret at 1.
    rewrite bind_run. unfold gets_self at 1, gets at 1. cbn [self rng].
    rewrite bind_run. unfold gets_self at 1, gets at 1. cbn [self rng].
    rewrite bind_run, (getitem_Some _ _ _ _ Helig). reflexivity.
  - unfold update_eligibilities. fold key.
    rewrite bind_run. unfold gets_self at 1, gets at 1. cbn [self rng].
    rewrite bind_run, (getitem_Some _ _ _ _ Helig). reflexivity.
Qed.

End increase.

Section construction_facts.
Context {V : Type}.
Import construction.

(** X11.  [ACM(config)] returns an object exactly when the mapping has all
    twelve keys, and then each attribute is the entry of its key; when a key
    is missing the constructor raises [KeyError].  Entries under other keys
    are not looked at. *)
Theorem constructor_reads_config (config : gmap string V) :
  match new config with
  | Ok a =>
      config !! "episodes" = Some (max_episodes a) ∧
      config !! "steps" = Some (steps a) ∧
      config !! "critic_type" = Some (critic_type a) ∧
      config !! "critic_nn_dims" = Some (critic_nn_dims a) ∧
      config !! "actor_lr" = Some (actor_lr a) ∧
      config !! "critic_lr" = Some (critic_lr a) ∧
      config !! "decay" = Some (decay_factor a) ∧
      config !! "discount" = Some (discount_rate a) ∧
      config !! "epsilon" = Some (epsilon a) ∧
      config !! "epsilon_decay" = Some (epsilon_decay a) ∧
      config !! "visualise" = Some (visualise a) ∧
      config !! "verbose" = Some (verbose a)
  | Raise e => e = KeyError ∧ ∃ k, k ∈ keys ∧ config !! k = None
  end ∧
  ((∀ k, k ∈ keys → is_Some (config !! k)) → ∃ a, new config = Ok a) ∧
  (∀ config' : gmap string V,
     (∀ k, k ∈ keys → config' !! k = config !! k) →
     new config' = new config).
Proof.
  assert (Hcases :
    match new config with
    | Ok a =>
        config !! "episodes" = Some (max_episodes a) ∧
        config !! "steps" = Some (steps a) ∧
        config !! "critic_type" = Some (critic_type a) ∧
        config !! "critic_nn_dims" = Some (critic_nn_dims a) ∧
        config !! "actor_lr" = Some (actor_lr a) ∧
        config !! "critic_lr" = Some (critic_lr a) ∧
        config !! "decay" = Some (decay_factor a) ∧
        config !! "discount" = Some (discount_rate a) ∧
        config !! "epsilon" = Some (epsilon a) ∧
        config !! "epsilon_decay" = Some (epsilon_decay a) ∧
        config !! "visualise" = Some (visualise a) ∧
        config !! "verbose" = Some (verbose a)
    | Raise e => e = KeyError ∧ ∃ k, k ∈ keys ∧ config !! k = None
    end).
  { unfold new, __init__.
    repeat (rewrite bind_run; unfold getitem at 1;
            match goal with
            | |- context [config !! ?k] =>
                destruct (config !! k) eqn:?;
                [unfold mret at 1, M_ret at 1 |
                 split; [reflexivity |];
                 exists k; split; [unfold keys; set_solver | assumption]]
            end).
    cbn. repeat split; reflexivity. }
  split; [exact Hcases |]. split.
  - intros Hall. destruct (new config) as [a | e]; [eauto |].
    destruct Hcases as [_ (k & Hk & Hnone)].
    destruct (Hall k Hk) as [v Hv]. congruence.
  - intros config' Hsame. unfold new, __init__.
    rewrite !bind_run. unfold getitem.
    rewrite !Hsame by (unfold keys; set_solver). reflexivity.
Qed.

End construction_facts.

(** ** A rule for invariants of [fit]

    A property of frames that is given object by object and that every
    call [fit] makes preserves -- with the arguments [fit] passes -- holds
    in every frame of a run. *)

Lemma triple_invariant {S A} (I I' : S → Prop) (P : S → Prop) (p : prog S A)
    (Q : A → S → Prop) E :
  triple I P p Q E → (∀ s, I s → I' s) → triple I' P p Q E.
Proof.
  intros Hp HI s Hs. destruct (Hp s Hs) as [Htrace Hrun].
  split; [| exact Hrun]. eapply Forall_impl; [exact Htrace | exact HI].
Qed.

Lemma triple_pure_r {S A} (I : S → Prop) (φ : Prop) (P : S → Prop)
    (p : prog S A) (Q : A → S → Prop) E :
  (φ → triple I P p Q E) → triple I (λ s, P s ∧ φ) p Q E.
Proof. intros Hp s [Hs Hφ]. exact (Hp Hφ s Hs). Qed.

Section reads.
Context `{Countable State} `{Countable Action} {G : Type} {R : Rng G}.

Lemma propose_action_after (state : State) (epsilon : Q)
    (p : proc G (acm.TableBasedActor.t State Action)) :
  self (after (acm.TableBasedActor.propose_action state epsilon) p) = self p.
Proof.
  unfold after.
  destruct (acm.TableBasedActor.propose_action state epsilon p) as [r p']
    eqn:Hrun.
  apply (propose_action_outcome state epsilon p p' r Hrun).
Qed.

Lemma compute_td_error_after (current_state successor_state : State)
    (reinforcement discount_rate : Q)
    (p : proc G (acm.TableBasedCritic.t State)) :
  after (acm.TableBasedCritic.compute_td_error current_state successor_state
           reinforcement discount_rate) p = p.
Proof.
  unfold after. rewrite compute_td_error_run.
  destruct (_ !! successor_state); [| reflexivity].
  destruct (_ !! current_state); reflexivity.
Qed.

End reads.

Section fit_rule.
Context `{Countable State} `{Countable Action} {G : Type} {R : Rng G}.
Context {D : Type} {Dom : environment.Domain D State Action}.
Import acm.ACM.

Variable PT : acm.ACM.t → Prop.
Variable PA : acm.TableBasedActor.t State Action → Prop.
Variable PC : acm.TableBasedCritic.t State → Prop.
Variable PL : nat → list nat → Prop.

Hypothesis PT_decayed : ∀ t, PT t → PT (decayed t).
Hypothesis PA_reset : ∀ (g : G) a,
  PA a → PA (self (after acm.TableBasedActor.reset_eligibilities (Proc g a))).
Hypothesis PA_add_state : ∀ (g : G) a state actions,
  handed (D := D) state actions → PA a →
  PA (self (after (acm.TableBasedActor.add_state state actions) (Proc g a))).
Hypothesis PA_mark : ∀ a state action,
  handed_state (D := D) (Action := Action) state → PA a →
  PA (acm.TableBasedActor.set_eligibility (state, action) 1 a).
Hypothesis PA_update_policy : ∀ t (g : G) a state action td_error,
  PT t → PA a →
  PA (self (after (acm.TableBasedActor.update_policy state action
                     (actor_lr t) td_error) (Proc g a))).
Hypothesis PA_update_eligibilities : ∀ t (g : G) a state action,
  PT t → PA a →
  PA (self (after (acm.TableBasedActor.update_eligibilities state action
                     (discount_rate t) (decay_factor t)) (Proc g a))).
Hypothesis PC_reset : ∀ (g : G) c,
  PC c → PC (self (after acm.TableBasedCritic.reset_eligibilities (Proc g c))).
Hypothesis PC_add_state : ∀ (g : G) c state,
  handed_state (D := D) (Action := Action) state → PC c →
  PC (self (after (acm.TableBasedCritic.add_state state) (Proc g c))).
Hypothesis PC_mark : ∀ c state,
  handed_state (D := D) (Action := Action) state → PC c →
  PC (acm.TableBasedCritic.set_eligibility state 1 c).
Hypothesis PC_update_value_function : ∀ t (g : G) c state td_error,
  PT t → PC c →
  PC (self (after (acm.TableBasedCritic.update_value_function state
                     (critic_lr t) td_error) (Proc g c))).
Hypothesis PC_update_eligibilities : ∀ t (g : G) c state,
  PT t → PC c →
  PC (self (after (acm.TableBasedCritic.update_eligibilities state
                     (discount_rate t) (decay_factor t)) (Proc g c))).
Hypothesis PL_append : ∀ t k l step,
  PT t → step ≤ steps t → PL k l → PL (S k) (l ++ [step]).

Section bounds.
Variables lo hi : nat.

Lemma at_within k t (f : frame State Action G D) :
  lo ≤ k ≤ hi → frame_at PT PA PC PL k t f → frame_within PT PA PC PL lo hi f.
Proof. intros Hk [_ Hf]. exists k. split; assumption. Qed.

Lemma call_actor_at {A} k t
    (m : M (proc G (acm.TableBasedActor.t State Action)) A) :
  lo ≤ k ≤ hi →
  (∀ g a, PT t → PA a → PA (self (after m (Proc g a)))) →
  triple (S := frame State Action G D) (frame_within PT PA PC PL lo hi)
    (frame_at PT PA PC PL k t) (call_actor m) (λ _, frame_at PT PA PC PL k t) any_exn.
Proof.
  intros Hk Hm. apply triple_stmt.
  intros [th a c d g sp] [Hth (HPT & HPA & HPC & HPL)].
  cbn [this actor critic domain gen steps_per_episode] in *. subst th.
  specialize (Hm g a HPT HPA). unfold after in Hm.
  destruct (m (Proc g a)) as [r p]. cbn [snd] in *.
  assert (Hat : frame_at PT PA PC PL k t (Frame t (self p) c d (rng p) sp))
    by (split; [reflexivity | repeat split; assumption]).
  split; [eapply at_within; eassumption |].
  destruct r; [exact Hat | exact I].
Qed.

Lemma call_critic_at {A} k t
    (m : M (proc G (acm.TableBasedCritic.t State)) A) :
  lo ≤ k ≤ hi →
  (∀ g c, PT t → PC c → PC (self (after m (Proc g c)))) →
  triple (S := frame State Action G D) (frame_within PT PA PC PL lo hi)
    (frame_at PT PA PC PL k t) (call_critic m) (λ _, frame_at PT PA PC PL k t) any_exn.
Proof.
  intros Hk Hm. apply triple_stmt.
  intros [th a [c |] d g sp] [Hth (HPT & HPA & HPC & HPL)];
    cbn [this actor critic domain gen steps_per_episode] in *; subst th.
  - specialize (Hm g c HPT HPC). unfold after in Hm.
    destruct (m (Proc g c)) as [r p]. cbn [snd] in *.
    assert (Hat : frame_at PT PA PC PL k t (Frame t a (acm.TableCritic (self p)) d (rng p) sp))
      by (split; [reflexivity | repeat split; assumption]).
    split; [eapply at_within; eassumption |].
    destruct r; [exact Hat | exact I].
  - cbn [snd]. split; [| exact I]. eapply (at_within k t); [exact Hk |].
    split; [reflexivity | repeat split; assumption].
Qed.

Lemma call_domain_at {A} k t (m : M D A) :
  lo ≤ k ≤ hi →
  triple (S := frame State Action G D) (frame_within PT PA PC PL lo hi)
    (frame_at PT PA PC PL k t) (call_domain m)
    (λ v f, frame_at PT PA PC PL k t f ∧ ∃ d d', m d = (Ok v, d')) any_exn.
Proof.
  intros Hk. apply triple_stmt.
  intros [th a c d g sp] [Hth (HPT & HPA & HPC & HPL)].
  cbn [this actor critic domain gen steps_per_episode] in *. subst th.
  destruct (m d) as [r d'] eqn:Hm. cbn [snd].
  assert (Hat : frame_at PT PA PC PL k t (Frame t a c d' g sp))
    by (split; [reflexivity | repeat split; assumption]).
  split; [eapply at_within; eassumption |].
  destruct r as [v | e]; [| exact I]. split; [exact Hat | eauto].
Qed.

Lemma gets_this_at {A} k t (g : acm.ACM.t → A) :
  lo ≤ k ≤ hi →
  triple (S := frame State Action G D) (frame_within PT PA PC PL lo hi)
    (frame_at PT PA PC PL k t) (gets_this g) (λ v f, frame_at PT PA PC PL k t f ∧ v = g t) any_exn.
Proof.
  intros Hk. apply triple_stmt. intros f Hf. cbn [gets fst snd].
  split; [eapply at_within; eassumption |].
  split; [exact Hf |]. destruct Hf as [-> _]. reflexivity.
Qed.

Lemma episode_init_at k t :
  lo ≤ k ≤ hi →
  triple (S := frame State Action G D) (frame_within PT PA PC PL lo hi)
    (frame_at PT PA PC PL k t) episode_init
    (λ start f, frame_at PT PA PC PL k t f ∧
                handed_state (D := D) (Action := Action) start.1)
    any_exn.
Proof.
  intros Hk. unfold episode_init.
  eapply triple_bind;
    [apply call_actor_at; [exact Hk | intros; apply PA_reset; assumption] |
     intros ?].
  eapply triple_bind;
    [apply call_critic_at; [exact Hk | intros; apply PC_reset; assumption] |
     intros ?].
  eapply triple_bind; [apply call_domain_at; exact Hk | intros [state actions]].
  apply triple_pure_r. intros (d & d' & Hinitial).
  assert (Hhanded : handed (D := D) state actions)
    by (left; exists d, d'; exact Hinitial).
  cbn [fst snd].
  eapply triple_bind;
    [apply call_actor_at;
       [exact Hk | intros; apply PA_add_state; assumption] |
     intros ?].
  eapply triple_bind;
    [apply call_critic_at;
       [exact Hk | intros; apply PC_add_state; [eexists |]; eassumption] |
     intros ?].
  eapply triple_bind; [apply gets_this_at; exact Hk | intros self_epsilon].
  apply triple_pure_r. intros ->.
  eapply triple_bind;
    [apply call_actor_at;
       [exact Hk | intros; rewrite propose_action_after; assumption] |
     intros current_action].
  apply triple_ret. intros f Hf. split; [exact Hf |].
  exists actions. exact Hhanded.
Qed.

Lemma observe_at k t (current_action : option Action) :
  lo ≤ k ≤ hi →
  triple (S := frame State Action G D) (frame_within PT PA PC PL lo hi)
    (frame_at PT PA PC PL k t) (observe current_action)
    (λ seen f, frame_at PT PA PC PL k t f ∧
               handed_state (D := D) (Action := Action) seen.1.1)
    any_exn.
Proof.
  intros Hk. unfold observe.
  eapply triple_bind;
    [apply call_domain_at; exact Hk | intros [[state actions] reward]].
  apply triple_pure_r. intros (d & d' & Hchild).
  assert (Hhanded : handed (D := D) state actions)
    by (right; exists current_action, d, d', reward; exact Hchild).
  cbn [fst snd].
  eapply triple_bind;
    [apply call_actor_at;
       [exact Hk | intros; apply PA_add_state; assumption] |
     intros ?].
  eapply triple_bind;
    [apply call_critic_at;
       [exact Hk | intros; apply PC_add_state; [eexists |]; eassumption] |
     intros ?].
  eapply triple_bind; [apply gets_this_at; exact Hk | intros self_epsilon].
  apply triple_pure_r. intros ->.
  eapply triple_bind;
    [apply call_actor_at;
       [exact Hk | intros; rewrite propose_action_after; assumption] |
     intros successor_action].
  apply triple_ret. intros f Hf. split; [exact Hf |].
  exists actions. exact Hhanded.
Qed.

Lemma credit_at k t (td_error : Q) (entry : State * option Action) :
  lo ≤ k ≤ hi →
  triple (S := frame State Action G D) (frame_within PT PA PC PL lo hi)
    (frame_at PT PA PC PL k t) (credit td_error entry)
    (λ _, frame_at PT PA PC PL k t) any_exn.
Proof.
  intros Hk. unfold credit.
  eapply triple_bind; [apply gets_this_at; exact Hk | intros self_critic_lr].
  apply triple_pure_r. intros ->.
  eapply triple_bind;
    [apply call_critic_at;
       [exact Hk | intros; apply PC_update_value_function; assumption] |
     intros ?].
  eapply triple_bind; [apply gets_this_at; exact Hk | intros self_discount].
  apply triple_pure_r. intros ->.
  eapply triple_bind; [apply gets_this_at; exact Hk | intros self_decay].
  apply triple_pure_r. intros ->.
  eapply triple_bind;
    [apply call_critic_at;
       [exact Hk | intros; apply PC_update_eligibilities; assumption] |
     intros ?].
  eapply triple_bind; [apply gets_this_at; exact Hk | intros self_actor_lr].
  apply triple_pure_r. intros ->.
  eapply triple_bind;
    [apply call_actor_at;
       [exact Hk | intros; apply PA_update_policy; assumption] |
     intros ?].
  eapply triple_bind; [apply gets_this_at; exact Hk | intros self_discount].
  apply triple_pure_r. intros ->.
  eapply triple_bind; [apply gets_this_at; exact Hk | intros self_decay].
  apply triple_pure_r. intros ->.
  apply call_actor_at;
    [exact Hk | intros; apply PA_update_eligibilities; assumption].
Qed.

Lemma step_body_at k t (current_state : State)
    (current_action : option Action) (episode : list (State * option Action)) :
  lo ≤ k ≤ hi →
  handed_state (D := D) (Action := Action) current_state →
  triple (S := frame State Action G D) (frame_within PT PA PC PL lo hi)
    (frame_at PT PA PC PL k t)
    (step_body current_state current_action episode)
    (λ next f, frame_at PT PA PC PL k t f ∧
               handed_state (D := D) (Action := Action) next.1.1)
    any_exn.
Proof.
  intros Hk Hcurrent. unfold step_body.
  eapply triple_bind; [apply observe_at; exact Hk | intros seen].
  apply triple_pure_r. intros Hseen.
  eapply triple_bind;
    [apply call_actor_at;
       [exact Hk | intros; apply PA_mark; assumption] |
     intros ?].
  eapply triple_bind.
  { unfold td.
    eapply triple_bind; [apply gets_this_at; exact Hk | intros self_discount].
    apply triple_pure_r. intros ->.
    apply call_critic_at;
      [exact Hk | intros; rewrite compute_td_error_after; assumption]. }
  intros td_error.
  eapply triple_bind;
    [apply call_critic_at;
       [exact Hk | intros; apply PC_mark; assumption] |
     intros ?].
  eapply triple_bind;
    [apply triple_for_each; intros entry _; apply credit_at; exact Hk |
     intros ?].
  apply triple_ret. intros f Hf. split; [exact Hf | exact Hseen].
Qed.

Lemma while_loop_at k t (budget step : nat) (current_state : State)
    (current_action : option Action) (episode : list (State * option Action)) :
  lo ≤ k ≤ hi →
  handed_state (D := D) (Action := Action) current_state →
  triple (S := frame State Action G D) (frame_within PT PA PC PL lo hi)
    (frame_at PT PA PC PL k t)
    (while_loop budget step current_state current_action episode)
    (λ r f, frame_at PT PA PC PL k t f ∧ r ≤ step + budget) any_exn.
Proof.
  intros Hk. revert step current_state current_action episode.
  induction budget as [| budget IH];
    intros step current_state current_action episode Hcurrent.
  - rewrite while_loop_O. apply triple_ret. intros f Hf.
    split; [exact Hf | lia].
  - rewrite while_loop_S.
    eapply triple_bind; [apply call_domain_at; exact Hk | intros terminal].
    apply triple_pure_r. intros _.
    destruct terminal.
    + apply triple_ret. intros f Hf. split; [exact Hf | lia].
    + eapply triple_bind;
        [apply step_body_at; [exact Hk | exact Hcurrent] | intros next].
      apply triple_pure_r. intros Hnext.
      eapply triple_weaken; [apply IH; exact Hnext | auto |].
      intros r f [Hf Hr]. split; [exact Hf | lia].
Qed.

Lemma decay_epsilon_at k t :
  lo ≤ k ≤ hi →
  triple (S := frame State Action G D) (frame_within PT PA PC PL lo hi)
    (frame_at PT PA PC PL k t) decay_epsilon
    (λ _, frame_at PT PA PC PL k (decayed t)) any_exn.
Proof.
  intros Hk. apply triple_stmt.
  intros [th a c d g sp] [Hth (HPT & HPA & HPC & HPL)].
  cbn [this actor critic domain gen steps_per_episode] in *. subst th.
  cbn [modify fst snd this actor critic domain gen steps_per_episode].
  assert (Hat : frame_at PT PA PC PL k (decayed t)
                  (Frame (decayed t) a c d g sp)).
  { split; [reflexivity |]. split; [apply PT_decayed, HPT |].
    repeat split; assumption. }
  split; [eapply at_within; eassumption | exact Hat].
Qed.

Lemma record_steps_at k t (step : nat) :
  lo ≤ S k ≤ hi → step ≤ steps t →
  triple (S := frame State Action G D) (frame_within PT PA PC PL lo hi)
    (frame_at PT PA PC PL k t) (record_steps step)
    (λ _, frame_at PT PA PC PL (S k) t) any_exn.
Proof.
  intros Hk Hstep. apply triple_stmt.
  intros [th a c d g sp] [Hth (HPT & HPA & HPC & HPL)].
  cbn [this actor critic domain gen steps_per_episode] in *. subst th.
  cbn [modify fst snd this actor critic domain gen steps_per_episode].
  assert (Hat : frame_at PT PA PC PL (S k) t
                  (Frame t a c d g (sp ++ [step]))).
  { split; [reflexivity |]. split; [exact HPT |].
    split; [exact HPA |]. split; [exact HPC |].
    eapply PL_append; eassumption. }
  split; [eapply at_within; eassumption | exact Hat].
Qed.

Lemma episode_body_at k t (episode_count : nat) :
  lo ≤ k → S k ≤ hi →
  triple (S := frame State Action G D) (frame_within PT PA PC PL lo hi)
    (frame_at PT PA PC PL k t) (episode_body episode_count)
    (λ _, frame_at PT PA PC PL (S k) (decayed t)) any_exn.
Proof.
  intros Hlo Hhi. assert (Hk : lo ≤ k ≤ hi) by lia.
  assert (Hk' : lo ≤ S k ≤ hi) by lia.
  unfold episode_body.
  eapply triple_bind; [apply episode_init_at; exact Hk | intros start].
  apply triple_pure_r. intros Hstart.
  eapply triple_bind; [apply gets_this_at; exact Hk | intros self_steps].
  apply triple_pure_r. intros ->.
  eapply triple_bind;
    [apply while_loop_at; [exact Hk | exact Hstart] | intros step].
  apply triple_pure_r. intros Hstep.
  eapply triple_bind; [apply decay_epsilon_at; exact Hk | intros ?].
  eapply triple_bind;
    [apply gets_this_at; exact Hk | intros self_max_episodes].
  apply triple_pure_r. intros _.
  eapply triple_bind with (Q1 := λ _, frame_at PT PA PC PL k (decayed t)).
  { unfold when. destruct (_ || _).
    - eapply triple_weaken;
        [apply (call_domain_at k (decayed t)); exact Hk | auto |].
      intros ? f [Hf _]. exact Hf.
    - apply triple_ret. auto. }
  intros ?.
  eapply triple_bind;
    [apply record_steps_at; [exact Hk' | exact Hstep] | intros ?].
  eapply triple_bind;
    [apply call_critic_at; [exact Hk' | intros; assumption] | intros ?].
  apply triple_ret. auto.
Qed.

Lemma for_each_episodes_at k t (first count : nat) :
  lo ≤ k → k + count ≤ hi →
  triple (S := frame State Action G D) (frame_within PT PA PC PL lo hi)
    (frame_at PT PA PC PL k t) (for_each (seq first count) episode_body)
    (λ _, frame_at PT PA PC PL (k + count) (Nat.iter count decayed t))
    any_exn.
Proof.
  revert k t first. induction count as [| count IH]; intros k t first Hlo Hhi.
  - apply triple_ret. intros f Hf. rewrite Nat.add_0_r. exact Hf.
  - change (for_each (seq first (S count)) episode_body)
      with (episode_body (D := D) first ;;
            for_each (seq (S first) count) episode_body).
    eapply triple_bind; [apply episode_body_at; lia | intros ?].
    rewrite Nat.iter_succ_r.
    replace (k + S count) with (S k + count) by lia.
    apply IH; lia.
Qed.

End bounds.

Lemma fit_invariant (self : acm.ACM.t) (d : D) (g : G) :
  PT self → PA acm.TableBasedActor.init → PC acm.TableBasedCritic.init →
  PL 0 [] →
  Forall (frame_within PT PA PC PL 0 (max_episodes self))
    (fit_trace (State := State) (Action := Action) self d g) ∧
  match fit (State := State) (Action := Action) self d g with
  | (Ok _, f) =>
      frame_at PT PA PC PL (max_episodes self)
        (Nat.iter (max_episodes self) decayed self) f
  | (Raise _, _) => True
  end.
Proof.
  intros HPT HPA HPC HPL.
  assert (Hepisodes :
    triple (S := frame State Action G D)
      (frame_within PT PA PC PL 0 (max_episodes self))
      (frame_at PT PA PC PL 0 self) episodes
      (λ _, frame_at PT PA PC PL (max_episodes self)
              (Nat.iter (max_episodes self) decayed self)) any_exn).
  { unfold episodes.
    eapply triple_bind; [apply gets_this_at; lia | intros self_max_episodes].
    apply triple_pure_r. intros ->.
    apply (for_each_episodes_at 0 (max_episodes self) 0 self 0
             (max_episodes self)); lia. }
  destruct (Hepisodes (enter self d g)) as [Htrace Hrun].
  { split; [reflexivity |]. split; [exact HPT |]. split; [exact HPA |].
    split; [| exact HPL]. unfold enter. cbn [critic].
    destruct (String.eqb _ _); [exact HPC | exact I]. }
  split; [exact Htrace |]. unfold fit.
  destruct (run episodes (enter self d g)) as [[[] | e] f];
    [exact Hrun | exact I].
Qed.

End fit_rule.

(** ** Invariants of [fit] on any domain *)

Lemma unit_traces_insert `{Countable K} (k : K) (e : Q) (traces : gmap K Q) :
  (0 <= e)%Q → (e <= 1)%Q → unit_traces traces →
  unit_traces (<[k := e]> traces).
Proof. intros H0 H1 Hall. apply map_Forall_insert_2; [split |]; assumption. Qed.

Lemma unit_traces_reset `{Countable K} (traces : gmap K Q) :
  unit_traces ((λ _, 0%Q) <$> traces).
Proof.
  intros k e Hk. rewrite lookup_fmap in Hk.
  destruct (traces !! k); [| discriminate]. injection Hk as <-.
  split; [apply Qle_refl | discriminate].
Qed.

Lemma unit_traces_setdefault `{Countable K} (k : K) (traces : gmap K Q) :
  unit_traces traces → unit_traces (setdefault k 0%Q traces).
Proof.
  intros Hall. unfold setdefault. destruct (traces !! k); [exact Hall |].
  apply unit_traces_insert; [apply Qle_refl | discriminate | exact Hall].
Qed.

Lemma unit_traces_decay `{Countable K} (k : K) (e c : Q) (traces : gmap K Q) :
  (0 <= c)%Q → (c <= 1)%Q → traces !! k = Some e → unit_traces traces →
  unit_traces (<[k := (e * c)%Q]> traces).
Proof.
  intros Hc0 Hc1 Hk Hall. destruct (Hall k e Hk) as [He0 He1].
  apply unit_traces_insert; [nra | nra | exact Hall].
Qed.

Section fit_invariants.
Context `{Countable State} `{Countable Action} {G : Type} {R : Rng G}.
Context {D : Type} {Dom : environment.Domain D State Action}.
Import acm.ACM.

(** X2.  An episode takes at most [self.steps] steps, and [fit] records one
    step count for each episode it completes: in every frame of a run the
    list holds at most [max_episodes] counts, none above [self.steps]; when
    [fit] returns it holds exactly [max_episodes]. *)
Theorem steps_per_episode_bounded (self : acm.ACM.t) (d : D) (g : G) :
  Forall (λ f : frame State Action G D,
            length (steps_per_episode f) ≤ max_episodes self ∧
            Forall (λ n, n ≤ steps self) (steps_per_episode f))
    (fit_trace self d g) ∧
  ∀ f : frame State Action G D,
    fit self d g = (Ok tt, f) →
    length (steps_per_episode f) = max_episodes self ∧
    Forall (λ n, n ≤ steps self) (steps_per_episode f).
Proof.
  destruct (fit_invariant (State := State) (Action := Action) (D := D)
              (λ t, steps t = steps self) (λ _, True) (λ _, True)
              (λ k l, length l = k ∧ Forall (λ n, n ≤ steps self) l))
    with (self := self) (d := d) (g := g) as [Htrace Hrun];
    try (intros; exact I); try reflexivity.
  - intros t Ht. exact Ht.
  - intros t k l step Ht Hstep [Hlen Hall]. split.
    + rewrite length_app, Hlen. simpl. lia.
    + apply Forall_app. split; [exact Hall |]. repeat constructor. lia.
  - split; [reflexivity | constructor].
  - split.
    + eapply Forall_impl; [exact Htrace |].
      intros f (k & Hk & _ & _ & _ & Hlen & Hall). split; [lia | exact Hall].
    + intros f Hfit. rewrite Hfit in Hrun.
      destruct Hrun as (_ & _ & _ & _ & Hlen & Hall). split; assumption.
Qed.

(** X3.  When [discount * decay] lies between 0 and 1, every eligibility
    trace of the actor and of the critic lies between 0 and 1 in every
    frame of a run, on any domain and whatever the draws. *)
Theorem traces_stay_in_unit_interval (self : acm.ACM.t) (d : D) (g : G) :
  (0 <= discount_rate self * decay_factor self)%Q →
  (discount_rate self * decay_factor self <= 1)%Q →
  Forall (λ f : frame State Action G D,
            unit_traces (acm.TableBasedActor.eligibilities (actor f)) ∧
            match critic f with
            | acm.TableCritic c =>
                unit_traces (acm.TableBasedCritic.eligibilities c)
            | acm.NNCritic => True
            end)
    (fit_trace self d g).
Proof.
  intros Hc0 Hc1.
  destruct (fit_invariant (State := State) (Action := Action) (D := D)
              (λ t, discount_rate t = discount_rate self ∧
                    decay_factor t = decay_factor self)
              (λ a, unit_traces (acm.TableBasedActor.eligibilities a))
              (λ c, unit_traces (acm.TableBasedCritic.eligibilities c))
              (λ _ _, True))
    with (self := self) (d := d) (g := g) as [Htrace _].
  - intros t Ht. exact Ht.
  - intros g0 a Ha. apply unit_traces_reset.
  - intros g0 a state actions _ Ha. unfold after.
    destruct (add_state_run state actions (Proc g0 a))
      as (P' & E' & -> & _ & HE).
    cbn [snd Py.self acm.TableBasedActor.eligibilities] in *.
    intros k e Hk. rewrite HE in Hk.
    destruct (acm.TableBasedActor.eligibilities a !! k) as [e0 |] eqn:Hk0.
    + injection Hk as <-. exact (Ha k e0 Hk0).
    + case_bool_decide; [| discriminate]. injection Hk as <-.
      split; [apply Qle_refl | discriminate].
  - intros a state action _ Ha.
    apply unit_traces_insert; [discriminate | apply Qle_refl | exact Ha].
  - intros t g0 a state action td_error _ Ha. unfold after.
    rewrite update_policy_run. cbn [Py.self rng].
    destruct (_ !! (state, action)); [| exact Ha].
    destruct (_ !! (state, action)); exact Ha.
  - intros t g0 a state action [Hdiscount Hdecay] Ha. unfold after.
    rewrite actor_update_eligibilities_cases. cbn [Py.self rng].
    destruct (_ !! (state, action)) as [e |] eqn:He; [| exact Ha].
    rewrite Hdiscount, Hdecay.
    apply unit_traces_decay; assumption.
  - intros g0 c Hc. apply unit_traces_reset.
  - intros g0 c state _ Hc. unfold after. rewrite critic_add_state_cases.
    cbn [Py.self rng].
    destruct (_ !! state).
    + apply unit_traces_setdefault, Hc.
    + destruct (uniform g0) as [[u | e] g1]; [| exact Hc].
      apply unit_traces_setdefault, Hc.
  - intros c state _ Hc.
    apply unit_traces_insert; [discriminate | apply Qle_refl | exact Hc].
  - intros t g0 c state td_error _ Hc. unfold after.
    rewrite update_value_function_run. cbn [Py.self rng].
    destruct (_ !! state); [| exact Hc].
    destruct (_ !! state); exact Hc.
  - intros t g0 c state [Hdiscount Hdecay] Hc. unfold after.
    rewrite critic_update_eligibilities_cases. cbn [Py.self rng].
    destruct (_ !! state) as [e |] eqn:He; [| exact Hc].
    rewrite Hdiscount, Hdecay.
    apply unit_traces_decay; assumption.
  - intros; exact I.
  - split; reflexivity.
  - apply map_Forall_empty.
  - apply map_Forall_empty.
  - exact I.
  - eapply Forall_impl; [exact Htrace |].
    intros f (k & _ & _ & Ha & Hc & _). split; assumption.
Qed.

(** X6.  On any domain and whatever the draws, in every frame of a run:
    a pair that has a preference has a trace, a state that has a value has
    a trace, and every action listed for a state has a preference. *)
Theorem preferences_and_values_have_traces (self : acm.ACM.t) (d : D)
    (g : G) :
  Forall (λ f : frame State Action G D,
            dom (acm.TableBasedActor.policy (actor f))
            ⊆ dom (acm.TableBasedActor.eligibilities (actor f)) ∧
            actor_wf (actor f) ∧
            match critic f with
            | acm.TableCritic c =>
                dom (acm.TableBasedCritic.state_values c)
                ⊆ dom (acm.TableBasedCritic.eligibilities c)
            | acm.NNCritic => True
            end)
    (fit_trace self d g).
Proof.
  destruct (fit_invariant (State := State) (Action := Action) (D := D)
              (λ _, True)
              (λ a, dom (acm.TableBasedActor.policy a)
                    ⊆ dom (acm.TableBasedActor.eligibilities a) ∧
                    actor_wf a)
              (λ c, dom (acm.TableBasedCritic.state_values c)
                    ⊆ dom (acm.TableBasedCritic.eligibilities c))
              (λ _ _, True))
    with (self := self) (d := d) (g := g) as [Htrace _].
  - intros; exact I.
  - intros g0 [P E SA] [Hsub Hwf]. cbn in *. split; [| exact Hwf].
    rewrite dom_fmap_L. exact Hsub.
  - intros g0 a state actions _ [Hsub Hwf].
    split; [| apply (actor_add_state_wf (Proc g0 a)); exact Hwf].
    unfold after.
    destruct (actor_add_state_dom (Proc g0 a) state actions)
      as (a' & -> & HP & HE & _).
    cbn [snd Py.self] in *. rewrite HP, HE. set_solver.
  - intros [P E SA] state action _ [Hsub Hwf]. cbn in *.
    split; [| exact Hwf]. rewrite dom_insert_L. set_solver.
  - intros t g0 [P E SA] state action td_error _ [Hsub Hwf]. unfold after.
    rewrite update_policy_run. cbn [Py.self rng acm.TableBasedActor.policy
      acm.TableBasedActor.eligibilities].
    destruct (P !! (state, action)) as [v |] eqn:Hv; [| split; assumption].
    destruct (E !! (state, action)) as [e |]; [| split; assumption].
    cbn in *. split.
    + rewrite dom_insert_known; [exact Hsub | apply elem_of_dom; eauto].
    + intros s l x Hs Hx. apply lookup_insert_is_Some'. right.
      eapply Hwf; eassumption.
  - intros t g0 [P E SA] state action _ [Hsub Hwf]. unfold after.
    rewrite actor_update_eligibilities_cases.
    cbn [Py.self rng acm.TableBasedActor.eligibilities].
    destruct (E !! (state, action)) as [e |] eqn:He; [| split; assumption].
    cbn in *. split; [| exact Hwf].
    rewrite dom_insert_known; [exact Hsub | apply elem_of_dom; eauto].
  - intros g0 [V E] Hsub. cbn in *. rewrite dom_fmap_L. exact Hsub.
  - intros g0 [V E] state _ Hsub. unfold after.
    rewrite critic_add_state_cases.
    cbn [Py.self rng acm.TableBasedCritic.state_values
         acm.TableBasedCritic.eligibilities] in *.
    destruct (V !! state) as [v |] eqn:Hv.
    + cbn. rewrite dom_setdefault. set_solver.
    + destruct (uniform g0) as [[u | e] g1]; [| exact Hsub].
      cbn. rewrite dom_setdefault, dom_insert_L. set_solver.
  - intros [V E] state _ Hsub. cbn in *. rewrite dom_insert_L. set_solver.
  - intros t g0 [V E] state td_error _ Hsub. unfold after.
    rewrite update_value_function_run.
    cbn [Py.self rng acm.TableBasedCritic.state_values
         acm.TableBasedCritic.eligibilities].
    destruct (V !! state) as [v |] eqn:Hv; [| exact Hsub].
    destruct (E !! state) as [e |]; [| exact Hsub].
    cbn in *. rewrite dom_insert_known; [exact Hsub |].
    apply elem_of_dom; eauto.
  - intros t g0 [V E] state _ Hsub. unfold after.
    rewrite critic_update_eligibilities_cases.
    cbn [Py.self rng acm.TableBasedCritic.eligibilities].
    destruct (E !! state) as [e |] eqn:He; [| exact Hsub].
    cbn in *. rewrite dom_insert_known; [exact Hsub |].
    apply elem_of_dom; eauto.
  - intros; exact I.
  - exact I.
  - split; [set_solver |]. intros s l x Hs. cbn in Hs.
    rewrite lookup_empty in Hs. discriminate.
  - cbn. set_solver.
  - exact I.
  - eapply Forall_impl; [exact Htrace |].
    intros f (k & _ & _ & [Hsub Hwf] & Hc & _). repeat split; assumption.
Qed.

(** X12.  [fit] registers only what the domain hands out.  In every frame
    of a run: the action list kept for a state is one the domain can hand
    out with that state; a preference belongs to a pair of a state and one
    of the actions of a list handed out with it; every trace and every
    value belongs to a state the domain can hand out. *)
Theorem tables_hold_what_the_domain_hands_out (self : acm.ACM.t) (d : D)
    (g : G) :
  Forall (λ f : frame State Action G D,
            (∀ state actions,
               acm.TableBasedActor.state_actions (actor f) !! state
               = Some actions →
               handed (D := D) state actions) ∧
            (∀ state action,
               (state, action) ∈ dom (acm.TableBasedActor.policy (actor f)) →
               ∃ a actions, action = Some a ∧ a ∈ actions ∧
                            handed (D := D) state actions) ∧
            (∀ state action,
               (state, action)
               ∈ dom (acm.TableBasedActor.eligibilities (actor f)) →
               handed_state (D := D) (Action := Action) state) ∧
            match critic f with
            | acm.TableCritic c =>
                ∀ state,
                  state ∈ dom (acm.TableBasedCritic.state_values c)
                          ∪ dom (acm.TableBasedCritic.eligibilities c) →
                  handed_state (D := D) (Action := Action) state
            | acm.NNCritic => True
            end)
    (fit_trace self d g).
Proof.
  destruct (fit_invariant (State := State) (Action := Action) (D := D)
              (λ _, True)
              (λ a,
                 (∀ state actions,
                    acm.TableBasedActor.state_actions a !! state
                    = Some actions →
                    handed (D := D) state actions) ∧
                 (∀ state action,
                    (state, action) ∈ dom (acm.TableBasedActor.policy a) →
                    ∃ x actions, action = Some x ∧ x ∈ actions ∧
                                 handed (D := D) state actions) ∧
                 (∀ state action,
                    (state, action)
                    ∈ dom (acm.TableBasedActor.eligibilities a) →
                    handed_state (D := D) (Action := Action) state))
              (λ c, ∀ state,
                 state ∈ dom (acm.TableBasedCritic.state_values c)
                         ∪ dom (acm.TableBasedCritic.eligibilities c) →
                 handed_state (D := D) (Action := Action) state)
              (λ _ _, True))
    with (self := self) (d := d) (g := g) as [Htrace _].
  - intros; exact I.
  - intros g0 [P E SA] (HSA & HP & HE). cbn in *.
    split; [exact HSA |]. split; [exact HP |].
    intros state action. rewrite dom_fmap_L. apply HE.
  - intros g0 a state actions Hhanded (HSA & HP & HE). unfold after.
    destruct (actor_add_state_dom (Proc g0 a) state actions)
      as (a' & -> & HP' & HE' & HSA').
    cbn [snd Py.self] in *.
    assert (Hkeys : ∀ s x, (s, x) ∈ pair_keys state actions →
                           s = state ∧ ∃ b, x = Some b ∧ b ∈ actions).
    { intros s x Hin. unfold pair_keys in Hin.
      apply list_elem_of_fmap in Hin as (b & Heq & Hb).
      injection Heq as -> ->. eauto. }
    split; [| split].
    + intros s l. rewrite HSA', lookup_insert. case_decide as Heq.
      * intros Hl. injection Hl as <-. subst s. exact Hhanded.
      * apply HSA.
    + intros s x. rewrite HP', elem_of_union, elem_of_list_to_set.
      intros [Hin | Hin]; [| apply HP, Hin].
      destruct (Hkeys s x Hin) as (-> & b & -> & Hb). eauto.
    + intros s x. rewrite HE', elem_of_union, elem_of_list_to_set.
      intros [Hin | Hin]; [| eapply HE, Hin].
      destruct (Hkeys s x Hin) as (-> & _). exists actions. exact Hhanded.
  - intros [P E SA] state action Hstate (HSA & HP & HE). cbn in *.
    split; [exact HSA |]. split; [exact HP |].
    intros s x. rewrite dom_insert_L, elem_of_union, elem_of_singleton.
    intros [Heq | Hin]; [| eapply HE, Hin]. injection Heq as -> ->.
    exact Hstate.
  - intros t g0 [P E SA] state action td_error _ (HSA & HP & HE).
    unfold after. rewrite update_policy_run.
    cbn [Py.self rng acm.TableBasedActor.policy
         acm.TableBasedActor.eligibilities].
    destruct (P !! (state, action)) as [v |] eqn:Hv;
      [| repeat split; assumption].
    destruct (E !! (state, action)) as [e |]; [| repeat split; assumption].
    cbn in *. split; [exact HSA |]. split; [| exact HE].
    intros s x. rewrite dom_insert_known; [apply HP |].
    apply elem_of_dom. eauto.
  - intros t g0 [P E SA] state action _ (HSA & HP & HE). unfold after.
    rewrite actor_update_eligibilities_cases.
    cbn [Py.self rng acm.TableBasedActor.eligibilities].
    destruct (E !! (state, action)) as [e |] eqn:He;
      [| repeat split; assumption].
    cbn in *. split; [exact HSA |]. split; [exact HP |].
    intros s x. rewrite dom_insert_known; [apply HE |].
    apply elem_of_dom. eauto.
  - intros g0 [V E] Hc. cbn in *. intros state. rewrite dom_fmap_L.
    apply Hc.
  - intros g0 [V E] state Hstate Hc. unfold after.
    rewrite critic_add_state_cases.
    cbn [Py.self rng acm.TableBasedCritic.state_values
         acm.TableBasedCritic.eligibilities] in *.
    assert (Hnew : ∀ s, s ∈ {[state]} ∪ (dom V ∪ dom E) →
                        handed_state (D := D) (Action := Action) s).
    { intros s. rewrite elem_of_union, elem_of_singleton.
      intros [-> | Hin]; [exact Hstate | apply Hc, Hin]. }
    destruct (V !! state) as [v |] eqn:Hv.
    + cbn. intros s Hs. apply Hnew. rewrite dom_setdefault in Hs. set_solver.
    + destruct (uniform g0) as [[u | e] g1]; [| exact Hc].
      cbn. intros s Hs. apply Hnew.
      rewrite dom_setdefault, dom_insert_L in Hs. set_solver.
  - intros [V E] state Hstate Hc. cbn in *. intros s.
    rewrite dom_insert_L. intros Hs.
    destruct (decide (s = state)) as [-> | Hne]; [exact Hstate |].
    apply Hc. set_solver.
  - intros t g0 [V E] state td_error _ Hc. unfold after.
    rewrite update_value_function_run.
    cbn [Py.self rng acm.TableBasedCritic.state_values
         acm.TableBasedCritic.eligibilities].
    destruct (V !! state) as [v |] eqn:Hv; [| exact Hc].
    destruct (E !! state) as [e |]; [| exact Hc].
    cbn in *. intros s. rewrite dom_insert_known; [apply Hc |].
    apply elem_of_dom; eauto.
  - intros t g0 [V E] state _ Hc. unfold after.
    rewrite critic_update_eligibilities_cases.
    cbn [Py.self rng acm.TableBasedCritic.eligibilities].
    destruct (E !! state) as [e |] eqn:He; [| exact Hc].
    cbn in *. intros s. rewrite dom_insert_known; [apply Hc |].
    apply elem_of_dom; eauto.
  - intros; exact I.
  - exact I.
  - cbn. split; [| split].
    + intros s l Hs. rewrite lookup_empty in Hs. discriminate.
    + intros s x Hs. rewrite dom_empty_L in Hs. set_solver.
    + intros s x Hs. rewrite dom_empty_L in Hs. set_solver.
  - cbn. intros s Hs. rewrite dom_empty_L in Hs. set_solver.
  - exact I.
  - eapply Forall_impl; [exact Htrace |].
    intros f (k & _ & _ & (HSA & HP & HE) & Hc & _).
    repeat split; assumption.
Qed.

End fit_invariants.

(** ** Statement by statement *)

Section statement_wise.
Context {S : Type} (P : ∀ B, M S B → Prop).

Lemma all_stmts_ret {A} (a : A) : all_stmts P (mret a : prog S A).
Proof. exact I. Qed.

Lemma all_stmts_stmt {A} (m : M S A) : P A m → all_stmts P (stmt m).
Proof. intros Hm. split; [exact Hm | intros b; exact I]. Qed.

Lemma all_stmts_bind {A B} (p : prog S A) (k : A → prog S B) :
  all_stmts P p → (∀ a, all_stmts P (k a)) → all_stmts P (p ≫= k).
Proof.
  intros Hp Hk. induction p as [a | C m k' IH]; [apply Hk |].
  destruct Hp as [Hm Hk'].
  change (all_stmts P (Do m (λ b, k' b ≫= k))).
  split; [exact Hm |]. intros b. apply IH, Hk'.
Qed.

Lemma all_stmts_for_each {A} (l : list A) (body : A → prog S unit) :
  (∀ x, all_stmts P (body x)) → all_stmts P (for_each l body).
Proof.
  intros Hbody. induction l as [| x l IH]; [exact I |].
  apply all_stmts_bind; [apply Hbody | intros ?; exact IH].
Qed.

Lemma all_stmts_when (b : bool) (body : prog S unit) :
  all_stmts P body → all_stmts P (when b body).
Proof. intros Hbody. destruct b; [exact Hbody | exact I]. Qed.

End statement_wise.

(** A sequence of statements blind to [h] is blind to [h]: its runs from
    [s] and from [h s] end alike and visit corresponding states. *)
Lemma blind_run {S A} (h : S → S) (p : prog S A) (s : S) :
  all_stmts (λ B, blind_to h) p →
  run p (h s) = (fst (run p s), h (snd (run p s))) ∧
  trace p (h s) = h <$> trace p s.
Proof.
  revert s. induction p as [a | B m k IH]; intros s Hp;
    [split; reflexivity |].
  destruct Hp as [Hm Hk]. cbn [run trace]. rewrite (Hm s).
  destruct (m s) as [[b | e] s']; cbn [fst snd]; [| split; reflexivity].
  destruct (IH b s' (Hk b)) as [Hrun Htrace].
  split; [exact Hrun |]. rewrite Htrace. reflexivity.
Qed.

(** Along a sequence of statements that each move along a preorder, every
    state visited is related to the first, and an earlier state to a later
    one. *)
Lemma moves_along_trace {S A} (R : S → S → Prop) `{!PreOrder R}
    (p : prog S A) (s : S) :
  all_stmts (λ B, moves_along R) p →
  Forall (R s) (trace p s) ∧
  ∀ i j si sj, i ≤ j → trace p s !! i = Some si → trace p s !! j = Some sj →
               R si sj.
Proof.
  revert s. induction p as [a | B m k IH]; intros s Hp.
  - split; [constructor |]. intros i j si sj _ Hi. discriminate.
  - destruct Hp as [Hm Hk]. cbn [trace]. specialize (Hm s).
    destruct (m s) as [[b | e] s'] eqn:Hms; cbn [snd] in Hm.
    + destruct (IH b s' (Hk b)) as [Hall Hpair]. split.
      * constructor; [exact Hm |].
        eapply Forall_impl; [exact Hall |]. intros x Hx.
        etrans; eassumption.
      * intros [| i] [| j] si sj Hij Hi Hj; cbn in Hi, Hj.
        -- injection Hi as <-. injection Hj as <-. reflexivity.
        -- injection Hi as <-.
           rewrite Forall_lookup in Hall. eapply Hall. exact Hj.
        -- lia.
        -- eapply Hpair; [| eassumption ..]. lia.
    + split; [repeat constructor; exact Hm |].
      intros [| i] [| j] si sj Hij Hi Hj; cbn in Hi, Hj;
        try discriminate.
      injection Hi as <-. injection Hj as <-. reflexivity.
Qed.

(** ** The options [fit] does not read *)

Section flags.
Context `{Countable State} `{Countable Action} {G : Type} {R : Rng G}.
Context {D : Type} {Dom : environment.Domain D State Action}.
Import acm.ACM.

Lemma call_actor_blind {A}
    (m : M (proc G (acm.TableBasedActor.t State Action)) A) :
  all_stmts (λ B, blind_to (forget_flags (G := G) (D := D))) (call_actor m).
Proof.
  apply all_stmts_stmt. intros [t a c d g sp]. unfold forget_flags.
  cbn [this actor critic domain gen steps_per_episode].
  destruct (m _) as [r p]. reflexivity.
Qed.

Lemma call_critic_blind {A}
    (m : M (proc G (acm.TableBasedCritic.t State)) A) :
  all_stmts (λ B, blind_to (forget_flags (G := G) (D := D)))
    (call_critic (Action := Action) m).
Proof.
  apply all_stmts_stmt. intros [t a [c |] d g sp]; unfold forget_flags;
    cbn [this actor critic domain gen steps_per_episode]; [| reflexivity].
  destruct (m _) as [r p]. reflexivity.
Qed.

Lemma call_domain_blind {A} (m : M D A) :
  all_stmts (λ B, blind_to (forget_flags (G := G) (D := D)))
    (call_domain (State := State) (Action := Action) m).
Proof.
  apply all_stmts_stmt. intros [t a c d g sp]. unfold forget_flags.
  cbn [this actor critic domain gen steps_per_episode].
  destruct (m _) as [r p]. reflexivity.
Qed.

Lemma gets_this_blind {A} (g : acm.ACM.t → A) :
  (∀ t, g (without_flags t) = g t) →
  all_stmts (λ B, blind_to (forget_flags (G := G) (D := D)))
    (gets_this (State := State) (Action := Action) g).
Proof.
  intros Hg. apply all_stmts_stmt. intros [t a c d g0 sp].
  unfold forget_flags, gets.
  cbn [this actor critic domain gen steps_per_episode fst snd].
  rewrite Hg. reflexivity.
Qed.

(** Goes through a sequence of statements of [fit], closing each with the
    lemma of its kind. *)
Ltac blind_steps :=
  repeat first
    [ exact I | apply call_actor_blind | apply call_critic_blind
    | apply call_domain_blind | apply gets_this_blind; reflexivity
    | apply all_stmts_ret | apply all_stmts_when
    | apply all_stmts_stmt; intros [? ? ? ? ? ?]; reflexivity
    | apply all_stmts_for_each; intros ?
    | apply all_stmts_bind; [| intros ?] ].

Lemma credit_blind (td_error : Q) (entry : State * option Action) :
  all_stmts (λ B, blind_to (forget_flags (G := G) (D := D)))
    (credit td_error entry).
Proof. unfold credit. blind_steps. Qed.

Lemma step_body_blind (current_state : State)
    (current_action : option Action) (episode : list (State * option Action)) :
  all_stmts (λ B, blind_to (forget_flags (G := G) (D := D)))
    (step_body current_state current_action episode).
Proof.
  unfold step_body, observe, mark_actor, td, mark_critic. blind_steps.
Qed.

Lemma while_loop_blind (budget step : nat) (current_state : State)
    (current_action : option Action) (episode : list (State * option Action)) :
  all_stmts (λ B, blind_to (forget_flags (G := G) (D := D)))
    (while_loop budget step current_state current_action episode).
Proof.
  revert step current_state current_action episode.
  induction budget as [| budget IH]; intros step cs ca episode.
  - rewrite while_loop_O. exact I.
  - rewrite while_loop_S.
    apply all_stmts_bind; [apply call_domain_blind | intros terminal].
    destruct terminal; [exact I |].
    apply all_stmts_bind; [apply step_body_blind | intros next]. apply IH.
Qed.

Lemma episodes_blind :
  all_stmts (λ B, blind_to (forget_flags (G := G) (D := D)))
    (episodes (State := State) (Action := Action)).
Proof.
  unfold episodes.
  apply all_stmts_bind; [apply gets_this_blind; reflexivity | intros n].
  apply all_stmts_for_each. intros episode_count.
  unfold episode_body, episode_init, decay_epsilon, record_steps.
  apply all_stmts_bind; [blind_steps | intros start].
  apply all_stmts_bind; [apply gets_this_blind; reflexivity | intros ?].
  apply all_stmts_bind; [apply while_loop_blind | intros step].
  blind_steps.
Qed.

(** X4.  [fit] never reads [critic_nn_dims], [visualise] or [verbose]: two
    objects that differ in these attributes only end alike and go through
    the same tables, domain states, generator states, step counts and
    exploration rates, frame by frame. *)
Theorem fit_ignores_flags (self self' : acm.ACM.t) (d : D) (g : G) :
  without_flags self = without_flags self' →
  fst (fit (State := State) (Action := Action) self d g)
  = fst (fit (State := State) (Action := Action) self' d g) ∧
  forget_flags <$> fit_trace (State := State) (Action := Action) self d g
  = forget_flags <$> fit_trace (State := State) (Action := Action) self' d g ∧
  forget_flags (snd (fit (State := State) (Action := Action) self d g))
  = forget_flags (snd (fit (State := State) (Action := Action) self' d g)).
Proof.
  intros Hflags.
  assert (Henter : ∀ t, forget_flags (enter (State := State)
                                        (Action := Action) t d g)
                        = enter (without_flags t) d g) by reflexivity.
  assert (Hsame : forget_flags (enter (State := State) (Action := Action)
                                  self d g)
                  = forget_flags (enter self' d g))
    by (rewrite !Henter, Hflags; reflexivity).
  destruct (blind_run forget_flags episodes (enter self d g) episodes_blind)
    as [Hrun Htrace].
  destruct (blind_run forget_flags episodes (enter self' d g) episodes_blind)
    as [Hrun' Htrace'].
  rewrite Hsame in Hrun, Htrace. unfold fit, fit_trace.
  rewrite Hrun' in Hrun. rewrite Htrace' in Htrace.
  pose proof (f_equal fst Hrun) as Hfst.
  pose proof (f_equal snd Hrun) as Hsnd. cbn [fst snd] in Hfst, Hsnd.
  split; [symmetry; exact Hfst |].
  split; [symmetry; exact Htrace | symmetry; exact Hsnd].
Qed.

End flags.

(** ** What a run never takes back *)

Section growth.
Context `{Countable State} `{Countable Action} {G : Type} {R : Rng G}.
Context {D : Type} {Dom : environment.Domain D State Action}.
Import acm.ACM.

Lemma actor_grows_refl (a : acm.TableBasedActor.t State Action) :
  actor_grows a a.
Proof. repeat split; reflexivity. Qed.

Lemma critic_grows_refl (c : acm.TableBasedCritic.t State) :
  critic_grows c c.
Proof. split; reflexivity. Qed.

Lemma grows_preorder : PreOrder (grows (State := State) (Action := Action)
                                   (G := G) (D := D)).
Proof.
  split.
  - intros [t a c d g sp]. split; [apply actor_grows_refl |].
    split; [destruct c; [apply critic_grows_refl | exact I] |].
    split; [reflexivity |]. destruct t; reflexivity.
  - intros [t1 a1 c1 d1 g1 sp1] [t2 a2 c2 d2 g2 sp2] [t3 a3 c3 d3 g3 sp3]
      ((HP & HE & HS) & Hc & Hsp & Ht) ((HP' & HE' & HS') & Hc' & Hsp' & Ht').
    cbn [this actor critic steps_per_episode] in *.
    split; [repeat split; etrans; eassumption |].
    split.
    { destruct c1, c2, c3; try contradiction; [| exact I].
      destruct Hc, Hc'. split; etrans; eassumption. }
    split; [etrans; eassumption |].
    rewrite <- Ht, <- Ht'. destruct t3; reflexivity.
Qed.

Lemma call_actor_grows {A}
    (m : M (proc G (acm.TableBasedActor.t State Action)) A) :
  (∀ p, actor_grows (self p) (self (after m p))) →
  all_stmts (λ B, moves_along (grows (G := G) (D := D))) (call_actor m).
Proof.
  intros Hm. apply all_stmts_stmt. intros [t a c d g sp].
  cbn [this actor critic domain gen steps_per_episode].
  specialize (Hm (Proc g a)). unfold after in Hm.
  destruct (m _) as [r p]. cbn [snd self] in *.
  split; [exact Hm |]. cbn [this actor critic steps_per_episode].
  split; [destruct c; [apply critic_grows_refl | exact I] |].
  split; [reflexivity |]. destruct t; reflexivity.
Qed.

Lemma call_critic_grows {A}
    (m : M (proc G (acm.TableBasedCritic.t State)) A) :
  (∀ p, critic_grows (self p) (self (after m p))) →
  all_stmts (λ B, moves_along (grows (G := G) (D := D)))
    (call_critic (Action := Action) m).
Proof.
  intros Hm. apply all_stmts_stmt. intros [t a [c |] d g sp];
    cbn [this actor critic domain gen steps_per_episode].
  - specialize (Hm (Proc g c)). unfold after in Hm.
    destruct (m _) as [r p]. cbn [snd self] in *.
    split; [apply actor_grows_refl |].
    cbn [this actor critic steps_per_episode].
    split; [exact Hm |]. split; [reflexivity |]. destruct t; reflexivity.
  - cbn [snd]. apply grows_preorder.
Qed.

Lemma call_domain_grows {A} (m : M D A) :
  all_stmts (λ B, moves_along (grows (G := G) (D := D)))
    (call_domain (State := State) (Action := Action) m).
Proof.
  apply all_stmts_stmt. intros [t a c d g sp].
  cbn [this actor critic domain gen steps_per_episode].
  destruct (m _) as [r d']. cbn [snd].
  split; [apply actor_grows_refl |].
  cbn [this actor critic steps_per_episode].
  split; [destruct c; [apply critic_grows_refl | exact I] |].
  split; [reflexivity |]. destruct t; reflexivity.
Qed.

Lemma gets_this_grows {A} (g : acm.ACM.t → A) :
  all_stmts (λ B, moves_along (grows (G := G) (D := D)))
    (gets_this (State := State) (Action := Action) g).
Proof. apply all_stmts_stmt. intros f. apply grows_preorder. Qed.

Lemma decay_epsilon_grows :
  all_stmts (λ B, moves_along (grows (G := G) (D := D)))
    (decay_epsilon (State := State) (Action := Action)).
Proof.
  apply all_stmts_stmt. intros [t a c d g sp].
  cbn [modify snd this actor critic domain gen steps_per_episode].
  split; [apply actor_grows_refl |].
  cbn [this actor critic steps_per_episode].
  split; [destruct c; [apply critic_grows_refl | exact I] |].
  split; [reflexivity |]. destruct t; reflexivity.
Qed.

Lemma record_steps_grows (step : nat) :
  all_stmts (λ B, moves_along (grows (G := G) (D := D)))
    (record_steps (State := State) (Action := Action) step).
Proof.
  apply all_stmts_stmt. intros [t a c d g sp].
  cbn [modify snd this actor critic domain gen steps_per_episode].
  split; [apply actor_grows_refl |].
  cbn [this actor critic steps_per_episode].
  split; [destruct c; [apply critic_grows_refl | exact I] |].
  split; [apply prefix_app_r; reflexivity |]. destruct t; reflexivity.
Qed.

Lemma actor_methods_grow (p : proc G (acm.TableBasedActor.t State Action)) :
  actor_grows (self p)
    (self (after acm.TableBasedActor.reset_eligibilities p)) ∧
  (∀ state actions,
     actor_grows (self p)
       (self (after (acm.TableBasedActor.add_state state actions) p))) ∧
  (∀ state epsilon,
     actor_grows (self p)
       (self (after (acm.TableBasedActor.propose_action state epsilon) p))) ∧
  (∀ entry,
     actor_grows (self p)
       (self (after (modify_self
                       (acm.TableBasedActor.set_eligibility entry 1)) p))) ∧
  (∀ state action learning_rate td_error,
     actor_grows (self p)
       (self (after (acm.TableBasedActor.update_policy state action
                       learning_rate td_error) p))) ∧
  (∀ state action discount_rate decay_factor,
     actor_grows (self p)
       (self (after (acm.TableBasedActor.update_eligibilities state action
                       discount_rate decay_factor) p))).
Proof.
  destruct p as [g [P E SA]]. split; [| split; [| split; [| split; [| split]]]].
  - split; [reflexivity |]. split; [| reflexivity].
    cbn. rewrite dom_fmap_L. reflexivity.
  - intros state actions. unfold after.
    destruct (actor_add_state_dom (Proc g (acm.TableBasedActor.mk P E SA))
                state actions) as (a' & -> & HP & HE & HSA).
    cbn [snd self] in *. unfold actor_grows. rewrite HP, HE, HSA.
    cbn. rewrite dom_insert_L. set_solver.
  - intros state epsilon. rewrite propose_action_after.
    apply actor_grows_refl.
  - intros entry. split; [reflexivity |]. split; [| reflexivity].
    cbn. rewrite dom_insert_L. set_solver.
  - intros state action learning_rate td_error. unfold after.
    rewrite update_policy_run.
    cbn [self rng acm.TableBasedActor.policy
         acm.TableBasedActor.eligibilities].
    destruct (P !! (state, action)); [| apply actor_grows_refl].
    destruct (E !! (state, action)); [| apply actor_grows_refl].
    split; [| split; reflexivity]. cbn. rewrite dom_insert_L. set_solver.
  - intros state action discount_rate decay_factor. unfold after.
    rewrite actor_update_eligibilities_cases.
    cbn [self rng acm.TableBasedActor.eligibilities].
    destruct (E !! (state, action)); [| apply actor_grows_refl].
    split; [reflexivity |]. split; [| reflexivity].
    cbn. rewrite dom_insert_L. set_solver.
Qed.

Lemma critic_methods_grow (p : proc G (acm.TableBasedCritic.t State)) :
  critic_grows (self p)
    (self (after acm.TableBasedCritic.reset_eligibilities p)) ∧
  (∀ state,
     critic_grows (self p)
       (self (after (acm.TableBasedCritic.add_state state) p))) ∧
  (∀ current_state successor_state reinforcement discount_rate,
     critic_grows (self p)
       (self (after (acm.TableBasedCritic.compute_td_error current_state
                       successor_state reinforcement discount_rate) p))) ∧
  (∀ state,
     critic_grows (self p)
       (self (after (modify_self
                       (acm.TableBasedCritic.set_eligibility state 1)) p))) ∧
  (∀ state learning_rate td_error,
     critic_grows (self p)
       (self (after (acm.TableBasedCritic.update_value_function state
                       learning_rate td_error) p))) ∧
  (∀ state discount_rate decay_factor,
     critic_grows (self p)
       (self (after (acm.TableBasedCritic.update_eligibilities state
                       discount_rate decay_factor) p))) ∧
  critic_grows (self p)
    (self (after acm.TableBasedCritic.num_seen_states p)).
Proof.
  destruct p as [g [V E]].
  split; [| split; [| split; [| split; [| split; [| split]]]]].
  - split; [reflexivity |]. cbn. rewrite dom_fmap_L. reflexivity.
  - intros state. unfold after. rewrite critic_add_state_cases.
    cbn [self rng acm.TableBasedCritic.state_values
         acm.TableBasedCritic.eligibilities].
    destruct (V !! state).
    + split; [reflexivity |]. cbn. rewrite dom_setdefault. set_solver.
    + destruct (uniform g) as [[u | e] g1]; [| apply critic_grows_refl].
      split; cbn; [rewrite dom_insert_L | rewrite dom_setdefault];
        set_solver.
  - intros. rewrite compute_td_error_after. apply critic_grows_refl.
  - intros state. split; [reflexivity |].
    cbn. rewrite dom_insert_L. set_solver.
  - intros state learning_rate td_error. unfold after.
    rewrite update_value_function_run.
    cbn [self rng acm.TableBasedCritic.state_values
         acm.TableBasedCritic.eligibilities].
    destruct (V !! state); [| apply critic_grows_refl].
    destruct (E !! state); [| apply critic_grows_refl].
    split; [| reflexivity]. cbn. rewrite dom_insert_L. set_solver.
  - intros state discount_rate decay_factor. unfold after.
    rewrite critic_update_eligibilities_cases.
    cbn [self rng acm.TableBasedCritic.eligibilities].
    destruct (E !! state); [| apply critic_grows_refl].
    split; [reflexivity |]. cbn. rewrite dom_insert_L. set_solver.
  - apply critic_grows_refl.
Qed.

(** Goes through a sequence of statements of [fit]. *)
Ltac grows_steps :=
  repeat first
    [ exact I
    | apply call_domain_grows | apply gets_this_grows
    | apply decay_epsilon_grows | apply record_steps_grows
    | apply call_actor_grows; intros p; apply (actor_methods_grow p)
    | apply call_critic_grows; intros p; apply (critic_methods_grow p)
    | apply all_stmts_when
    | apply all_stmts_for_each; intros ?
    | apply all_stmts_bind; [| intros ?] ].

Lemma step_body_grows (current_state : State)
    (current_action : option Action) (episode : list (State * option Action)) :
  all_stmts (λ B, moves_along (grows (G := G) (D := D)))
    (step_body current_state current_action episode).
Proof.
  unfold step_body, observe, mark_actor, td, mark_critic, credit.
  grows_steps.
Qed.

Lemma while_loop_grows (budget step : nat) (current_state : State)
    (current_action : option Action) (episode : list (State * option Action)) :
  all_stmts (λ B, moves_along (grows (G := G) (D := D)))
    (while_loop budget step current_state current_action episode).
Proof.
  revert step current_state current_action episode.
  induction budget as [| budget IH]; intros step cs ca episode.
  - rewrite while_loop_O. exact I.
  - rewrite while_loop_S.
    apply all_stmts_bind; [apply call_domain_grows | intros terminal].
    destruct terminal; [exact I |].
    apply all_stmts_bind; [apply step_body_grows | intros next]. apply IH.
Qed.

Lemma episodes_grow :
  all_stmts (λ B, moves_along (grows (G := G) (D := D)))
    (episodes (State := State) (Action := Action)).
Proof.
  unfold episodes.
  apply all_stmts_bind; [apply gets_this_grows | intros n].
  apply all_stmts_for_each. intros episode_count.
  unfold episode_body, episode_init.
  apply all_stmts_bind; [grows_steps | intros start].
  apply all_stmts_bind; [apply gets_this_grows | intros ?].
  apply all_stmts_bind; [apply while_loop_grows | intros step].
  grows_steps.
Qed.

(** X13.  A run of [fit] takes nothing back.  From any frame of a run to
    any later one: no state, pair or action list leaves a table; the critic
    stays of its class; step counts are only appended; and [self] changes
    in [epsilon] at most. *)
Theorem fit_takes_nothing_back (self : acm.ACM.t) (d : D) (g : G) :
  Forall (grows (enter self d g))
    (fit_trace (State := State) (Action := Action) self d g) ∧
  ∀ i j (fi fj : frame State Action G D),
    i ≤ j →
    fit_trace self d g !! i = Some fi →
    fit_trace self d g !! j = Some fj →
    grows fi fj.
Proof.
  exact (moves_along_trace (PreOrder0 := grows_preorder) grows episodes
           (enter self d g) episodes_grow).
Qed.

End growth.

(** ** What a run can raise *)

Lemma all_stmts_and {S A} (P Q : ∀ B, M S B → Prop) (p : prog S A) :
  all_stmts P p → all_stmts Q p → all_stmts (λ B m, P B m ∧ Q B m) p.
Proof.
  induction p as [a | B m k IH]; [intros; exact I |].
  intros [HP HkP] [HQ HkQ]. split; [split; assumption |].
  intros b. apply IH; [apply HkP | apply HkQ].
Qed.

(** An exception of a run is the exception of one of its statements, raised
    in a state the run has reached. *)
Lemma raise_origin {S A} (R : S → S → Prop) `{!PreOrder R}
    (E : S → exn → Prop) (p : prog S A) (s : S) (e : exn) :
  all_stmts (λ B m, moves_along R m ∧ raises_within E m) p →
  fst (run p s) = Raise e →
  ∃ s', R s s' ∧ E s' e.
Proof.
  revert s. induction p as [a | B m k IH]; intros s Hp Hrun;
    [discriminate |].
  destruct Hp as [[Hmove Hraise] Hk]. cbn [run] in Hrun.
  specialize (Hmove s). specialize (Hraise s).
  destruct (m s) as [[b | e'] s'] eqn:Hms; cbn [fst snd] in *.
  - destruct (IH b s' (Hk b) Hrun) as (s'' & Hs'' & He).
    exists s''. split; [etrans; eassumption | exact He].
  - injection Hrun as <-. exists s. split; [reflexivity |].
    apply Hraise. reflexivity.
Qed.

Section raising.
Context `{Countable State} `{Countable Action} {G : Type} {R : Rng G}.
Context {D : Type} {Dom : environment.Domain D State Action}.
Context `{!RngLaws G}.
Import acm.ACM.

Lemma call_actor_raises {A}
    (m : M (proc G (acm.TableBasedActor.t State Action)) A) :
  (∀ p e, fst (m p) = Raise e →
          e = KeyError ∨
          raised_outside (G := G) (D := D) (State := State)
            (Action := Action) e) →
  all_stmts (λ B, raises_within (fit_may_raise (G := G) (D := D)))
    (call_actor m).
Proof.
  intros Hm. apply all_stmts_stmt. intros [t a c d g sp] e.
  cbn [this actor critic domain gen steps_per_episode].
  specialize (Hm (Proc g a) e). destruct (m _) as [r p]. cbn [fst] in *.
  intros Hr. destruct (Hm Hr) as [-> | Hout];
    [left; reflexivity | right; right; exact Hout].
Qed.

Lemma call_critic_raises {A}
    (m : M (proc G (acm.TableBasedCritic.t State)) A) :
  (∀ p e, fst (m p) = Raise e →
          e = KeyError ∨
          raised_outside (G := G) (D := D) (State := State)
            (Action := Action) e) →
  all_stmts (λ B, raises_within (fit_may_raise (G := G) (D := D)))
    (call_critic (Action := Action) m).
Proof.
  intros Hm. apply all_stmts_stmt. intros [t a [c |] d g sp] e;
    cbn [this actor critic domain gen steps_per_episode].
  - specialize (Hm (Proc g c) e). destruct (m _) as [r p]. cbn [fst] in *.
    intros Hr. destruct (Hm Hr) as [-> | Hout];
      [left; reflexivity | right; right; exact Hout].
  - cbn [fst]. intros Hr. injection Hr as <-. right. left.
    split; reflexivity.
Qed.

Lemma call_domain_raises {A} (m : M D A) :
  (∀ d e, fst (m d) = Raise e →
          raised_outside (G := G) (D := D) (State := State)
            (Action := Action) e) →
  all_stmts (λ B, raises_within (fit_may_raise (G := G) (D := D)))
    (call_domain (State := State) (Action := Action) m).
Proof.
  intros Hm. apply all_stmts_stmt. intros [t a c d g sp] e.
  cbn [this actor critic domain gen steps_per_episode].
  specialize (Hm d e). destruct (m d) as [r d']. cbn [fst] in *.
  intros Hr. right. right. apply Hm, Hr.
Qed.

Lemma silent_raises {A} (m : M (frame State Action G D) A) :
  (∀ f, ∃ a, fst (m f) = Ok a) →
  all_stmts (λ B, raises_within (fit_may_raise (G := G) (D := D))) (stmt m).
Proof.
  intros Hm. apply all_stmts_stmt. intros f e He.
  destruct (Hm f) as [a Ha]. congruence.
Qed.

Lemma actor_methods_raise (p : proc G (acm.TableBasedActor.t State Action))
    (e : exn) :
  let allowed :=
    e = KeyError ∨
    raised_outside (G := G) (D := D) (State := State) (Action := Action) e in
  (fst (acm.TableBasedActor.reset_eligibilities p) = Raise e → allowed) ∧
  (∀ state actions,
     fst (acm.TableBasedActor.add_state state actions p) = Raise e →
     allowed) ∧
  (∀ state epsilon,
     fst (acm.TableBasedActor.propose_action state epsilon p) = Raise e →
     allowed) ∧
  (∀ entry,
     fst (modify_self (acm.TableBasedActor.set_eligibility entry 1) p)
     = Raise e → allowed) ∧
  (∀ state action learning_rate td_error,
     fst (acm.TableBasedActor.update_policy state action learning_rate
            td_error p) = Raise e → allowed) ∧
  (∀ state action discount_rate decay_factor,
     fst (acm.TableBasedActor.update_eligibilities state action
            discount_rate decay_factor p) = Raise e → allowed).
Proof.
  intros allowed. split; [| split; [| split; [| split; [| split]]]].
  - discriminate.
  - intros state actions.
    destruct (add_state_run state actions p) as (P' & E' & -> & _).
    discriminate.
  - intros state epsilon He.
    destruct (acm.TableBasedActor.propose_action state epsilon p) as [r p']
      eqn:Hrun.
    cbn [fst] in He. subst r.
    destruct (propose_action_outcome state epsilon p p' _ Hrun)
      as [_ [-> | [(g & Hg) | [(n & g & Hg) | (n & g & i & g' & Hi & Hge)]]]].
    + left. reflexivity.
    + right. left. eauto.
    + right. right. left. eauto.
    + exfalso. apply Hge. eapply choice_index_lt. exact Hi.
  - discriminate.
  - intros state action learning_rate td_error. rewrite update_policy_run.
    destruct (_ !! (state, action)); [| intros [= <-]; left; reflexivity].
    destruct (_ !! (state, action)); [discriminate |].
    intros [= <-]. left. reflexivity.
  - intros state action discount_rate decay_factor.
    rewrite actor_update_eligibilities_cases.
    destruct (_ !! (state, action)); [discriminate |].
    intros [= <-]. left. reflexivity.
Qed.

Lemma critic_methods_raise (p : proc G (acm.TableBasedCritic.t State))
    (e : exn) :
  let allowed :=
    e = KeyError ∨
    raised_outside (G := G) (D := D) (State := State) (Action := Action) e in
  (fst (acm.TableBasedCritic.reset_eligibilities p) = Raise e → allowed) ∧
  (∀ state,
     fst (acm.TableBasedCritic.add_state state p) = Raise e → allowed) ∧
  (∀ current_state successor_state reinforcement discount_rate,
     fst (acm.TableBasedCritic.compute_td_error current_state
            successor_state reinforcement discount_rate p) = Raise e →
     allowed) ∧
  (∀ state,
     fst (modify_self (acm.TableBasedCritic.set_eligibility state 1) p)
     = Raise e → allowed) ∧
  (∀ state learning_rate td_error,
     fst (acm.TableBasedCritic.update_value_function state learning_rate
            td_error p) = Raise e → allowed) ∧
  (∀ state discount_rate decay_factor,
     fst (acm.TableBasedCritic.update_eligibilities state discount_rate
            decay_factor p) = Raise e → allowed) ∧
  (fst (acm.TableBasedCritic.num_seen_states p) = Raise e → allowed).
Proof.
  intros allowed.
  split; [| split; [| split; [| split; [| split; [| split]]]]].
  - discriminate.
  - intros state. rewrite critic_add_state_cases.
    destruct (_ !! state); [discriminate |].
    destruct (uniform (rng p)) as [[u | e'] g1] eqn:Hu; [discriminate |].
    intros [= <-]. right. right. right. left. exists (rng p).
    rewrite Hu. reflexivity.
  - intros cs ss r discount. rewrite compute_td_error_run.
    destruct (_ !! ss); [| intros [= <-]; left; reflexivity].
    destruct (_ !! cs); [discriminate |].
    intros [= <-]. left. reflexivity.
  - discriminate.
  - intros state learning_rate td_error. rewrite update_value_function_run.
    destruct (_ !! state); [| intros [= <-]; left; reflexivity].
    destruct (_ !! state); [discriminate |].
    intros [= <-]. left. reflexivity.
  - intros state discount_rate decay_factor.
    rewrite critic_update_eligibilities_cases.
    destruct (_ !! state); [discriminate |].
    intros [= <-]. left. reflexivity.
  - discriminate.
Qed.

(** Goes through a sequence of statements of [fit]. *)
Ltac raises_steps :=
  repeat first
    [ exact I
    | apply call_domain_raises; intros d0 e0 He0; unfold raised_outside;
      eauto 12
    | apply silent_raises; intros f0; eexists; reflexivity
    | apply call_actor_raises; intros p e0;
      apply (actor_methods_raise p e0)
    | apply call_critic_raises; intros p e0;
      apply (critic_methods_raise p e0)
    | apply all_stmts_when
    | apply all_stmts_for_each; intros ?
    | apply all_stmts_bind; [| intros ?] ].

Lemma step_body_raises (current_state : State)
    (current_action : option Action) (episode : list (State * option Action)) :
  all_stmts (λ B, raises_within (fit_may_raise (G := G) (D := D)))
    (step_body current_state current_action episode).
Proof.
  unfold step_body, observe, mark_actor, td, mark_critic, credit, gets_this.
  raises_steps.
Qed.

Lemma while_loop_raises (budget step : nat) (current_state : State)
    (current_action : option Action) (episode : list (State * option Action)) :
  all_stmts (λ B, raises_within (fit_may_raise (G := G) (D := D)))
    (while_loop budget step current_state current_action episode).
Proof.
  revert step current_state current_action episode.
  induction budget as [| budget IH]; intros step cs ca episode.
  - rewrite while_loop_O. exact I.
  - rewrite while_loop_S.
    apply all_stmts_bind; [raises_steps | intros terminal].
    destruct terminal; [exact I |].
    apply all_stmts_bind; [apply step_body_raises | intros next]. apply IH.
Qed.

Lemma episodes_raise :
  all_stmts (λ B, raises_within (fit_may_raise (G := G) (D := D)))
    (episodes (State := State) (Action := Action)).
Proof.
  unfold episodes, gets_this.
  apply all_stmts_bind; [raises_steps | intros n].
  apply all_stmts_for_each. intros episode_count.
  unfold episode_body, episode_init, decay_epsilon, record_steps, gets_this.
  apply all_stmts_bind; [raises_steps | intros start].
  apply all_stmts_bind; [raises_steps | intros ?].
  apply all_stmts_bind; [apply while_loop_raises | intros step].
  raises_steps.
Qed.

(** X14.  What [fit] can raise: [KeyError]; [AttributeError], and only
    when [critic_type] is not ["table"]; or an exception that a method of
    the domain or a draw of numpy raises.  The trainer raises nothing else
    of its own: no division by zero, no index out of range. *)
Theorem fit_raises_only (self : acm.ACM.t) (d : D) (g : G) (e : exn) :
  fst (fit (State := State) (Action := Action) self d g) = Raise e →
  e = KeyError ∨
  (e = AttributeError ∧ critic_type self ≠ "table") ∨
  raised_outside (G := G) (D := D) (State := State) (Action := Action) e.
Proof.
  intros Hfit.
  destruct (raise_origin (PreOrder0 := grows_preorder) grows fit_may_raise
              episodes (enter self d g) e) as (f & Hgrows & Hraise).
  { apply all_stmts_and; [apply episodes_grow | apply episodes_raise]. }
  { exact Hfit. }
  destruct Hraise as [-> | [[-> Hnn] | Hout]];
    [left; reflexivity | | right; right; exact Hout].
  right. left. split; [reflexivity |].
  destruct Hgrows as (_ & Hclass & _). rewrite Hnn in Hclass.
  unfold enter in Hclass. cbn [critic] in Hclass.
  intros Htable. rewrite Htable in Hclass. exact Hclass.
Qed.

End raising.

(** ** The first step of an episode *)

Section first_step.
Context `{Countable State} `{Countable Action} {G : Type} {R : Rng G}.
Context {D : Type} {Dom : environment.Domain D State Action}.
Import acm.ACM.

Lemma run_call_domain {A} (m : M D A) (th : acm.ACM.t)
    (ac : acm.TableBasedActor.t State Action) (c : acm.critic_obj State)
    (d : D) (g : G) (sp : list nat) :
  run (call_domain m) (Frame th ac c d g sp) =
  match m d with
  | (r, d') => (r, Frame th ac c d' g sp)
  end.
Proof. unfold call_domain. rewrite run_stmt. reflexivity. Qed.

(** X15.  The first step of an episode is a TD update of the pair taken.
    From a frame where the current state has the value [v] and the pair
    taken the preference [p], when the domain answers with a successor and
    a reinforcement and the step returns: with [v_succ] the value of the
    successor (the one it had, or the one drawn when it is registered) and
    [td_error = reinforcement + discount * v_succ - v], the value of the
    current state becomes [v + critic_lr * td_error * 1], the preference
    of the pair [p + actor_lr * td_error * 1], both traces
    [1 * (discount * decay)]; no other value and no other preference that
    existed changes. *)
Theorem first_step_is_a_td_update (th : acm.ACM.t)
    (ac : acm.TableBasedActor.t State Action)
    (c : acm.TableBasedCritic.t State) (d d1 : D) (g : G) (sp : list nat)
    (current_state successor_state : State)
    (current_action : option Action) (actions : list Action)
    (reinforcement v p : Q)
    (next : State * option Action * list (State * option Action))
    (f' : frame State Action G D) :
  environment.generate_child_state current_action d
  = (Ok (successor_state, actions, reinforcement), d1) →
  acm.TableBasedCritic.state_values c !! current_state = Some v →
  acm.TableBasedActor.policy ac !! (current_state, current_action) = Some p →
  run (step_body current_state current_action [])
    (Frame th ac (acm.TableCritic c) d g sp) = (Ok next, f') →
  ∃ c' v_succ,
    critic f' = acm.TableCritic c' ∧
    next.1.1 = successor_state ∧
    next.2 = [(current_state, current_action)] ∧
    (∀ w, acm.TableBasedCritic.state_values c !! successor_state = Some w →
          v_succ = w) ∧
    (successor_state ≠ current_state →
     acm.TableBasedCritic.state_values c' !! successor_state = Some v_succ) ∧
    let td_error := (reinforcement + discount_rate th * v_succ - v)%Q in
    acm.TableBasedCritic.state_values c' !! current_state
    = Some (v + critic_lr th * td_error * 1)%Q ∧
    acm.TableBasedCritic.eligibilities c' !! current_state
    = Some (1 * (discount_rate th * decay_factor th))%Q ∧
    acm.TableBasedActor.policy (actor f') !! (current_state, current_action)
    = Some (p + actor_lr th * td_error * 1)%Q ∧
    acm.TableBasedActor.eligibilities (actor f')
      !! (current_state, current_action)
    = Some (1 * (discount_rate th * decay_factor th))%Q ∧
    (∀ s w, s ≠ current_state →
            acm.TableBasedCritic.state_values c !! s = Some w →
            acm.TableBasedCritic.state_values c' !! s = Some w) ∧
    (∀ k w, k ≠ (current_state, current_action) →
            acm.TableBasedActor.policy ac !! k = Some w →
            acm.TableBasedActor.policy (actor f') !! k = Some w).
Proof.
  intros Hchild Hv Hp. destruct ac as [P Ea SA]. destruct c as [V Ec].
  cbn [acm.TableBasedCritic.state_values acm.TableBasedActor.policy] in *.
  unfold step_body, observe.
  rewrite run_bind, run_bind, run_call_domain, Hchild. cbn [fst snd].
  rewrite run_bind, run_call_actor.
  destruct (add_state_run successor_state actions
              (Proc g (acm.TableBasedActor.mk P Ea SA)))
    as (P1 & E1 & -> & HP1 & HE1).
  cbn [self rng acm.TableBasedActor.policy acm.TableBasedActor.eligibilities
       acm.TableBasedActor.state_actions] in *.
  rewrite run_bind, run_call_critic.
  destruct (acm.TableBasedCritic.add_state successor_state
              (Proc g (acm.TableBasedCritic.mk V Ec)))
    as [[[] | e] [g1 [V1 Ec1]]] eqn:Hadd; [| discriminate].
  assert (HV1 : ∀ s w, V !! s = Some w → V1 !! s = Some w).
  { rewrite critic_add_state_cases in Hadd.
    cbn [self rng acm.TableBasedCritic.state_values
         acm.TableBasedCritic.eligibilities] in Hadd.
    destruct (V !! successor_state) as [w0 |] eqn:Hsucc.
    - injection Hadd as _ <- _. auto.
    - destruct (uniform g) as [[u | e] g2]; [| discriminate].
      injection Hadd as _ <- _. intros s w Hs.
      rewrite lookup_insert_ne; [exact Hs | congruence]. }
  clear Hadd. cbn [self rng].
  rewrite run_gets_this. cbn [this]. rewrite run_bind, run_call_actor.
  destruct (acm.TableBasedActor.propose_action successor_state (epsilon th)
              (Proc g1
                 (acm.TableBasedActor.mk P1 E1
                    (<[successor_state := actions]> SA))))
    as [[successor_action | e] p'] eqn:Hpropose; [| discriminate].
  destruct (propose_action_outcome _ _ _ _ _ Hpropose) as [Hself _].
  clear Hpropose. destruct p' as [g2 a2]. cbn [self rng] in *. subst a2.
  rewrite run_ret. cbn [fst snd].
  unfold mark_actor, td, mark_critic.
  rewrite run_bind, run_call_actor. unfold modify_self at 1, modify at 1.
  cbn [self rng acm.TableBasedActor.set_eligibility
       acm.TableBasedActor.policy acm.TableBasedActor.eligibilities
       acm.TableBasedActor.state_actions].
  rewrite run_bind, run_gets_this. cbn [this].
  rewrite run_call_critic, compute_td_error_run.
  cbn [self rng acm.TableBasedCritic.state_values].
  destruct (V1 !! successor_state) as [v_succ |] eqn:Hsucc; [| discriminate].
  rewrite (HV1 _ _ Hv). cbn [self rng].
  rewrite run_bind, run_call_critic. unfold modify_self at 1, modify at 1.
  cbn [self rng acm.TableBasedCritic.set_eligibility
       acm.TableBasedCritic.state_values acm.TableBasedCritic.eligibilities].
  cbn [app for_each].
  rewrite run_bind, run_bind.
  unfold acm.TableBasedActor.set_eligibility,
    acm.TableBasedCritic.set_eligibility.
  cbn [acm.TableBasedActor.policy
       acm.TableBasedActor.eligibilities acm.TableBasedActor.state_actions
       acm.TableBasedCritic.state_values acm.TableBasedCritic.eligibilities].
  set (f1 := Frame th
               (acm.TableBasedActor.mk P1
                  (<[(current_state, current_action) := 1%Q]> E1)
                  (<[successor_state := actions]> SA))
               (acm.TableCritic
                  (acm.TableBasedCritic.mk V1 (<[current_state := 1%Q]> Ec1)))
               d1 g2 sp).
  pose proof (credit_run (reinforcement + discount_rate th * v_succ - v)%Q
                (current_state, current_action) f1 _ eq_refl) as Hcredit.
  unfold credit_spec, f1 in Hcredit.
  cbn [fst snd values critic_traces preferences actor_traces this actor
       acm.TableBasedCritic.state_values acm.TableBasedCritic.eligibilities
       acm.TableBasedActor.policy acm.TableBasedActor.eligibilities]
    in Hcredit.
  rewrite (HV1 _ _ Hv), lookup_insert_eq in Hcredit.
  rewrite HP1, Hp, lookup_insert_eq in Hcredit.
  cbn [mbind option_bind] in Hcredit. unfold f1. rewrite Hcredit.
  clear Hcredit.
  rewrite run_ret. intros Hrun. injection Hrun as <- <-.
  eexists _, v_succ. split; [reflexivity |].
  split; [reflexivity |]. split; [reflexivity |].
  split; [intros w Hw; rewrite (HV1 _ _ Hw) in Hsucc; congruence |].
  cbn [with_tables actor critic values critic_traces preferences
       actor_traces acm.TableBasedCritic.state_values
       acm.TableBasedCritic.eligibilities acm.TableBasedActor.policy
       acm.TableBasedActor.eligibilities].
  split; [intros Hne; rewrite lookup_insert_ne; [exact Hsucc | congruence] |].
  split; [apply lookup_insert_eq |]. split; [apply lookup_insert_eq |].
  split; [apply lookup_insert_eq |]. split; [apply lookup_insert_eq |].
  split.
  - intros s w Hne Hs. rewrite lookup_insert_ne; [| congruence].
    apply HV1, Hs.
  - intros k w Hne Hk. rewrite lookup_insert_ne; [| congruence].
    rewrite HP1, Hk. reflexivity.
Qed.

End first_step.

Lemma fit_without_table_critic_witness :
  acm.ACM.max_episodes (demo.config 0 1 (1 # 2)) = 0%nat ∧
  acm.ACM.fit (Dom := demo.two_state) (demo.config 0 1 (1 # 2)) false 0%nat
  = (Ok tt, acm.ACM.enter (demo.config 0 1 (1 # 2)) false 0%nat) ∧
  "nn" ≠ "table" ∧
  acm.ACM.fit (Dom := demo.two_state)
    (acm.ACM.mk 2 1 "nn" [] (1 # 2) (1 # 2) (9 # 10) (9 # 10) (1 # 2)
       (99 # 100) false false) false 0%nat
  = (Raise AttributeError,
     acm.ACM.enter
       (acm.ACM.mk 2 1 "nn" [] (1 # 2) (1 # 2) (9 # 10) (9 # 10) (1 # 2)
          (99 # 100) false false) false 0%nat).
Proof.
  split; [reflexivity |].
  split; [apply (fit_without_table_critic (Dom := demo.two_state)
                   (demo.config 0 1 (1 # 2)) false 0%nat); reflexivity |].
  assert (Hnn : "nn" ≠ "table") by discriminate.
  split; [exact Hnn |].
  apply (fit_without_table_critic (Dom := demo.two_state)
           (acm.ACM.mk 2 1 "nn" [] (1 # 2) (1 # 2) (9 # 10) (9 # 10) (1 # 2)
              (99 # 100) false false) false 0%nat);
    [exact Hnn | discriminate].
Defined.

Lemma traces_stay_in_unit_interval_witness :
  (0 <= (9 # 10) * (9 # 10))%Q ∧ ((9 # 10) * (9 # 10) <= 1)%Q ∧
  Forall (λ f : acm.ACM.frame string string nat bool,
            unit_traces (acm.TableBasedActor.eligibilities (acm.ACM.actor f)) ∧
            match acm.ACM.critic f with
            | acm.TableCritic c =>
                unit_traces (acm.TableBasedCritic.eligibilities c)
            | acm.NNCritic => True
            end)
    (acm.ACM.fit_trace (Dom := demo.two_state) (demo.config 3 1 (1 # 2))
       false 0%nat).
Proof.
  assert (H0 : (0 <= (9 # 10) * (9 # 10))%Q) by discriminate.
  assert (H1 : ((9 # 10) * (9 # 10) <= 1)%Q) by discriminate.
  split; [exact H0 |]. split; [exact H1 |].
  exact (traces_stay_in_unit_interval (Dom := demo.two_state)
           (demo.config 3 1 (1 # 2)) false 0%nat H0 H1).
Defined.

Lemma fit_ignores_flags_witness :
  fst (acm.ACM.fit (Dom := demo.two_state) (demo.config 2 1 (1 # 2)) false
         0%nat)
  = fst (acm.ACM.fit (Dom := demo.two_state)
           (acm.ACM.mk 2 1 "table" [3%nat] (1 # 2) (1 # 2) (9 # 10) (9 # 10)
              (1 # 2) (99 # 100) true true) false 0%nat).
Proof.
  apply (fit_ignores_flags (Dom := demo.two_state) (demo.config 2 1 (1 # 2))
           (acm.ACM.mk 2 1 "table" [3%nat] (1 # 2) (1 # 2) (9 # 10) (9 # 10)
              (1 # 2) (99 # 100) true true) false 0%nat).
  reflexivity.
Defined.

Lemma propose_action_reads_only_witness :
  self (snd (acm.TableBasedActor.propose_action "S0" 0 demo_actor_tie))
  = self demo_actor_tie ∧
  fst (acm.TableBasedActor.propose_action "S0" 0 demo_actor_tie)
  = Ok (Some "right") ∧
  self (snd (acm.TableBasedActor.propose_action "T" 0 demo_actor_end))
  = self demo_actor_end ∧
  fst (acm.TableBasedActor.propose_action "T" 0 demo_actor_end) = Ok None.
Proof.
  split; [| split; [vm_compute; reflexivity | split]].
  - apply (propose_action_reads_only "S0" 0 demo_actor_tie
             (snd (acm.TableBasedActor.propose_action "S0" 0 demo_actor_tie))
             (fst (acm.TableBasedActor.propose_action "S0" 0 demo_actor_tie))).
    apply surjective_pairing.
  - apply (propose_action_reads_only "T" 0 demo_actor_end
             (snd (acm.TableBasedActor.propose_action "T" 0 demo_actor_end))
             (fst (acm.TableBasedActor.propose_action "T" 0 demo_actor_end))).
    apply surjective_pairing.
  - vm_compute. reflexivity.
Defined.


Lemma num_seen_states_counts_witness :
  critic_built (G := nat) ({["S0"]} ∪ ∅)
    (self (after (acm.TableBasedCritic.add_state "S0") demo_critic)) ∧
  acm.TableBasedCritic.num_seen_states
    (Proc 5%nat
       (self (after (acm.TableBasedCritic.add_state "S0") demo_critic)))
  = (Ok (size ({["S0"]} ∪ ∅ : gset string)),
     Proc 5%nat
       (self (after (acm.TableBasedCritic.add_state "S0") demo_critic))).
Proof.
  assert (Hbuilt : critic_built (G := nat) ({["S0"]} ∪ ∅)
            (self (after (acm.TableBasedCritic.add_state "S0") demo_critic)))
    by (apply (critic_built_add_state (G := nat) ∅
                 acm.TableBasedCritic.init 0%nat "S0" critic_built_init);
        reflexivity).
  split; [exact Hbuilt |].
  exact (num_seen_states_counts _ _ 5%nat Hbuilt).
Defined.

Lemma constructor_reads_config_witness :
  (∀ k, k ∈ construction.keys → is_Some (demo_mapping !! k)) ∧
  ∃ a, construction.new demo_mapping = Ok a.
Proof.
  assert (Hall : ∀ k, k ∈ construction.keys → is_Some (demo_mapping !! k)).
  { intros k Hk. unfold construction.keys in Hk.
    repeat (apply elem_of_cons in Hk as [-> | Hk]; [eexists; reflexivity |]).
    apply elem_of_nil in Hk. contradiction. }
  split; [exact Hall |].
  apply (constructor_reads_config demo_mapping). exact Hall.
Defined.

Lemma fit_raises_only_witness :
  fst (acm.ACM.fit (Dom := demo.bare) (demo.config 1 1 0) tt 0%nat)
  = Raise KeyError ∧
  (KeyError = KeyError ∨
   (KeyError = AttributeError ∧
    acm.ACM.critic_type (demo.config 1 1 0) ≠ "table") ∨
   raised_outside (G := nat) (D := unit) (State := string) (Action := string)
     (H0 := demo.bare) KeyError).
Proof.
  assert (Hfit : fst (acm.ACM.fit (Dom := demo.bare) (demo.config 1 1 0) tt
                        0%nat) = Raise KeyError) by (vm_compute; reflexivity).
  split; [exact Hfit |].
  exact (fit_raises_only (Dom := demo.bare) (demo.config 1 1 0) tt 0%nat
           KeyError Hfit).
Defined.

Lemma first_step_is_a_td_update_witness :
  environment.generate_child_state (Domain := demo.two_state) (Some "left")
    false = (Ok ("T", ["stay"], 1%Q), true) ∧
  run (acm.ACM.step_body (Dom := demo.two_state) "S0" (Some "left") [])
    demo_first_frame
  = (Ok ("T", Some "stay", [("S0", Some "left")]),
     snd (run (acm.ACM.step_body (Dom := demo.two_state) "S0" (Some "left")
                 []) demo_first_frame)) ∧
  ∃ c' v_succ,
    acm.ACM.critic
      (snd (run (acm.ACM.step_body (Dom := demo.two_state) "S0"
                   (Some "left") []) demo_first_frame))
    = acm.TableCritic c' ∧
    acm.TableBasedCritic.state_values c' !! "S0"
    = Some ((0 # 4) + (1 # 2) * (1 + (9 # 10) * v_succ - (0 # 4)) * 1)%Q.
Proof.
  assert (Hchild :
    environment.generate_child_state (Domain := demo.two_state) (Some "left")
      false = (Ok ("T", ["stay"], 1%Q), true)) by reflexivity.
  assert (Hrun :
    run (acm.ACM.step_body (Dom := demo.two_state) "S0" (Some "left") [])
      demo_first_frame
    = (Ok ("T", Some "stay", [("S0", Some "left")]),
       snd (run (acm.ACM.step_body (Dom := demo.two_state) "S0"
                   (Some "left") []) demo_first_frame)))
    by (vm_compute; reflexivity).
  assert (Hv :
    acm.TableBasedCritic.state_values
      (self (after (acm.TableBasedCritic.add_state "S0") demo_critic)) !! "S0"
    = Some (0 # 4)%Q) by (vm_compute; reflexivity).
  assert (Hp :
    acm.TableBasedActor.policy
      (self (after (acm.TableBasedActor.add_state "S0" ["left"; "right"])
               demo_actor)) !! ("S0", Some "left")
    = Some 0%Q) by (vm_compute; reflexivity).
  split; [exact Hchild |]. split; [exact Hrun |].
  destruct (first_step_is_a_td_update (Dom := demo.two_state)
              (demo.config 1 1 0)
              (self (after (acm.TableBasedActor.add_state "S0"
                              ["left"; "right"]) demo_actor))
              (self (after (acm.TableBasedCritic.add_state "S0") demo_critic))
              false true 1%nat [] "S0" "T" (Some "left") ["stay"] 1%Q
              (0 # 4)%Q 0%Q _ _ Hchild Hv Hp Hrun)
    as (c' & v_succ & Hc' & _ & _ & _ & _ & Hvalue & _).
  exists c', v_succ. split; [exact Hc' | exact Hvalue].
Defined.

(** ** The exploration rate stays a probability *)

Section exploration_rate.
Context `{Countable State} `{Countable Action} {G : Type} {R : Rng G}.
Context {D : Type} {Dom : environment.Domain D State Action}.
Import acm.ACM.

(** X17.  When [epsilon] and [epsilon_decay] lie between 0 and 1, the
    exploration rate lies between 0 and its initial value in every frame of
    a run: the pair [[1 - epsilon, epsilon]] handed to numpy stays a vector
    of probabilities. *)
Theorem epsilon_stays_a_probability (self : acm.ACM.t) (d : D) (g : G) :
  (0 <= epsilon self)%Q → (epsilon self <= 1)%Q →
  (0 <= epsilon_decay self)%Q → (epsilon_decay self <= 1)%Q →
  Forall (λ f : frame State Action G D,
            (0 <= epsilon (this f))%Q ∧
            (epsilon (this f) <= epsilon self)%Q ∧
            (0 <= 1 - epsilon (this f))%Q)
    (fit_trace self d g).
Proof.
  intros He0 He1 Hd0 Hd1.
  destruct (fit_invariant (State := State) (Action := Action) (D := D)
              (λ t, (0 <= epsilon t)%Q ∧ (epsilon t <= epsilon self)%Q ∧
                    epsilon_decay t = epsilon_decay self)
              (λ _, True) (λ _, True) (λ _ _, True))
    with (self := self) (d := d) (g := g) as [Htrace _];
    try (intros; exact I).
  - intros t (Ht0 & Ht1 & Htd). unfold decayed.
    cbn [epsilon epsilon_decay set_epsilon]. rewrite Htd.
    split; [nra |]. split; [nra | reflexivity].
  - split; [exact He0 |]. split; [apply Qle_refl | reflexivity].
  - eapply Forall_impl; [exact Htrace |].
    intros f (k & _ & (Ht0 & Ht1 & _) & _). split; [exact Ht0 |].
    split; [exact Ht1 | lra].
Qed.

End exploration_rate.

Lemma epsilon_stays_a_probability_witness :
  (0 <= 1 # 2)%Q ∧ (1 # 2 <= 1)%Q ∧ (0 <= 99 # 100)%Q ∧ (99 # 100 <= 1)%Q ∧
  Forall (λ f : acm.ACM.frame string string nat bool,
            (0 <= acm.ACM.epsilon (acm.ACM.this f))%Q ∧
            (acm.ACM.epsilon (acm.ACM.this f) <= 1 # 2)%Q ∧
            (0 <= 1 - acm.ACM.epsilon (acm.ACM.this f))%Q)
    (acm.ACM.fit_trace (Dom := demo.two_state) (demo.config 3 1 (1 # 2))
       false 0%nat).
Proof.
  assert (H0 : (0 <= 1 # 2)%Q) by discriminate.
  assert (H1 : (1 # 2 <= 1)%Q) by discriminate.
  assert (H2 : (0 <= 99 # 100)%Q) by discriminate.
  assert (H3 : (99 # 100 <= 1)%Q) by discriminate.
  split; [exact H0 |]. split; [exact H1 |]. split; [exact H2 |].
  split; [exact H3 |].
  exact (epsilon_stays_a_probability (Dom := demo.two_state)
           (demo.config 3 1 (1 # 2)) false 0%nat H0 H1 H2 H3).
Defined.

(** ** The history a step sweeps *)

Section history.
Context `{Countable State} `{Countable Action} {G : Type} {R : Rng G}.
Context {D : Type} {Dom : environment.Domain D State Action}.
Import acm.ACM.

(** What [observe] yields is what the domain answered: the successor state
    and the reinforcement. *)
Lemma observe_outcome (current_action : option Action)
    (f f0 : frame State Action G D) (seen : State * option Action * Q) :
  run (observe current_action) f = (Ok seen, f0) →
  ∃ actions d1,
    environment.generate_child_state current_action (domain f)
    = (Ok (seen.1.1, actions, seen.2), d1).
Proof.
  destruct f as [th ac c d g sp]. unfold observe.
  rewrite run_bind, run_call_domain. cbn [domain].
  destruct (environment.generate_child_state current_action d)
    as [[[[successor_state actions] reinforcement] | e] d1];
    [| discriminate].
  cbn [fst snd]. rewrite run_bind.
  destruct (run (call_actor _) _) as [[[] | e] fa]; [| discriminate].
  rewrite run_bind.
  destruct (run (call_critic _) _) as [[[] | e] fb]; [| discriminate].
  rewrite run_gets_this, run_bind.
  destruct (run (call_actor _) _) as [[successor_action | e] fc];
    [| discriminate].
  rewrite run_ret. intros Hrun. injection Hrun as <- _.
  exists actions, d1. reflexivity.
Qed.

(** When the statements before the sweep return: the successor is the one
    the domain answered with, both traces of the pair just taken are 1,
    and the TD error is the reinforcement the domain answered with, plus
    the discounted value of the successor, minus the value of the current
    state. *)
Lemma before_sweep_outcome (current_state : State)
    (current_action : option Action) (f f1 : frame State Action G D)
    (r : State * option Action * Q) :
  run (before_sweep current_state current_action) f = (Ok r, f1) →
  ∃ T actions reinforcement d1 v v_succ,
    environment.generate_child_state current_action (domain f)
    = (Ok (r.1.1, actions, reinforcement), d1) ∧
    tables_of f1 = Some T ∧
    actor_traces T !! (current_state, current_action) = Some 1%Q ∧
    critic_traces T !! current_state = Some 1%Q ∧
    values T !! current_state = Some v ∧
    values T !! r.1.1 = Some v_succ ∧
    r.2 = (reinforcement + discount_rate (this f1) * v_succ - v)%Q.
Proof.
  unfold before_sweep. rewrite run_bind.
  destruct (run (observe current_action) f) as [[seen | e] f0] eqn:Hobserve;
    [| discriminate].
  destruct (observe_outcome _ _ _ _ Hobserve) as (actions & d1 & Hchild).
  clear Hobserve.
  destruct f0 as [th [P Ea SA] c d g sp].
  unfold mark_actor, td, mark_critic.
  rewrite run_bind, run_call_actor. unfold modify_self at 1, modify at 1.
  cbn [self rng acm.TableBasedActor.set_eligibility
       acm.TableBasedActor.policy acm.TableBasedActor.eligibilities
       acm.TableBasedActor.state_actions].
  rewrite run_bind, run_gets_this.
  destruct c as [[V Ec] |].
  - rewrite run_call_critic, compute_td_error_run.
    cbn [self rng acm.TableBasedCritic.state_values this].
    destruct (V !! seen.1.1) as [v_succ |] eqn:Hsucc; [| discriminate].
    destruct (V !! current_state) as [v_cur |] eqn:Hcur; [| discriminate].
    cbn [self rng].
    rewrite run_bind, run_call_critic.
    unfold modify_self at 1, modify at 1.
    cbn [self rng acm.TableBasedCritic.set_eligibility
         acm.TableBasedCritic.state_values acm.TableBasedCritic.eligibilities].
    rewrite run_ret. intros Hrun. injection Hrun as <- <-.
    eexists _, actions, seen.2, d1, v_cur, v_succ.
    split; [exact Hchild |]. split; [reflexivity |].
    cbn [actor_traces critic_traces values this fst snd].
    split; [apply lookup_insert_eq |]. split; [apply lookup_insert_eq |].
    split; [exact Hcur |]. split; [exact Hsucc |]. reflexivity.
  - rewrite run_call_critic_nn. discriminate.
Qed.

(** A step is the statements before the sweep, then the sweep, and yields
    the history it swept. *)
Lemma step_body_run (current_state : State) (current_action : option Action)
    (episode : list (State * option Action)) (f : frame State Action G D) :
  run (step_body current_state current_action episode) f =
  match run (before_sweep current_state current_action) f with
  | (Ok r, f1) =>
      match run (for_each (episode ++ [(current_state, current_action)])
                   (credit r.2)) f1 with
      | (Ok _, f2) =>
          (Ok (r.1.1, r.1.2, episode ++ [(current_state, current_action)]),
           f2)
      | (Raise e, f2) => (Raise e, f2)
      end
  | (Raise e, f1) => (Raise e, f1)
  end.
Proof.
  unfold step_body, before_sweep. rewrite !run_bind.
  destruct (run (observe current_action) f) as [[seen | e] f0];
    [| reflexivity].
  rewrite !run_bind.
  destruct (run (mark_actor current_state current_action) f0)
    as [[[] | e] fa]; [| reflexivity].
  rewrite !run_bind.
  destruct (run (td current_state seen.1.1 seen.2) fa) as [[td_error | e] fb];
    [| reflexivity].
  rewrite !run_bind.
  destruct (run (mark_critic current_state) fb) as [[[] | e] fc];
    [| reflexivity].
  rewrite run_ret, run_bind. cbn [fst snd].
  destruct (run (for_each _ (credit td_error)) fc) as [[[] | e] fd];
    reflexivity.
Qed.

(** An iteration of the loop: the test of the domain, the step, and the
    loop again with the history the step swept. *)
Lemma while_loop_run (budget step : nat) (current_state : State)
    (current_action : option Action) (episode : list (State * option Action))
    (f : frame State Action G D) :
  run (while_loop (S budget) step current_state current_action episode) f =
  match run (call_domain environment.is_current_state_terminal) f with
  | (Ok true, f0) => (Ok step, f0)
  | (Ok false, f0) =>
      match run (step_body current_state current_action episode) f0 with
      | (Ok next, f1) =>
          run (while_loop budget (S step) next.1.1 next.1.2
                 (episode ++ [(current_state, current_action)])) f1
      | (Raise e, f1) => (Raise e, f1)
      end
  | (Raise e, f0) => (Raise e, f0)
  end.
Proof.
  rewrite while_loop_S, run_bind.
  destruct (run (call_domain environment.is_current_state_terminal) f)
    as [[[|] | e] f0]; [rewrite run_ret; reflexivity | | reflexivity].
  rewrite run_bind.
  pose proof (step_body_run current_state current_action episode f0) as Hstep.
  destruct (run (step_body current_state current_action episode) f0)
    as [[next | e] f1]; [| reflexivity].
  destruct (run (before_sweep current_state current_action) f0)
    as [[r | e] fa]; [| discriminate].
  destruct (run (for_each _ (credit r.2)) fa) as [[[] | e] fb];
    [| discriminate].
  injection Hstep as -> _. reflexivity.
Qed.

(** After [k] iterations the loop is at its head with the history it
    began with and, after it, the pairs visited, of which there are [k]. *)
Lemma while_loop_iterations (k : nat)
    (episode visited visited' : list (State * option Action))
    (cs cs' : State) (ca ca' : option Action)
    (f f' : frame State Action G D) :
  iterations k episode visited cs ca f = Some (visited', cs', ca', f') →
  length visited' = length visited + k ∧
  ∀ budget step,
    run (while_loop (k + budget) step cs ca (episode ++ visited)) f
    = run (while_loop budget (step + k) cs' ca' (episode ++ visited')) f'.
Proof.
  revert visited cs ca f. induction k as [| k IH]; intros visited cs ca f.
  - cbn [iterations]. intros Hiter. injection Hiter as <- <- <- <-.
    split; [lia |]. intros budget step. cbn [Nat.add].
    rewrite Nat.add_0_r. reflexivity.
  - cbn [iterations].
    destruct (run (call_domain environment.is_current_state_terminal) f)
      as [[[|] | e] f0] eqn:Hterminal; [discriminate | | discriminate].
    destruct (run (before_sweep cs ca) f0) as [[r | e] f1] eqn:Hbefore;
      [| discriminate].
    destruct (run (for_each (episode ++ visited ++ [(cs, ca)])
                     (credit r.2)) f1) as [[[] | e] f2] eqn:Hsweep;
      [| discriminate].
    intros Hiter. destruct (IH _ _ _ _ Hiter) as [Hlen Hloop].
    rewrite length_app in Hlen. cbn [length] in Hlen.
    split; [lia |]. intros budget step.
    change (S k + budget) with (S (k + budget)).
    rewrite while_loop_run, Hterminal, step_body_run, Hbefore.
    rewrite <- (assoc_L (++)), Hsweep. cbn [fst snd].
    rewrite Hloop.
    replace (S step + k) with (step + S k) by lia. reflexivity.
Qed.

(** C2.  A step of the loop, taken with the current pair
    [(current_state, current_action)] and the history [episode], where
    [history] is [episode] with the current pair appended.
    - The step runs the statements before the sweep, sweeps [history], and
      yields the successor, its proposal and [history].
    - When the statements before the sweep return, the successor is the
      state the domain answered with, both traces of the current pair are
      1, and the TD error is the reinforcement the domain answered with,
      plus the discounted value of the successor, minus the value of the
      current state.  The sweep visits [history] oldest first: after the
      first [n] entries the tables are those of [sweep_spec], where each
      entry gets the critic's value update, the critic's trace decay, the
      actor's preference update and the actor's trace decay, in this
      order, computed from the tables the entries before it left.
    - The loop goes on with [history] as its history.
    - When the loop, begun with the empty history, has come to this step
      through [k] iterations, its history is the [k] pairs that were
      current in them, oldest first.
    - Every episode begins its loop with the empty history. *)
Theorem credit_assignment_sweep (current_state : State)
    (current_action : option Action) (episode : list (State * option Action))
    (f : frame State Action G D) :
  let history := episode ++ [(current_state, current_action)] in
  run (step_body current_state current_action episode) f =
  match run (before_sweep current_state current_action) f with
  | (Ok r, f1) =>
      match run (for_each history (credit r.2)) f1 with
      | (Ok _, f2) => (Ok (r.1.1, r.1.2, history), f2)
      | (Raise e, f2) => (Raise e, f2)
      end
  | (Raise e, f1) => (Raise e, f1)
  end
  ∧
  (∀ (successor_state : State) (successor_action : option Action)
     (td_error : Q) (f1 : frame State Action G D),
     run (before_sweep current_state current_action) f
     = (Ok (successor_state, successor_action, td_error), f1) →
     ∃ T actions reinforcement d1 v v_succ,
       environment.generate_child_state current_action (domain f)
       = (Ok (successor_state, actions, reinforcement), d1) ∧
       tables_of f1 = Some T ∧
       actor_traces T !! (current_state, current_action) = Some 1%Q ∧
       critic_traces T !! current_state = Some 1%Q ∧
       values T !! current_state = Some v ∧
       values T !! successor_state = Some v_succ ∧
       td_error = (reinforcement + discount_rate (this f1) * v_succ - v)%Q ∧
       ∀ n, n ≤ length history →
         match sweep_spec (critic_lr (this f1)) (actor_lr (this f1))
                 (discount_rate (this f1)) (decay_factor (this f1)) td_error
                 history n T
         with
         | Some T' =>
             run (for_each (take n history) (credit td_error)) f1
             = (Ok tt, with_tables T' f1)
         | None =>
             fst (run (for_each (take n history) (credit td_error)) f1)
             = Raise KeyError
         end)
  ∧
  (∀ budget step,
     run (while_loop (S budget) step current_state current_action episode) f =
     match run (call_domain environment.is_current_state_terminal) f with
     | (Ok true, f0) => (Ok step, f0)
     | (Ok false, f0) =>
         match run (step_body current_state current_action episode) f0 with
         | (Ok next, f1) =>
             run (while_loop budget (S step) next.1.1 next.1.2 history) f1
         | (Raise e, f1) => (Raise e, f1)
         end
     | (Raise e, f0) => (Raise e, f0)
     end)
  ∧
  (∀ (k : nat) (visited : list (State * option Action)) (cs : State)
     (ca : option Action) (f_first : frame State Action G D),
     iterations k [] [] cs ca f_first
     = Some (visited, current_state, current_action, f) →
     length visited = k ∧
     ∀ budget,
       run (while_loop (k + budget) 0 cs ca []) f_first
       = run (while_loop budget k current_state current_action visited) f)
  ∧
  (∀ episode_count,
     ∃ rest : nat → prog (frame State Action G D) unit,
       episode_body episode_count
       = (start ← episode_init;
          self_steps ← gets_this steps;
          step ← while_loop self_steps 0 start.1 start.2 [];
          rest step)).
Proof.
  intros history. split; [apply step_body_run |].
  split; [| split; [intros budget step; apply while_loop_run | split]].
  - intros successor_state successor_action td_error f1 Hrun.
    destruct (before_sweep_outcome _ _ _ _ _ Hrun)
      as (T & actions & reinforcement & d1 & v & v_succ & Hchild & HT & Ha
          & Hc & Hv & Hsucc & Htd).
    exists T, actions, reinforcement, d1, v, v_succ.
    repeat (split; [assumption |]).
    intros n Hn. apply sweep_run; assumption.
  - intros k visited cs ca f_first Hiter.
    destruct (while_loop_iterations k [] [] visited cs current_state ca
                current_action f_first f Hiter) as [Hlen Hloop].
    split; [exact Hlen |]. intros budget. exact (Hloop budget 0%nat).
  - intros episode_count. eexists. reflexivity.
Qed.

End history.

Lemma credit_assignment_sweep_witness :
  iterations (Dom := demo.shuttle) 2 [] [] "A" (Some "go") shuttle_start
  = Some ([("A", Some "go"); ("B", Some "go")], "A", Some "go",
          shuttle_third) ∧
  (length [("A", Some "go"); ("B", Some "go")] = 2%nat ∧
   ∀ budget,
     run (acm.ACM.while_loop (Dom := demo.shuttle) (2 + budget) 0 "A"
            (Some "go") []) shuttle_start
     = run (acm.ACM.while_loop (Dom := demo.shuttle) budget 2 "A"
              (Some "go") [("A", Some "go"); ("B", Some "go")])
         shuttle_third) ∧
  run (before_sweep (Dom := demo.shuttle) "A" (Some "go")) shuttle_third
  = (Ok ("B", Some "go", shuttle_td_error), shuttle_swept) ∧
  ∃ T actions reinforcement d1 v v_succ,
    environment.generate_child_state (Domain := demo.shuttle) (Some "go")
      (acm.ACM.domain shuttle_third)
    = (Ok ("B", actions, reinforcement), d1) ∧
    tables_of shuttle_swept = Some T ∧
    actor_traces T !! ("A", Some "go") = Some 1%Q ∧
    critic_traces T !! "A" = Some 1%Q ∧
    values T !! "A" = Some v ∧
    values T !! "B" = Some v_succ ∧
    shuttle_td_error
    = (reinforcement
       + acm.ACM.discount_rate (acm.ACM.this shuttle_swept) * v_succ - v)%Q ∧
    ∀ n, n ≤ length ([("A", Some "go"); ("B", Some "go")]
                     ++ [("A", Some "go")]) →
      match sweep_spec (acm.ACM.critic_lr (acm.ACM.this shuttle_swept))
              (acm.ACM.actor_lr (acm.ACM.this shuttle_swept))
              (acm.ACM.discount_rate (acm.ACM.this shuttle_swept))
              (acm.ACM.decay_factor (acm.ACM.this shuttle_swept))
              shuttle_td_error
              ([("A", Some "go"); ("B", Some "go")] ++ [("A", Some "go")])
              n T
      with
      | Some T' =>
          run (for_each
                 (take n ([("A", Some "go"); ("B", Some "go")]
                          ++ [("A", Some "go")]))
                 (acm.ACM.credit shuttle_td_error)) shuttle_swept
          = (Ok tt, with_tables T' shuttle_swept)
      | None =>
          fst (run (for_each
                      (take n ([("A", Some "go"); ("B", Some "go")]
                               ++ [("A", Some "go")]))
                      (acm.ACM.credit shuttle_td_error)) shuttle_swept)
          = Raise KeyError
      end.
Proof.
  assert (Hiter : iterations (Dom := demo.shuttle) 2 [] [] "A" (Some "go")
                    shuttle_start
                  = Some ([("A", Some "go"); ("B", Some "go")], "A",
                          Some "go", shuttle_third))
    by (vm_compute; reflexivity).
  assert (Hrun : run (before_sweep (Dom := demo.shuttle) "A" (Some "go"))
                   shuttle_third
                 = (Ok ("B", Some "go", shuttle_td_error), shuttle_swept))
    by (vm_compute; reflexivity).
  pose proof (credit_assignment_sweep (Dom := demo.shuttle) "A" (Some "go")
                [("A", Some "go"); ("B", Some "go")] shuttle_third)
    as (_ & Hsweep & _ & Hloop & _).
  pose proof (Hloop 2%nat _ _ _ _ Hiter) as Hloop'.
  pose proof (Hsweep "B" (Some "go") shuttle_td_error shuttle_swept Hrun)
    as Hsweep'.
  split; [exact Hiter |]. split; [exact Hloop' |].
  split; [exact Hrun |].
  exact Hsweep'.
Defined.

(** Three iterations on the task that goes back and forth: the third
    sweeps [("A", go); ("B", go); ("A", go)], and the tables the loop ends
    with are those of [sweep_spec] over these three entries, where ["A"],
    recorded twice, is updated twice. *)
Example shuttle_third_sweep :
  fst (run (acm.ACM.while_loop (Dom := demo.shuttle) 3 0 "A" (Some "go") [])
         shuttle_start) = Ok 3%nat ∧
  tables_of
    (snd (run (acm.ACM.while_loop (Dom := demo.shuttle) 3 0 "A" (Some "go")
                 []) shuttle_start))
  = tables_of shuttle_swept
    ≫= sweep_spec (1 # 2) (1 # 2) (9 # 10) (9 # 10) shuttle_td_error
         [("A", Some "go"); ("B", Some "go"); ("A", Some "go")] 3.
Proof. split; vm_compute; reflexivity. Qed.

(** ** Traces in the arithmetic of Python's floats *)

(** C6, as stated, fails in the arithmetic of Python's floats.  With
    discount rate and decay factor 0.9, a trace that starts at 1 is, after
    3600 calls of [update_eligibilities], the subnormal number [2^-1073];
    it is not zero, and the next call returns normally and leaves it as it
    is, since [2^-1073 * 0.81] rounds back to [2^-1073]: its magnitude does
    not decrease.  This holds for the actor and for the critic. *)
Lemma update_eligibilities_rounding_counterexample :
  let rate := binary64.nine_tenths in
  (0 <? rate)%float = true ∧ (rate <? 1)%float = true ∧
  (let call :=
     binary64.TableBasedActor.update_eligibilities "S0" (Some "left") rate
       rate in
   let p_n := Nat.iter 3600 (after call) binary64.demo_actor in
   ∃ e_n e_next,
     binary64.TableBasedActor.eligibilities (self binary64.demo_actor)
       !! ("S0", Some "left") = Some 1%float ∧
     binary64.TableBasedActor.eligibilities (self p_n) !! ("S0", Some "left")
     = Some e_n ∧
     (0 <? e_n)%float = true ∧
     call p_n = (Ok tt, after call p_n) ∧
     binary64.TableBasedActor.eligibilities (self (after call p_n))
       !! ("S0", Some "left") = Some e_next ∧
     e_next = e_n ∧ (abs e_next <? abs e_n)%float = false) ∧
  (let call :=
     binary64.TableBasedCritic.update_eligibilities "S0" rate rate in
   let p_n := Nat.iter 3600 (after call) binary64.demo_critic in
   ∃ e_n e_next,
     binary64.TableBasedCritic.eligibilities (self binary64.demo_critic)
       !! "S0" = Some 1%float ∧
     binary64.TableBasedCritic.eligibilities (self p_n) !! "S0" = Some e_n ∧
     (0 <? e_n)%float = true ∧
     call p_n = (Ok tt, after call p_n) ∧
     binary64.TableBasedCritic.eligibilities (self (after call p_n)) !! "S0"
     = Some e_next ∧
     e_next = e_n ∧ (abs e_next <? abs e_n)%float = false).
Proof.
  cbv zeta. split; [reflexivity |]. split; [reflexivity |]. split.
  - assert (Hn : Nat.iter 3600
              (after (binary64.TableBasedActor.update_eligibilities "S0"
                        (Some "left") binary64.nine_tenths
                        binary64.nine_tenths)) binary64.demo_actor
            = Proc 0%nat
                (binary64.TableBasedActor.mk
                   {[ ("S0", Some "left") := 0%float ]}
                   {[ ("S0", Some "left") := 0x1p-1073%float ]}
                   {[ "S0" := ["left"] ]}))
      by (vm_compute; reflexivity).
    rewrite Hn. exists 0x1p-1073%float, 0x1p-1073%float.
    repeat split; vm_compute; reflexivity.
  - assert (Hn : Nat.iter 3600
              (after (binary64.TableBasedCritic.update_eligibilities "S0"
                        binary64.nine_tenths binary64.nine_tenths))
              binary64.demo_critic
            = Proc 0%nat
                (binary64.TableBasedCritic.mk {[ "S0" := 0.5%float ]}
                   {[ "S0" := 0x1p-1073%float ]}))
      by (vm_compute; reflexivity).
    rewrite Hn. exists 0x1p-1073%float, 0x1p-1073%float.
    repeat split; vm_compute; reflexivity.
Qed.

(** ** A trace that is set without registration *)

(** C8, as stated, fails for a trace that [fit] has set without
    registering its pair.  On the task that offers no action, [fit]
    registers ["S0"] with the empty list of actions, the proposal is
    [None], and [actor.eligibilities[("S0", None)] = 1] creates a trace
    for the pair [("S0", None)], which has not passed through [add_state].
    On the actor this run leaves, [update_eligibilities] on that pair
    returns normally, where the claim has it fail; [update_policy] on it
    raises [KeyError]. *)
Lemma marked_pair_counterexample :
  bare_actor
  = acm.TableBasedActor.set_eligibility ("S0", None) 1
      (self (after (acm.TableBasedActor.add_state "S0" []) demo_actor)) ∧
  ("S0", None) ∉ pair_keys (Action := string) "S0" [] ∧
  acm.TableBasedActor.policy bare_actor !! ("S0", None) = None ∧
  acm.TableBasedActor.update_eligibilities "S0" None (9 # 10) (9 # 10)
    (Proc 0%nat bare_actor)
  = (Ok tt,
     Proc 0%nat
       (acm.TableBasedActor.set_eligibility ("S0", None)
          (1 * ((9 # 10) * (9 # 10))) bare_actor)) ∧
  fst (acm.TableBasedActor.update_policy "S0" None (1 # 2) 1
         (Proc 0%nat bare_actor))
  = Raise KeyError.
Proof.
  split; [vm_compute; reflexivity |].
  split; [apply not_elem_of_nil |].
  split; [vm_compute; reflexivity |].
  split; vm_compute; reflexivity.
Qed.
